(** * A shallow embedding of the circuit breaker

    The development follows the TypeScript sources:
    - [src/common.ts]        error construction,
    - [src/types.ts]         the option and bucket interfaces,
    - the module [circuit.ts] imports as ["./status"]: the rolling
                             statistics window (class [Status], in the variant
                             that [circuit.ts] instantiates with
                             [new Status()] and whose [open] and [close] it
                             calls: ten buckets, a 10000 ms window),
    - [src/circuit.ts]       the breaker itself (class [CircuitBreaker]),
    - [src/logger.ts]        the console logger (class [Logger]),
    - the variant of [Status] that is constructed with [resetTimeout] and
                             [debug] and logs what it does: three buckets
                             and a [Logger].

    JavaScript numbers that come from the caller (the options) are modelled
    as canonical rationals extended with NaN and the two infinities: every
    finite double is such a rational and [Number.isInteger], truthiness and
    [>=] are exact on them.  The event counters of a bucket only ever start at
    0 and are incremented by one; they are modelled as unbounded integers,
    i.e. below the 2^53 bound where [x++] on a double is exact.

    The listeners are those the constructor registers; the guarded action
    and the host (timers, promise settlement, the rotation interval) are
    the environment: what they do reaches the breaker as an [Input]. *)

From Stdlib Require Import ZArith QArith Qcanon Lia String Ascii List
  DecimalString.
From stdpp Require Import base option list gmap.
Import ListNotations.

Local Open Scope Z_scope.

(* ===================================================================== *)
(** * JavaScript values used by the breaker                               *)
(* ===================================================================== *)

Module Js.

Inductive JsNumber : Type :=
| Finite (q : Qc)
| NaN
| PosInfinity
| NegInfinity.

(** An integer literal such as [10000]. *)
Definition int (z : Z) : JsNumber := Finite (Q2Qc (inject_Z z)).

(** [Number.isInteger(n)] for a number. *)
Definition Number_isInteger (n : JsNumber) : bool :=
  match n with
  | Finite q => Pos.eqb (Qden (this q)) 1
  | _ => false
  end.

(** ToBoolean on a number: [0] and [NaN] are falsy. *)
Definition truthy (n : JsNumber) : bool :=
  match n with
  | Finite q => negb (Z.eqb (Qnum (this q)) 0)
  | NaN => false
  | PosInfinity | NegInfinity => true
  end.

(** [a >= b] on numbers. *)
Definition ge (a b : JsNumber) : bool :=
  match a, b with
  | NaN, _ | _, NaN => false
  | PosInfinity, _ => true
  | _, NegInfinity => true
  | NegInfinity, _ => false
  | _, PosInfinity => false
  | Finite x, Finite y => Qle_bool (this y) (this x)
  end.

(** [a >= b] where [b] may be [undefined] (which converts to NaN). *)
Definition ge_opt (a : JsNumber) (b : option JsNumber) : bool :=
  match b with
  | Some b => ge a b
  | None => false
  end.

(** The values that travel through the breaker: call arguments, results
    and thrown errors.  [VError name message] is an [Error] object. *)
Inductive JsValue : Type :=
| VUndefined
| VBoolean (b : bool)
| VNumber (n : JsNumber)
| VString (s : string)
| VError (name message : string).

End Js.

(* ===================================================================== *)
(** * common.ts                                                           *)
(* ===================================================================== *)

Module Common.
Import Js.

Inductive ErrorCode : Type := EOPENBREAKER | ETIMEDOUT.

Definition code_string (c : ErrorCode) : string :=
  match c with
  | EOPENBREAKER => "EOPENBREAKER"
  | ETIMEDOUT => "ETIMEDOUT"
  end.

(** [const error = new Error(code); error.name = "CircuitBreaker"]. *)
Definition buildError (code : ErrorCode) : JsValue :=
  VError "CircuitBreaker" (code_string code).

End Common.

(* ===================================================================== *)
(** * types.ts                                                            *)
(* ===================================================================== *)

Module Types.
Import Js.

(** [timeout?: number | false | undefined]. *)
Inductive TimeoutOption : Type :=
| TFalse
| TNumber (n : JsNumber).

(** [interface CircuitBreakerOptions]; [None] is [undefined]. *)
Record CircuitBreakerOptions : Type := mkOptions {
  timeout : option TimeoutOption;
  maxFailures : option JsNumber;
  resetTimeout : option JsNumber;
  debug : option bool
}.

(** The literal [{}], the default value of the constructor's parameter. *)
Definition no_options : CircuitBreakerOptions :=
  mkOptions None None None None.

End Types.

(* ===================================================================== *)
(** * status.ts: the rolling statistics window                            *)
(* ===================================================================== *)

Module Status.

(** The [isCircuitBreakerOpen] slot of a bucket holds a boolean in the
    window; in the accumulator of [stats] the [+=] turns it into a number. *)
Inductive Flag : Type :=
| FBool (b : bool)
| FNum (n : Z).

Record StatusBucket : Type := mkBucket {
  failures : Z;
  successes : Z;
  rejects : Z;
  fires : Z;
  timeouts : Z;
  isCircuitBreakerOpen : Flag
}.

(** [keyof StatusBucket] as used by [increment]. *)
Inductive Property : Type :=
| Pfailures | Psuccesses | Prejects | Pfires | Ptimeouts.

(** [private bucket = (): StatusBucket => ({ failures: 0, ... })]. *)
Definition bucket : StatusBucket := mkBucket 0 0 0 0 0 (FBool false).

Record t : Type := mkStatus {
  BUCKETS : nat;
  TIMEOUT : Z;
  WINDOW : list StatusBucket;
  (** period of the [setInterval(this.nextBucket, bucketInterval)] timer *)
  BUCKET_INTERVAL : Z
}.

Definition set_WINDOW (w : list StatusBucket) (s : t) : t :=
  mkStatus (BUCKETS s) (TIMEOUT s) w (BUCKET_INTERVAL s).

(** [constructor()]: ten primed buckets, rotated every
    [Math.floor(10000 / 10)] milliseconds. *)
Definition new : t :=
  let buckets := 10%nat in
  let timeout := 10000 in
  mkStatus buckets timeout (repeat bucket buckets)
           (timeout / Z.of_nat buckets).

(** [x || 0] followed by [acc + _] on the flag slot: [false + 0 = 0],
    [false + true = 1], [n + true = n + 1]. *)
Definition flag_to_number (f : Flag) : Z :=
  match f with
  | FBool true => 1
  | FBool false => 0
  | FNum n => n
  end.

Definition flag_add (acc val : Flag) : Flag :=
  FNum (flag_to_number acc + flag_to_number val).

(** The body of the reducer: [acc[key] += val[key] || 0] for every key of
    [acc]. *)
Definition accumulate (acc val : StatusBucket) : StatusBucket :=
  mkBucket (failures acc + failures val)
           (successes acc + successes val)
           (rejects acc + rejects val)
           (fires acc + fires val)
           (timeouts acc + timeouts val)
           (flag_add (isCircuitBreakerOpen acc) (isCircuitBreakerOpen val)).

(** [get stats()]: [this[WINDOW].reduce(..., this.bucket())]. *)
Definition stats (s : t) : StatusBucket :=
  fold_left accumulate (WINDOW s) bucket.

(** The getter as a state transformer: the value it returns together with
    the [Status] object it leaves behind.  The accumulator is the fresh
    object made by [this.bucket()], the window is only read. *)
Definition get_stats (s : t) : StatusBucket * t := (stats s, s).

Definition bump (p : Property) (b : StatusBucket) : StatusBucket :=
  match p with
  | Pfailures => mkBucket (failures b + 1) (successes b) (rejects b)
                          (fires b) (timeouts b) (isCircuitBreakerOpen b)
  | Psuccesses => mkBucket (failures b) (successes b + 1) (rejects b)
                           (fires b) (timeouts b) (isCircuitBreakerOpen b)
  | Prejects => mkBucket (failures b) (successes b) (rejects b + 1)
                         (fires b) (timeouts b) (isCircuitBreakerOpen b)
  | Pfires => mkBucket (failures b) (successes b) (rejects b)
                       (fires b + 1) (timeouts b) (isCircuitBreakerOpen b)
  | Ptimeouts => mkBucket (failures b) (successes b) (rejects b)
                          (fires b) (timeouts b + 1) (isCircuitBreakerOpen b)
  end.

Definition set_flag (v : bool) (b : StatusBucket) : StatusBucket :=
  mkBucket (failures b) (successes b) (rejects b) (fires b) (timeouts b)
           (FBool v).

(** Update of [this[WINDOW][0]]; on an empty array the property access on
    [undefined] raises a TypeError, rendered as [None]. *)
Definition on_head (f : StatusBucket -> StatusBucket) (s : t) : option t :=
  match WINDOW s with
  | [] => None
  | b :: rest => Some (set_WINDOW (f b :: rest) s)
  end.

(** [increment = (property) => { this[WINDOW][0][property]++; }]. *)
Definition increment (p : Property) (s : t) : option t := on_head (bump p) s.

(** [open = () => { this[WINDOW][0].isCircuitBreakerOpen = true; }]. *)
Definition open (s : t) : option t := on_head (set_flag true) s.

(** [close = () => { this[WINDOW][0].isCircuitBreakerOpen = false; }]. *)
Definition close (s : t) : option t := on_head (set_flag false) s.

(** [nextBucket]: [this[WINDOW].pop(); this[WINDOW].unshift(this.bucket())]. *)
Definition nextBucket (s : t) : t :=
  set_WINDOW (bucket :: removelast (WINDOW s)) s.

(** The operations of a [Status] object, for running sequences of them. *)
Inductive Op : Type :=
| Increment (p : Property)
| Open
| Close
| NextBucket.

Definition run_op (o : Op) (s : t) : option t :=
  match o with
  | Increment p => increment p s
  | Open => open s
  | Close => close s
  | NextBucket => Some (nextBucket s)
  end.

Fixpoint run (ops : list Op) (s : t) : option t :=
  match ops with
  | [] => Some s
  | o :: ops' =>
      match run_op o s with
      | Some s' => run ops' s'
      | None => None
      end
  end.

Definition is_rotation (o : Op) : bool :=
  match o with NextBucket => true | _ => false end.

Definition rotations (ops : list Op) : nat :=
  length (filter (fun o => is_rotation o = true) ops).

End Status.

(* ===================================================================== *)
(** * circuit.ts: the breaker                                             *)
(* ===================================================================== *)

Module CircuitBreaker.
Import Js Common Types.

(** The symbols stored in [this[STATE]]. *)
Inductive State : Type := CLOSED | OPEN | HALF_OPEN.

Definition state_eqb (a b : State) : bool :=
  match a, b with
  | CLOSED, CLOSED | OPEN, OPEN | HALF_OPEN, HALF_OPEN => true
  | _, _ => false
  end.

Definition TimerId := nat.
Definition CallId := nat.

(** The events the breaker emits, with their payloads. *)
Inductive Event : Type :=
| EvFire (args : list JsValue)
| EvSuccess
| EvFailure (error : JsValue) (args : list JsValue)
| EvTimeout (error : JsValue) (args : list JsValue)
| EvReject (error : JsValue)
| EvOpen
| EvClose
| EvHalfOpen (resetTimeout : option JsNumber).

(** What an observer of the breaker sees, in order: the events emitted and
    the invocations of the guarded action. *)
Inductive Obs : Type :=
| Emitted (e : Event)
| Invoked (call : CallId) (args : list JsValue).

(** The callbacks handed to [setTimeout], with the delay they were given. *)
Inductive Timer : Type :=
| ResetTimer (delay : option JsNumber)
| CallTimer (call : CallId) (delay : JsNumber).

Inductive Promise : Type :=
| Pending
| Fulfilled (value : JsValue)
| Rejected (reason : JsValue).

(** One invocation of [call]: the promise it returned and the variables
    its executor closes over ([args], [timeout], [timeoutError]);
    [call_awaiting] holds while the [then]/[catch] handlers are attached
    to an action promise that has not settled yet. *)
Record Call : Type := mkCall {
  call_args : list JsValue;
  call_timeout : option TimerId;
  call_timeoutError : bool;
  call_promise : Promise;
  call_awaiting : bool
}.

(** The breaker object together with the part of the host it talks to:
    the pending [setTimeout] timers, the promises it handed out and the
    trace of observations. *)
Record t : Type := mkBreaker {
  options : CircuitBreakerOptions;
  STATE : State;
  PENDING_CLOSE : bool;
  STATUS : Status.t;
  RESET_TIMEOUT : option TimerId;
  timers : gmap TimerId Timer;
  next_timer : TimerId;
  calls : gmap CallId Call;
  next_call : CallId;
  log : list Obs
}.

Definition set_STATE (x : State) (b : t) : t :=
  mkBreaker (options b) x (PENDING_CLOSE b) (STATUS b) (RESET_TIMEOUT b)
            (timers b) (next_timer b) (calls b) (next_call b) (log b).
Definition set_PENDING_CLOSE (x : bool) (b : t) : t :=
  mkBreaker (options b) (STATE b) x (STATUS b) (RESET_TIMEOUT b)
            (timers b) (next_timer b) (calls b) (next_call b) (log b).
Definition set_STATUS (x : Status.t) (b : t) : t :=
  mkBreaker (options b) (STATE b) (PENDING_CLOSE b) x (RESET_TIMEOUT b)
            (timers b) (next_timer b) (calls b) (next_call b) (log b).
Definition set_RESET_TIMEOUT (x : option TimerId) (b : t) : t :=
  mkBreaker (options b) (STATE b) (PENDING_CLOSE b) (STATUS b) x
            (timers b) (next_timer b) (calls b) (next_call b) (log b).
Definition set_timers (x : gmap TimerId Timer) (b : t) : t :=
  mkBreaker (options b) (STATE b) (PENDING_CLOSE b) (STATUS b)
            (RESET_TIMEOUT b) x (next_timer b) (calls b) (next_call b)
            (log b).
Definition set_next_timer (x : TimerId) (b : t) : t :=
  mkBreaker (options b) (STATE b) (PENDING_CLOSE b) (STATUS b)
            (RESET_TIMEOUT b) (timers b) x (calls b) (next_call b) (log b).
Definition set_calls (x : gmap CallId Call) (b : t) : t :=
  mkBreaker (options b) (STATE b) (PENDING_CLOSE b) (STATUS b)
            (RESET_TIMEOUT b) (timers b) (next_timer b) x (next_call b)
            (log b).
Definition set_next_call (x : CallId) (b : t) : t :=
  mkBreaker (options b) (STATE b) (PENDING_CLOSE b) (STATUS b)
            (RESET_TIMEOUT b) (timers b) (next_timer b) (calls b) x (log b).
Definition set_log (x : list Obs) (b : t) : t :=
  mkBreaker (options b) (STATE b) (PENDING_CLOSE b) (STATUS b)
            (RESET_TIMEOUT b) (timers b) (next_timer b) (calls b)
            (next_call b) x.

(** ** A state monad with failure

    A method of the breaker is a function from the object before to its
    result and the object after; [None] is the TypeError that an access to
    [this[WINDOW][0]] raises on an empty window. *)
Definition M (A : Type) : Type := t -> option (A * t).

Definition ret {A} (a : A) : M A := fun b => Some (a, b).

Definition bind {A B} (m : M A) (k : A -> M B) : M B :=
  fun b => match m b with
           | Some (a, b') => k a b'
           | None => None
           end.

Definition gets {A} (f : t -> A) : M A := fun b => Some (f b, b).
Definition modify (f : t -> t) : M unit := fun b => Some (tt, f b).

Declare Scope breaker_scope.
Delimit Scope breaker_scope with breaker.
Notation "x <- m ;; k" := (bind m (fun x => k))
  (at level 100, m at next level, right associativity) : breaker_scope.
Notation "m ;; k" := (bind m (fun _ => k))
  (at level 100, right associativity) : breaker_scope.
Local Open Scope breaker_scope.

(** ** Host primitives *)

Definition observe (o : Obs) : M unit :=
  modify (fun b => set_log (log b ++ [o]) b).

Definition setTimeout (k : Timer) : M TimerId :=
  fun b => Some (next_timer b,
                 set_next_timer (S (next_timer b))
                   (set_timers (<[next_timer b := k]> (timers b)) b)).

(** [clearTimeout(handle)]; clearing [undefined] or a timer that has
    already fired does nothing. *)
Definition clearTimeout (h : option TimerId) : M unit :=
  match h with
  | Some id => modify (fun b => set_timers (delete id (timers b)) b)
  | None => ret tt
  end.

Definition update_call (id : CallId) (f : Call -> Call) : M unit :=
  modify (fun b => set_calls (alter f id (calls b)) b).

(** [resolve]/[reject] of the promise returned by call [id]; a promise
    settles once. *)
Definition settle (p : Promise) (c : Call) : Call :=
  match call_promise c with
  | Pending => mkCall (call_args c) (call_timeout c) (call_timeoutError c)
                      p (call_awaiting c)
  | _ => c
  end.

Definition resolve (id : CallId) (value : JsValue) : M unit :=
  update_call id (settle (Fulfilled value)).
Definition reject (id : CallId) (reason : JsValue) : M unit :=
  update_call id (settle (Rejected reason)).

Definition on_status (f : Status.t -> option Status.t) : M unit :=
  fun b => match f (STATUS b) with
           | Some s => Some (tt, set_STATUS s b)
           | None => None
           end.

(** ** Getters *)

Definition closed (b : t) : bool := state_eqb (STATE b) CLOSED.
Definition halfOpen (b : t) : bool := state_eqb (STATE b) HALF_OPEN.
Definition opened (b : t) : bool := state_eqb (STATE b) OPEN.
Definition stats (b : t) : Status.StatusBucket := Status.stats (STATUS b).

(** ** Methods *)

(** [startResetTimer]: [this[RESET_TIMEOUT] = setTimeout(...,
    this.options.resetTimeout)]. *)
Definition startResetTimer : M unit :=
  delay <- gets (fun b => resetTimeout (options b)) ;;
  id <- setTimeout (ResetTimer delay) ;;
  modify (set_RESET_TIMEOUT (Some id)).

(** The listeners registered by the constructor for ["open"] and
    ["close"]. *)
Definition on_open : M unit := on_status Status.open ;; startResetTimer.
Definition on_close : M unit := on_status Status.close.

(** [close]. *)
Definition close : M unit :=
  st <- gets STATE ;;
  if negb (state_eqb st CLOSED) then
    h <- gets RESET_TIMEOUT ;;
    clearTimeout h ;;
    modify (set_STATE CLOSED) ;;
    modify (set_PENDING_CLOSE false) ;;
    observe (Emitted EvClose) ;; on_close
  else ret tt.

(** [open]. *)
Definition open : M unit :=
  st <- gets STATE ;;
  if negb (state_eqb st OPEN) then
    modify (set_STATE OPEN) ;;
    modify (set_PENDING_CLOSE false) ;;
    observe (Emitted EvOpen) ;; on_open
  else ret tt.

(** The listeners registered by the constructor, by event name. *)
Definition listeners (e : Event) : M unit :=
  match e with
  | EvSuccess =>
      on_status (Status.increment Status.Psuccesses) ;;
      ho <- gets halfOpen ;;
      if ho then close else ret tt
  | EvFailure _ _ => on_status (Status.increment Status.Pfailures)
  | EvTimeout _ _ => on_status (Status.increment Status.Ptimeouts)
  | EvFire _ => on_status (Status.increment Status.Pfires)
  | EvReject _ => on_status (Status.increment Status.Prejects)
  | EvOpen => on_open
  | EvClose => on_close
  | EvHalfOpen _ => ret tt
  end.

(** [this.emit(name, ...payload)]. *)
Definition emit (e : Event) : M unit :=
  observe (Emitted e) ;; listeners e.

(** [fail]. *)
Definition fail (error : JsValue) (args : list JsValue) : M unit :=
  emit (EvFailure error args) ;;
  stats <- gets stats ;;
  max <- gets (fun b => maxFailures (options b)) ;;
  ho <- gets halfOpen ;;
  if ge_opt (int (Status.failures stats)) max || ho then open else ret tt.

(** [handleError(error, timeout, args, reject)]. *)
Definition handleError (error : JsValue) (timeout : option TimerId)
    (args : list JsValue) (id : CallId) : M unit :=
  clearTimeout timeout ;;
  fail error args ;;
  reject id error.

(** What the guarded action does when it is invoked: it throws, or it
    returns a promise whose settlement the host delivers later.  An action
    that returns a plain value is wrapped by [Promise.resolve] and behaves
    as a promise fulfilled with it; one that returns [undefined] or [null]
    makes [result.then] throw a TypeError inside the [try], which is the
    first behaviour. *)
Inductive Behaviour : Type :=
| Throws (error : JsValue)
| ReturnsPromise.

Definition new_call (c : Call) : M CallId :=
  fun b => Some (next_call b,
                 set_next_call (S (next_call b))
                   (set_calls (<[next_call b := c]> (calls b)) b)).

(** [if (this.options.timeout)]: the delay when the option is truthy. *)
Definition timeout_enabled (o : option TimeoutOption) : option JsNumber :=
  match o with
  | Some (TNumber n) => if truthy n then Some n else None
  | Some TFalse | None => None
  end.

(** [call(context, ...rest)], as reached through [fire(...args)]. *)
Definition call (args : list JsValue) (action : Behaviour) : M CallId :=
  emit (EvFire args) ;;
  cl <- gets closed ;;
  ho <- gets halfOpen ;;
  if negb cl && negb ho then
    let error := buildError EOPENBREAKER in
    emit (EvReject error) ;;
    new_call (mkCall args None false (Rejected error) false)
  else
    modify (set_PENDING_CLOSE false) ;;
    id <- new_call (mkCall args None false Pending false) ;;
    tmo <- gets (fun b => timeout_enabled (timeout (options b))) ;;
    timeout <- match tmo with
               | Some delay =>
                   h <- setTimeout (CallTimer id delay) ;;
                   update_call id (fun c =>
                     mkCall (call_args c) (Some h) (call_timeoutError c)
                            (call_promise c) (call_awaiting c)) ;;
                   ret (Some h)
               | None => ret None
               end ;;
    observe (Invoked id args) ;;
    match action with
    | Throws error => handleError error timeout args id
    | ReturnsPromise =>
        update_call id (fun c =>
          mkCall (call_args c) (call_timeout c) (call_timeoutError c)
                 (call_promise c) true)
    end ;;
    ret id.

Definition fire := call.

Definition detach (c : Call) : Call :=
  mkCall (call_args c) (call_timeout c) (call_timeoutError c)
         (call_promise c) false.

(** The [then] handler of the action's promise. *)
Definition on_fulfilled (id : CallId) (c : Call) (result : JsValue)
  : M unit :=
  update_call id detach ;;
  if negb (call_timeoutError c) then
    clearTimeout (call_timeout c) ;;
    emit EvSuccess ;;
    resolve id result
  else ret tt.

(** The [catch] handler of the action's promise. *)
Definition on_rejected (id : CallId) (c : Call) (error : JsValue)
  : M unit :=
  update_call id detach ;;
  if negb (call_timeoutError c) then
    handleError error (call_timeout c) (call_args c) id
  else ret tt.

(** The callback of the per-call [setTimeout]. *)
Definition on_timeout (id : CallId) (c : Call) : M unit :=
  update_call id (fun c =>
    mkCall (call_args c) (call_timeout c) true (call_promise c)
           (call_awaiting c)) ;;
  let error := buildError ETIMEDOUT in
  emit (EvTimeout error (call_args c)) ;;
  handleError error (call_timeout c) (call_args c) id.

(** The callback of the reset timer. *)
Definition on_reset : M unit :=
  modify (set_STATE HALF_OPEN) ;;
  modify (set_PENDING_CLOSE true) ;;
  delay <- gets (fun b => resetTimeout (options b)) ;;
  emit (EvHalfOpen delay).

(** ** Construction *)

(** "Populate the options". *)
Definition populate (o : CircuitBreakerOptions) : CircuitBreakerOptions :=
  mkOptions
    (match timeout o with
     | Some TFalse => Some TFalse
     | Some (TNumber n) =>
         if truthy n then Some (TNumber n) else Some (TNumber (int 10000))
     | None => Some (TNumber (int 10000))
     end)
    (match maxFailures o with
     | Some n => if Number_isInteger n then Some n else Some (int 10)
     | None => Some (int 10)
     end)
    (match resetTimeout o with
     | Some n => if truthy n then Some n else Some (int 30000)
     | None => Some (int 30000)
     end)
    (Some (match debug o with Some d => d | None => false end)).

(** [new CircuitBreaker(action, options)]; [None] is the TypeError thrown
    for an action that is not a function. *)
Definition new (action_is_function : bool) (o : CircuitBreakerOptions)
  : option t :=
  if negb action_is_function then None
  else Some (mkBreaker (populate o) CLOSED false Status.new None
                       ∅ 0%nat ∅ 0%nat []).

(** ** The host's event loop

    Everything that can happen to a breaker: a caller fires it or uses a
    manual override, an action promise settles, a timer elapses, the
    rotation interval ticks. *)
Inductive Settlement : Type :=
| Resolves (value : JsValue)
| Rejects (error : JsValue).

Inductive Input : Type :=
| Fire (args : list JsValue) (action : Behaviour)
| Settle (id : CallId) (s : Settlement)
| Elapse (timer : TimerId)
| Rotate
| ManualClose
| ManualOpen.

Definition run_timer (k : Timer) : M unit :=
  match k with
  | ResetTimer _ => on_reset
  | CallTimer id _ =>
      fun b => match calls b !! id with
               | Some c => on_timeout id c b
               | None => None
               end
  end.

Definition exec (i : Input) (b : t) : option t :=
  match i with
  | Fire args action => snd <$> call args action b
  | Settle id s =>
      match calls b !! id with
      | Some c =>
          if call_awaiting c then
            snd <$> match s with
                    | Resolves v => on_fulfilled id c v b
                    | Rejects e => on_rejected id c e b
                    end
          else None
      | None => None
      end
  | Elapse tid =>
      match timers b !! tid with
      | Some k => snd <$> run_timer k (set_timers (delete tid (timers b)) b)
      | None => None
      end
  | Rotate => Some (set_STATUS (Status.nextBucket (STATUS b)) b)
  | ManualClose => snd <$> close b
  | ManualOpen => snd <$> open b
  end.

Fixpoint run (trace : list Input) (b : t) : option t :=
  match trace with
  | [] => Some b
  | i :: trace' =>
      match exec i b with
      | Some b' => run trace' b'
      | None => None
      end
  end.

(** The breakers a program can observe: those reached from a freshly
    constructed one. *)
Definition reachable (o : CircuitBreakerOptions) (b : t) : Prop :=
  exists b0 trace, new true o = Some b0 /\ run trace b0 = Some b.

End CircuitBreaker.

(* ===================================================================== *)
(** * circuit.ts: [toJSON]                                                *)
(* ===================================================================== *)

Module Serialisation.
Import Js Common Types CircuitBreaker.

(** The object [toJSON] returns: [{ state: { closed, open, halfOpen },
    stats }]. *)
Record StateJSON : Type := mkStateJSON {
  json_closed : bool;
  json_open : bool;
  json_halfOpen : bool
}.

Record BreakerJSON : Type := mkBreakerJSON {
  json_state : StateJSON;
  json_stats : Status.StatusBucket
}.

(** [toJSON]: the three getters and the [stats] getter. *)
Definition toJSON (b : t) : BreakerJSON :=
  mkBreakerJSON (mkStateJSON (closed b) (opened b) (halfOpen b)) (stats b).

End Serialisation.

(* ===================================================================== *)
(** * logger.ts                                                           *)
(* ===================================================================== *)

Module Logger.

(** The console methods the logger writes with. *)
Inductive Method : Type := ConsoleDebug | ConsoleError.

(** What has been written to the console, oldest line first. *)
Definition Console : Type := list (Method * string).

Record t : Type := mkLogger {
  module : string;
  level : Z
}.

(** [constructor(private module: string, private level: 1 | 2 = 1)]. *)
Definition new (module : string) (level : option Z) : t :=
  mkLogger module (match level with Some l => l | None => 1 end).

(** [debug]: [if (this.level >= 2) console.debug(...)], the text being
    the module name between a bracket and [::debug] followed by a closing
    bracket, a space and the message. *)
Definition debug (msg : string) (l : t) (console : Console) : Console :=
  if 2 <=? level l
  then console
       ++ [(ConsoleDebug,
            String.append "["
              (String.append (module l) (String.append "::debug] " msg)))]
  else console.

(** [error]: [if (this.level >= 1) console.error(...)]; here the closing
    bracket is followed by a colon. *)
Definition error (msg : string) (l : t) (console : Console) : Console :=
  if 1 <=? level l
  then console
       ++ [(ConsoleError,
            String.append "["
              (String.append (module l) (String.append "::error]: " msg)))]
  else console.

(** A use of the logger. *)
Inductive Entry : Type :=
| Debug (msg : string)
| Error (msg : string).

Definition write (l : t) (console : Console) (e : Entry) : Console :=
  match e with
  | Debug msg => debug msg l console
  | Error msg => error msg l console
  end.

Definition write_all (l : t) (es : list Entry) (console : Console)
  : Console :=
  fold_left (write l) es console.

End Logger.

(* ===================================================================== *)
(** * status.ts, the variant that logs                                    *)
(* ===================================================================== *)

(** The class [Status] in the variant that takes [resetTimeout] and
    [debug]: three buckets of five counters and a [Logger].  The window
    duration is an integer number of milliseconds, for which
    [Math.floor(this[TIMEOUT] / this[BUCKETS])] is the integer quotient. *)
Module LoggedStatus.
Import Logger.

Record StatusBucket : Type := mkBucket {
  failures : Z;
  successes : Z;
  rejects : Z;
  fires : Z;
  timeouts : Z
}.

Inductive Property : Type :=
| Pfailures | Psuccesses | Prejects | Pfires | Ptimeouts.

Definition property_name (p : Property) : string :=
  match p with
  | Pfailures => "failures"
  | Psuccesses => "successes"
  | Prejects => "rejects"
  | Pfires => "fires"
  | Ptimeouts => "timeouts"
  end.

(** [private bucket = (): StatusBucket => ({ failures: 0, ... })]. *)
Definition bucket : StatusBucket := mkBucket 0 0 0 0 0.

Record t : Type := mkStatus {
  BUCKETS : nat;
  TIMEOUT : Z;
  WINDOW : list StatusBucket;
  LOGGER : Logger.t;
  BUCKET_INTERVAL : Z
}.

Definition set_WINDOW (w : list StatusBucket) (s : t) : t :=
  mkStatus (BUCKETS s) (TIMEOUT s) w (LOGGER s) (BUCKET_INTERVAL s).

(** ** [JSON.stringify(window, null, 1)]

    With an indentation of one space: the array's brackets on lines of
    their own, every bucket one space in, every member two spaces in, a
    space after each colon, a comma after every member and every bucket
    but the last. *)

Definition newline : string := String "010"%char EmptyString.
Definition quote : string := String "034"%char EmptyString.

(** A counter: an integer, in decimal. *)
Definition number (z : Z) : string := NilZero.string_of_int (Z.to_int z).

Definition member (key : string) (z : Z) : string :=
  String.concat EmptyString ["  "; quote; key; quote; ": "; number z]%string.

Definition stringify_bucket (b : StatusBucket) : string :=
  String.concat EmptyString
    [" {"; newline;
     member "failures" (failures b); ","; newline;
     member "successes" (successes b); ","; newline;
     member "rejects" (rejects b); ","; newline;
     member "fires" (fires b); ","; newline;
     member "timeouts" (timeouts b); newline;
     " }"]%string.

Definition stringify (w : list StatusBucket) : string :=
  match w with
  | [] => "[]"%string
  | _ =>
      String.concat EmptyString
        ["["; newline;
         String.concat (String.append "," newline) (map stringify_bucket w);
         newline; "]"]%string
  end.

(** ** The class *)

(** [constructor(resetTimeout: number, debug: boolean = false)]. *)
Definition new (resetTimeout : Z) (debug : option bool) (console : Console)
  : t * Console :=
  let buckets := 3%nat in
  let window := repeat bucket buckets in
  let logger :=
    Logger.new "Status"
      (Some (if match debug with Some d => d | None => false end
             then 2 else 1)) in
  (mkStatus buckets resetTimeout window logger
            (resetTimeout / Z.of_nat buckets),
   Logger.debug
     (String.append "Initialized with following window: " (stringify window))
     logger console).

Definition accumulate (acc val : StatusBucket) : StatusBucket :=
  mkBucket (failures acc + failures val)
           (successes acc + successes val)
           (rejects acc + rejects val)
           (fires acc + fires val)
           (timeouts acc + timeouts val).

(** [get stats()]. *)
Definition stats (s : t) : StatusBucket :=
  fold_left accumulate (WINDOW s) bucket.

Definition bump (p : Property) (b : StatusBucket) : StatusBucket :=
  match p with
  | Pfailures => mkBucket (failures b + 1) (successes b) (rejects b)
                          (fires b) (timeouts b)
  | Psuccesses => mkBucket (failures b) (successes b + 1) (rejects b)
                           (fires b) (timeouts b)
  | Prejects => mkBucket (failures b) (successes b) (rejects b + 1)
                         (fires b) (timeouts b)
  | Pfires => mkBucket (failures b) (successes b) (rejects b)
                       (fires b + 1) (timeouts b)
  | Ptimeouts => mkBucket (failures b) (successes b) (rejects b)
                          (fires b) (timeouts b + 1)
  end.

(** [increment]: the debug line is written first, then
    [this[WINDOW][0][property]++]; on an empty window that is the
    TypeError, rendered as [None]. *)
Definition increment (p : Property) (s : t) (console : Console)
  : option t * Console :=
  let console' :=
    Logger.debug
      (String.concat EmptyString
         ["Incrementing the '"; property_name p;
          "' count of the first bucket"]%string)
      (LOGGER s) console in
  match WINDOW s with
  | [] => (None, console')
  | b :: rest => (Some (set_WINDOW (bump p b :: rest) s), console')
  end.

(** [nextBucket]: [pop], [unshift(this.bucket())], then the debug line
    with the window after the rotation. *)
Definition nextBucket (s : t) (console : Console) : t * Console :=
  let s' := set_WINDOW (bucket :: removelast (WINDOW s)) s in
  (s',
   Logger.debug
     (String.append "Window After rotation " (stringify (WINDOW s')))
     (LOGGER s') console).

Inductive Op : Type :=
| Increment (p : Property)
| NextBucket.

Definition run_op (o : Op) (s : t) (console : Console)
  : option t * Console :=
  match o with
  | Increment p => increment p s console
  | NextBucket =>
      let (s', console') := nextBucket s console in (Some s', console')
  end.

Fixpoint run (ops : list Op) (s : t) (console : Console)
  : option t * Console :=
  match ops with
  | [] => (Some s, console)
  | o :: ops' =>
      match run_op o s console with
      | (Some s', console') => run ops' s' console'
      | (None, console') => (None, console')
      end
  end.

(** A [Status] constructed and then used. *)
Definition session (resetTimeout : Z) (debug : option bool) (ops : list Op)
    (console : Console) : option t * Console :=
  let (s, console') := new resetTimeout debug console in
  run ops s console'.

End LoggedStatus.


(* ===================================================================== *)
(** * Notions used to state the properties                                *)
(* ===================================================================== *)

Module StatusSpec.
Import Status.

(** The sum of one counter over the buckets of a window, as the
    specification words it. *)
Definition total (f : StatusBucket -> Z) (w : list StatusBucket) : Z :=
  foldr (fun b acc => f b + acc) 0 w.

(** Two [Status] objects that differ at most in the buckets behind the
    first [r] ones. *)
Definition agree (r : nat) (s1 s2 : t) : Prop :=
  BUCKETS s1 = BUCKETS s2 /\ TIMEOUT s1 = TIMEOUT s2 /\
  BUCKET_INTERVAL s1 = BUCKET_INTERVAL s2 /\
  length (WINDOW s1) = length (WINDOW s2) /\
  take r (WINDOW s1) = take r (WINDOW s2).

(** The window a [Status] would have had if nothing had been recorded. *)
Definition forget (s : t) : t :=
  set_WINDOW (repeat bucket (length (WINDOW s))) s.

End StatusSpec.

Module BreakerSpec.
Import Js Common Types CircuitBreaker.

(** [wp m Q b]: method [m] returns from [b] and the result and the final
    breaker satisfy [Q]. *)
Definition wp {A} (m : M A) (Q : A -> t -> Prop) (b : t) : Prop :=
  exists a b', m b = Some (a, b') /\ Q a b'.

(** What holds of every breaker reached from a constructed one: the window
    is never empty, timer and call identifiers are fresh when they are
    allocated, and a pending call timeout belongs to a call in flight. *)
Record Inv (b : t) : Prop := mkInv {
  inv_window : Status.WINDOW (STATUS b) <> [];
  inv_timers_fresh :
    forall tid k, timers b !! tid = Some k -> (tid < next_timer b)%nat;
  inv_calls_fresh :
    forall id c, calls b !! id = Some c -> (id < next_call b)%nat;
  inv_handles_fresh :
    forall id c h, calls b !! id = Some c -> call_timeout c = Some h ->
                   (h < next_timer b)%nat;
  inv_invoked_fresh :
    forall id a, In (Invoked id a) (log b) -> (id < next_call b)%nat;
  inv_call_timer :
    forall tid id d, timers b !! tid = Some (CallTimer id d) ->
      exists c, calls b !! id = Some c /\ call_timeout c = Some tid /\
                call_timeoutError c = false /\ call_promise c = Pending /\
                call_awaiting c = true
}.

(** What every step preserves about the calls and timers that already
    exist. *)
Record evolves (b b' : t) : Prop := mkEvolves {
  ev_options : options b' = options b;
  ev_next_timer : (next_timer b <= next_timer b')%nat;
  ev_timers :
    forall tid, (tid < next_timer b)%nat ->
                timers b !! tid = None -> timers b' !! tid = None;
  ev_calls :
    forall id c, calls b !! id = Some c ->
      exists c', calls b' !! id = Some c' /\
        call_args c' = call_args c /\
        (call_timeoutError c = true -> call_timeoutError c' = true) /\
        (call_promise c <> Pending -> call_promise c' = call_promise c)
}.

(** No call timeout exists, has existed or has fired. *)
Record NoTimeouts (b : t) : Prop := mkNoTimeouts {
  nt_timers : forall tid id d, timers b !! tid <> Some (CallTimer id d);
  nt_log : forall e a, ~ In (Emitted (EvTimeout e a)) (log b);
  nt_calls : forall id c, calls b !! id = Some c ->
               call_timeout c = None /\ call_timeoutError c = false
}.

(** With no timeout pending, the promise of a call whose action was
    invoked is settled only by what the action did. *)
Definition settled_by_action (i : Input) (id : CallId) (b : t) (c' : Call)
  : Prop :=
  (exists c, calls b !! id = Some c /\ call_promise c = call_promise c') \/
  (exists v, i = Settle id (Resolves v) /\ call_promise c' = Fulfilled v) \/
  (exists e, i = Settle id (Rejects e) /\ call_promise c' = Rejected e) \/
  (exists args e, i = Fire args (Throws e) /\ call_promise c' = Rejected e).

(** The test of [fail], evaluated before the failure is recorded: the
    failure about to be counted brings the windowed count to the
    threshold, or the breaker is half open. *)
Definition trips (b : t) : bool :=
  ge_opt (int (Status.failures (stats b) + 1)) (maxFailures (options b))
  || halfOpen b.


(** Construct a breaker and let the events of [trace] happen to it. *)
Definition boot (o : CircuitBreakerOptions) (trace : list Input)
  : option t :=
  match new true o with
  | Some b0 => run trace b0
  | None => None
  end.

End BreakerSpec.

(** Concrete options, runs and windows on which the theorems are
    exercised. *)
Module Samples.
Import Js Common Types CircuitBreaker.

(** [new Error("REJECT")]. *)
Definition boom : JsValue := VError "Error" "REJECT".

(** [maxFailures: 2, resetTimeout: 200, timeout: false]. *)
Definition two_failures : CircuitBreakerOptions :=
  mkOptions (Some TFalse) (Some (int 2)) (Some (int 200)) None.

(** [maxFailures: 2, resetTimeout: 200], the timeout left at its
    default. *)
Definition two_failures_timed : CircuitBreakerOptions :=
  mkOptions None (Some (int 2)) (Some (int 200)) None.

(** [maxFailures: 0]. *)
Definition zero_maxFailures : CircuitBreakerOptions :=
  mkOptions None (Some (int 0)) None None.

(** [timeout: 0, resetTimeout: 0, maxFailures: 1.5]. *)
Definition falsy_options : CircuitBreakerOptions :=
  mkOptions (Some (TNumber (int 0))) (Some (Finite (Q2Qc (3 # 2))))
            (Some (int 0)) None.

(** Two failures open the breaker, the reset timer elapses, a probe
    succeeds and closes the breaker again; no rotation has happened. *)
Definition reclosing : list Input :=
  [ Fire [] (Throws boom); Fire [] (Throws boom); Elapse 0%nat;
    Fire [] ReturnsPromise; Settle 2%nat (Resolves (VString "RESOLVE")) ].

(** Two failures, the reset timer (the third timer created) elapses, and
    a probe is in flight: call 2, whose timeout is timer 3. *)
Definition probing : list Input :=
  [ Fire [] (Throws boom); Fire [] (Throws boom); Elapse 2%nat;
    Fire [] ReturnsPromise ].

(** A fresh window whose newest bucket has counted something. *)
Definition busy_status : Status.t :=
  Status.set_WINDOW
    (Status.mkBucket 3 1 0 4 0 (Status.FBool false)
       :: repeat Status.bucket 9)
    Status.new.

(** Ten times: a rotation, then a failure is recorded. *)
Definition ten_rotations : list Status.Op :=
  concat (repeat [Status.NextBucket; Status.Increment Status.Pfailures] 10).

End Samples.

(** Further notions about the window of a [Status]. *)
Module StatusShape.
Import Status.

(** [bucket[property]]. *)
Definition counter (p : Property) (b : StatusBucket) : Z :=
  match p with
  | Pfailures => failures b
  | Psuccesses => successes b
  | Prejects => rejects b
  | Pfires => fires b
  | Ptimeouts => timeouts b
  end.

(** A bucket whose [isCircuitBreakerOpen] is [true]. *)
Definition flagged (bk : StatusBucket) : bool :=
  match isCircuitBreakerOpen bk with
  | FBool v => v
  | FNum _ => false
  end.

Definition count_flagged (w : list StatusBucket) : Z :=
  Z.of_nat (length (List.filter flagged w)).

(** A bucket of a window: counters that are not negative and a boolean in
    the flag. *)
Definition bucket_wf (bk : StatusBucket) : Prop :=
  (0 <= failures bk /\ 0 <= successes bk /\ 0 <= rejects bk /\
   0 <= fires bk /\ 0 <= timeouts bk) /\
  exists v, isCircuitBreakerOpen bk = FBool v.

End StatusShape.

(** The events of a breaker and what its listeners make of them. *)
Module BreakerEvents.
Import Js Common Types CircuitBreaker StatusShape.

(** What the listeners registered by the constructor make of one
    observation in the newest bucket. *)
Definition record (hd : Status.StatusBucket) (o : Obs) : Status.StatusBucket :=
  match o with
  | Emitted (EvFire _) => Status.bump Status.Pfires hd
  | Emitted EvSuccess => Status.bump Status.Psuccesses hd
  | Emitted (EvFailure _ _) => Status.bump Status.Pfailures hd
  | Emitted (EvTimeout _ _) => Status.bump Status.Ptimeouts hd
  | Emitted (EvReject _) => Status.bump Status.Prejects hd
  | Emitted EvOpen => Status.set_flag true hd
  | Emitted EvClose => Status.set_flag false hd
  | Emitted (EvHalfOpen _) => hd
  | Invoked _ _ => hd
  end.

Definition replay (obs : list Obs) (w : list Status.StatusBucket)
  : list Status.StatusBucket :=
  match w with
  | [] => []
  | hd :: rest => fold_left record obs hd :: rest
  end.

(** The state an observer that listens to ["open"], ["close"] and
    ["halfOpen"] takes the breaker to be in. *)
Definition announce (st : State) (o : Obs) : State :=
  match o with
  | Emitted EvOpen => OPEN
  | Emitted EvClose => CLOSED
  | Emitted (EvHalfOpen _) => HALF_OPEN
  | _ => st
  end.

Definition track (obs : list Obs) (st : State) : State :=
  fold_left announce obs st.

(** The event that the listener of counter [p] is registered for. *)
Definition counts (p : Status.Property) (o : Obs) : bool :=
  match p, o with
  | Status.Pfires, Emitted (EvFire _) => true
  | Status.Psuccesses, Emitted EvSuccess => true
  | Status.Pfailures, Emitted (EvFailure _ _) => true
  | Status.Ptimeouts, Emitted (EvTimeout _ _) => true
  | Status.Prejects, Emitted (EvReject _) => true
  | _, _ => false
  end.

(** How often the event counted by [p] was emitted. *)
Definition occurrences (p : Status.Property) (obs : list Obs) : Z :=
  Z.of_nat (length (List.filter (counts p) obs)).

(** A bucket as the breaker leaves it: counters that are not negative, no
    more timeouts than failures and no more rejects than fires, and a
    boolean in the flag. *)
Record bucket_ok (bk : Status.StatusBucket) : Prop := mkBucketOk {
  ok_counters : forall p, 0 <= counter p bk;
  ok_timeouts : Status.timeouts bk <= Status.failures bk;
  ok_rejects : Status.rejects bk <= Status.fires bk;
  ok_flag : exists v, Status.isCircuitBreakerOpen bk = Status.FBool v
}.

Record Tally (b : t) : Prop := mkTally {
  tally_length : length (Status.WINDOW (STATUS b)) = 10%nat;
  tally_buckets : Forall bucket_ok (Status.WINDOW (STATUS b))
}.

(** Every timeout emitted is accompanied by a failure, every reject by a
    fire. *)
Definition paired (obs : list Obs) : Prop :=
  occurrences Status.Ptimeouts obs <= occurrences Status.Pfailures obs /\
  occurrences Status.Prejects obs <= occurrences Status.Pfires obs.

Definition is_rotate (i : Input) : bool :=
  match i with Rotate => true | _ => false end.

End BreakerEvents.

(** How the state, the timers and the calls of a breaker hang together. *)
Module BreakerWiring.
Import Js Common Types CircuitBreaker.

Record Wiring (b : t) : Prop := mkWiring {
  wr_open : STATE b = OPEN ->
    exists tid, RESET_TIMEOUT b = Some tid /\
                timers b !! tid = Some (ResetTimer (resetTimeout (options b)));
  wr_reset : forall tid d, timers b !! tid = Some (ResetTimer d) ->
    STATE b = OPEN /\ RESET_TIMEOUT b = Some tid;
  wr_handle : forall tid, RESET_TIMEOUT b = Some tid ->
    (tid < next_timer b)%nat /\
    forall id d, timers b !! tid <> Some (CallTimer id d);
  wr_pending_close : PENDING_CLOSE b = true -> STATE b = HALF_OPEN;
  wr_pending : forall id c, calls b !! id = Some c ->
    call_promise c = Pending ->
    call_awaiting c = true /\ call_timeoutError c = false /\
    match timeout_enabled (timeout (options b)) with
    | Some d => exists h, call_timeout c = Some h /\
                          timers b !! h = Some (CallTimer id d)
    | None => call_timeout c = None
    end;
  wr_awaiting : forall id c, calls b !! id = Some c ->
    call_awaiting c = true -> call_timeoutError c = false ->
    call_promise c = Pending
}.

End BreakerWiring.

Module Provenance.
Import Js Common Types CircuitBreaker.

(** How the promise of call [id] can have come to be settled as it is in
    [c'] after input [i] was handled in [b]: it was settled before, or the
    input is the action's promise being fulfilled or rejected, the action
    throwing, the call being fired on an open breaker, or the timeout of
    the call elapsing.  The last two reject with the errors [buildError]
    makes: an [Error] named "CircuitBreaker" whose message is the code,
    "EOPENBREAKER" or "ETIMEDOUT". *)
Definition settled_by (i : Input) (id : CallId) (b : t) (c' : Call) : Prop :=
  (exists c, calls b !! id = Some c /\ call_promise c <> Pending /\
             call_promise c' = call_promise c) \/
  (exists v, i = Settle id (Resolves v) /\ call_promise c' = Fulfilled v) \/
  (exists e, i = Settle id (Rejects e) /\ call_promise c' = Rejected e) \/
  (exists args e, i = Fire args (Throws e) /\ id = next_call b /\
                  opened b = false /\ call_promise c' = Rejected e) \/
  (exists args action, i = Fire args action /\ id = next_call b /\
                       opened b = true /\
                       call_promise c'
                       = Rejected (VError "CircuitBreaker" "EOPENBREAKER")) \/
  (exists tid d, i = Elapse tid /\
                 timers b !! tid = Some (CallTimer id d) /\
                 call_promise c'
                 = Rejected (VError "CircuitBreaker" "ETIMEDOUT")).

End Provenance.

Module Admission.
Import Js Common Types CircuitBreaker.

(** The argument lists the guarded action was invoked with, in order. *)
Definition invocations (obs : list Obs) : list (list JsValue) :=
  omap (fun o => match o with
                 | Invoked _ args => Some args
                 | Emitted _ => None
                 end) obs.

(** The calls of [argss] fired one after the other, each action returning
    a promise that stays unsettled. *)
Definition fire_all (argss : list (list JsValue)) : list Input :=
  map (fun args => Fire args ReturnsPromise) argss.

End Admission.

Module Progress.
Import Js Common Types CircuitBreaker.

(** The inputs the host can deliver to [b]: a settlement only for a call
    whose handlers are attached, an elapse only for a pending timer. *)
Definition enabled (i : Input) (b : t) : Prop :=
  match i with
  | Settle id _ =>
      exists c, calls b !! id = Some c /\ call_awaiting c = true
  | Elapse tid => exists k, timers b !! tid = Some k
  | Fire _ _ | Rotate | ManualClose | ManualOpen => True
  end.

End Progress.

(** Counting the promises handed out. *)
Module Accounting.
Import Js Common Types CircuitBreaker.

Definition is_fulfilled (c : Call) : bool :=
  match call_promise c with Fulfilled _ => true | _ => false end.

Definition is_rejected (c : Call) : bool :=
  match call_promise c with Rejected _ => true | _ => false end.

Definition is_pending (c : Call) : bool :=
  match call_promise c with Pending => true | _ => false end.

(** How many of the calls [0 .. n-1] satisfy [P]. *)
Fixpoint tally_calls (P : Call -> bool) (m : gmap CallId Call) (n : nat)
  : Z :=
  match n with
  | O => 0
  | S k => tally_calls P m k
           + match m !! k with
             | Some c => if P c then 1 else 0
             | None => 0
             end
  end.

(** How many of the promises handed out by [fire] satisfy [P]. *)
Definition count_calls (P : Call -> bool) (b : t) : Z :=
  tally_calls P (calls b) (next_call b).

Record Ledger (b : t) : Prop := mkLedger {
  ld_fires :
    Z.of_nat (next_call b) = BreakerEvents.occurrences Status.Pfires (log b);
  ld_fulfilled :
    count_calls is_fulfilled b
    = BreakerEvents.occurrences Status.Psuccesses (log b);
  ld_rejected :
    count_calls is_rejected b
    = BreakerEvents.occurrences Status.Pfailures (log b)
      + BreakerEvents.occurrences Status.Prejects (log b);
  ld_pending :
    count_calls is_pending b
    = BreakerEvents.occurrences Status.Pfires (log b)
      - BreakerEvents.occurrences Status.Psuccesses (log b)
      - BreakerEvents.occurrences Status.Pfailures (log b)
      - BreakerEvents.occurrences Status.Prejects (log b)
}.

End Accounting.

Module LoggerSpec.
Import Logger.

(** The messages of the [error] entries, in order. *)
Definition errors (es : list Entry) : list string :=
  omap (fun e => match e with Error msg => Some msg | Debug _ => None end) es.

(** The messages of all entries, in order, with the method each is written
    with. *)
Definition messages (es : list Entry) : list (Method * string) :=
  map (fun e => match e with
                | Debug msg => (ConsoleDebug, msg)
                | Error msg => (ConsoleError, msg)
                end) es.

End LoggerSpec.

Module LoggedStatusSpec.
Import LoggedStatus.

(** [bucket[property]]. *)
Definition counter (p : Property) (b : StatusBucket) : Z :=
  match p with
  | Pfailures => failures b
  | Psuccesses => successes b
  | Prejects => rejects b
  | Pfires => fires b
  | Ptimeouts => timeouts b
  end.

Definition same_property (p q : Property) : bool :=
  match p, q with
  | Pfailures, Pfailures | Psuccesses, Psuccesses | Prejects, Prejects
  | Pfires, Pfires | Ptimeouts, Ptimeouts => true
  | _, _ => false
  end.

(** How often [ops] increments counter [p]. *)
Definition increments (p : Property) (ops : list Op) : Z :=
  Z.of_nat (length (List.filter
                      (fun o => match o with
                                | Increment q => same_property p q
                                | NextBucket => false
                                end) ops)).

Definition is_rotation (o : Op) : bool :=
  match o with NextBucket => true | Increment _ => false end.

(** The sum of counter [p] over the buckets of a window. *)
Definition total (p : Property) (w : list StatusBucket) : Z :=
  fold_right (fun b acc => counter p b + acc) 0 w.

(** What one operation makes of the window. *)
Definition step_window (w : list StatusBucket) (o : Op)
  : list StatusBucket :=
  match o with
  | Increment p =>
      match w with
      | b :: rest => bump p b :: rest
      | [] => []
      end
  | NextBucket => bucket :: removelast w
  end.

Definition window_after (ops : list Op) (w : list StatusBucket)
  : list StatusBucket :=
  fold_left step_window ops w.

(** A line written by the logger of a [Status] at debug level. *)
Definition debug_line (ln : Logger.Method * string) : Prop :=
  fst ln = Logger.ConsoleDebug /\
  String.prefix "[Status::debug] " (snd ln) = true.

Definition nonneg (b : StatusBucket) : Prop :=
  0 <= failures b /\ 0 <= successes b /\ 0 <= rejects b /\
  0 <= fires b /\ 0 <= timeouts b.

End LoggedStatusSpec.


(** Further runs and windows on which the theorems are exercised. *)
Module Scenarios.
Import Js Common Types CircuitBreaker Samples.

(** Two failures in a row: with [two_failures] the breaker is open and
    its reset timer, timer 0, is pending. *)
Definition tripping : list Input :=
  [ Fire [] (Throws boom); Fire [] (Throws boom) ].

(** One call in flight: call 0, whose timeout is timer 0 when timeouts
    are enabled. *)
Definition in_flight : list Input :=
  [ Fire [VString "RESOLVE"] ReturnsPromise ].

(** A call that failed as it was invoked and a call in flight. *)
Definition one_failed_one_pending : list Input :=
  [ Fire [] (Throws boom); Fire [] ReturnsPromise ].

(** A window whose oldest bucket is the only one that has counted
    something. *)
Definition aged_status : Status.t :=
  Status.set_WINDOW
    (repeat Status.bucket 9
       ++ [Status.mkBucket 3 1 0 4 0 (Status.FBool false)])
    Status.new.

(** The breaker opens, stays open over a rotation, closes and opens
    again in the next bucket. *)
Definition flagging : list Status.Op :=
  [ Status.Open; Status.NextBucket; Status.Open; Status.Close;
    Status.NextBucket; Status.Open ].

End Scenarios.



(* ===================================================================== *)
(** * Facts about numbers and options                                     *)
(* ===================================================================== *)

Section NumberFacts.
Import Js.

Lemma int_this (z : Z) : this (Q2Qc (inject_Z z)) = inject_Z z.
Proof.
  cbn [this Q2Qc]. unfold inject_Z, Qred. cbn [Qnum Qden].
  pose proof (Z.ggcd_gcd z 1) as Hg.
  pose proof (Z.ggcd_correct_divisors z 1) as Hd.
  destruct (Z.ggcd z 1) as [g [a b]]. cbn [fst snd] in *.
  rewrite Z.gcd_1_r in Hg. subst g.
  destruct Hd as [Ha Hb].
  rewrite Z.mul_1_l in Ha, Hb. subst a.
  destruct b as [|p|p]; try discriminate.
  cbn. now inversion Hb.
Qed.

Lemma int_isInteger (z : Z) : Number_isInteger (int z) = true.
Proof. unfold Number_isInteger, int. now rewrite int_this. Qed.

Lemma int_truthy (z : Z) : truthy (int z) = negb (Z.eqb z 0).
Proof. unfold truthy, int. now rewrite int_this. Qed.


Lemma int_inj (a b : Z) : int a = int b -> a = b.
Proof.
  intros H.
  assert (Hq : inject_Z a = inject_Z b).
  { rewrite <- (int_this a), <- (int_this b). unfold int in H. congruence. }
  now injection Hq.
Qed.

(** A number accepted by [Number.isInteger] is an integer. *)
Lemma isInteger_int (n : JsNumber) :
  Number_isInteger n = true -> exists z, n = int z.
Proof.
  destruct n as [q| | |]; cbn [Number_isInteger]; try discriminate.
  intros H. apply Pos.eqb_eq in H.
  exists (Qnum (this q)). unfold int. f_equal.
  apply Qc_is_canon. rewrite int_this.
  destruct q as [[n d] Hc]. cbn in *. subst d. reflexivity.
Qed.

End NumberFacts.

(* ===================================================================== *)
(** * Facts about the statistics window                                   *)
(* ===================================================================== *)

Module StatusFacts.
Import Status StatusSpec.

Lemma fold_accumulate (f : StatusBucket -> Z) (w : list StatusBucket) :
  (forall a v, f (accumulate a v) = f a + f v) ->
  forall acc, f (fold_left accumulate w acc) = f acc + total f w.
Proof.
  intros Hf. unfold total.
  induction w as [|b w IH]; intros acc; cbn [fold_left foldr].
  - lia.
  - rewrite IH, Hf. lia.
Qed.

Lemma stats_total (f : StatusBucket -> Z) (s : t) :
  (forall a v, f (accumulate a v) = f a + f v) ->
  f bucket = 0 ->
  f (stats s) = total f (WINDOW s).
Proof.
  intros Hf H0. unfold stats. rewrite fold_accumulate by exact Hf.
  rewrite H0. apply Z.add_0_l.
Qed.

Lemma removelast_snoc (front : list StatusBucket) (oldest : StatusBucket) :
  removelast (front ++ [oldest]) = front.
Proof. apply removelast_last. Qed.

Lemma nextBucket_length (s : t) :
  WINDOW s <> [] -> length (WINDOW (nextBucket s)) = length (WINDOW s).
Proof.
  intros Hne. cbn. rewrite removelast_firstn_len, length_take.
  destruct (WINDOW s); [congruence | cbn; lia].
Qed.

Lemma run_op_length (o : Op) (s s' : t) :
  WINDOW s <> [] -> run_op o s = Some s' ->
  length (WINDOW s') = length (WINDOW s).
Proof.
  intros Hne H. destruct o; cbn in H;
    try (unfold increment, open, close, on_head in H;
         destruct (WINDOW s) eqn:E; [congruence|];
         injection H as <-; reflexivity).
  injection H as <-. now apply nextBucket_length.
Qed.

Lemma run_op_total (o : Op) (s : t) :
  WINDOW s <> [] -> exists s', run_op o s = Some s'.
Proof.
  intros Hne. destruct o; cbn; unfold increment, open, close, on_head;
    destruct (WINDOW s); try congruence; eauto.
Qed.

Lemma agree_all (r : nat) (s1 s2 : t) :
  agree r s1 s2 -> (length (WINDOW s1) <= r)%nat -> s1 = s2.
Proof.
  intros (Hb & Ht & Hi & Hl & Hw) Hr.
  rewrite !take_ge in Hw by lia.
  destruct s1, s2; cbn in *; congruence.
Qed.

Lemma agree_on_head (f : StatusBucket -> StatusBucket) r s1 s2 s1' :
  agree r s1 s2 -> on_head f s1 = Some s1' ->
  exists s2', on_head f s2 = Some s2' /\ agree r s1' s2'.
Proof.
  intros (Hb & Ht & Hi & Hl & Hw). unfold on_head.
  destruct (WINDOW s1) as [|b1 w1] eqn:E1; [discriminate|].
  destruct (WINDOW s2) as [|b2 w2] eqn:E2; [discriminate|].
  intros [= <-]. eexists; split; [reflexivity|].
  repeat split; cbn; try assumption.
  destruct r as [|r]; [reflexivity|]. cbn in Hw. cbn. congruence.
Qed.

Lemma agree_nextBucket r s1 s2 :
  agree r s1 s2 -> agree (S r) (nextBucket s1) (nextBucket s2).
Proof.
  intros (Hb & Ht & Hi & Hl & Hw).
  repeat split; cbn; try assumption.
  - rewrite !removelast_firstn_len, !length_take. lia.
  - f_equal. rewrite !removelast_firstn_len, !take_take, <- Hl.
    rewrite Nat.min_comm.
    rewrite <- (take_take (WINDOW s1)), <- (take_take (WINDOW s2)).
    now rewrite Hw.
Qed.

Lemma agree_run (ops : list Op) :
  forall r s1 s2 s1',
    agree r s1 s2 -> run ops s1 = Some s1' ->
    exists s2', run ops s2 = Some s2' /\ agree (r + rotations ops) s1' s2'.
Proof.
  induction ops as [|o ops IH]; intros r s1 s2 s1' Ha Hrun; cbn in Hrun.
  - injection Hrun as <-. exists s2. split; [reflexivity|].
    unfold rotations. cbn. now rewrite Nat.add_0_r.
  - destruct (run_op o s1) as [m1|] eqn:E1; [|discriminate].
    assert (Hstep : exists m2 k, run_op o s2 = Some m2 /\ agree (r + k) m1 m2
               /\ rotations (o :: ops) = (k + rotations ops)%nat).
    { destruct o; cbn in E1.
      - destruct (agree_on_head _ _ _ _ _ Ha E1) as (m2 & H2 & Ha').
        exists m2, 0%nat. rewrite Nat.add_0_r. auto.
      - destruct (agree_on_head _ _ _ _ _ Ha E1) as (m2 & H2 & Ha').
        exists m2, 0%nat. rewrite Nat.add_0_r. auto.
      - destruct (agree_on_head _ _ _ _ _ Ha E1) as (m2 & H2 & Ha').
        exists m2, 0%nat. rewrite Nat.add_0_r. auto.
      - injection E1 as <-. exists (nextBucket s2), 1%nat.
        split; [reflexivity|]. split; [|reflexivity].
        rewrite Nat.add_1_r. now apply agree_nextBucket. }
    destruct Hstep as (m2 & k & H2 & Ha' & Hk).
    destruct (IH _ _ _ _ Ha' Hrun) as (s2' & Hrun2 & Hfin).
    exists s2'. split.
    + cbn. now rewrite H2.
    + rewrite Hk. now replace (r + (k + rotations ops))%nat
        with (r + k + rotations ops)%nat by lia.
Qed.

Lemma run_total (ops : list Op) :
  forall s, WINDOW s <> [] ->
    exists s', run ops s = Some s' /\
               length (WINDOW s') = length (WINDOW s).
Proof.
  induction ops as [|o ops IH]; intros s Hne; cbn.
  - eauto.
  - destruct (run_op_total o s Hne) as (m & Hm). rewrite Hm.
    pose proof (run_op_length _ _ _ Hne Hm) as Hl.
    destruct (IH m) as (s' & Hs' & Hl').
    + intros E. rewrite E in Hl. destruct (WINDOW s); [congruence|].
      discriminate.
    + exists s'. split; [assumption | congruence].
Qed.

Lemma agree_forget (s : t) : agree 0 s (forget s).
Proof. repeat split; cbn. now rewrite repeat_length. Qed.

(** Every reachable window of a fresh [Status] has its ten buckets. *)
Lemma new_window_length : length (WINDOW new) = 10%nat.
Proof. reflexivity. Qed.

End StatusFacts.

(* ===================================================================== *)
(** * Symbolic execution of the methods                                   *)
(* ===================================================================== *)

Module Wp.
Import Js Common Types CircuitBreaker BreakerSpec.
Local Open Scope breaker_scope.

Lemma wp_elim {A} (m : M A) Q b a b' :
  wp m Q b -> m b = Some (a, b') -> Q a b'.
Proof.
  intros (a0 & b0 & E & HQ) H. rewrite E in H. now injection H as <- <-.
Qed.

Lemma wp_mono {A} (m : M A) (Q Q' : A -> t -> Prop) b :
  wp m Q b -> (forall a b', Q a b' -> Q' a b') -> wp m Q' b.
Proof. intros (a & b' & E & HQ) H. exists a, b'. auto. Qed.

Lemma wp_ret {A} (a : A) Q b : Q a b -> wp (ret a) Q b.
Proof. intros H. now exists a, b. Qed.

Lemma wp_bind {A B} (m : M A) (k : A -> M B) Q b :
  wp m (fun a b' => wp (k a) Q b') b -> wp (bind m k) Q b.
Proof.
  intros (a & b1 & E & (c & b2 & E' & HQ)). exists c, b2.
  unfold bind. rewrite E. auto.
Qed.

Lemma wp_gets {A} (f : t -> A) Q b : Q (f b) b -> wp (gets f) Q b.
Proof. intros H. now exists (f b), b. Qed.

Lemma wp_modify (f : t -> t) Q b : Q tt (f b) -> wp (modify f) Q b.
Proof. intros H. now exists tt, (f b). Qed.

Lemma wp_observe o Q b :
  Q tt (set_log (log b ++ [o]) b) -> wp (observe o) Q b.
Proof. apply wp_modify. Qed.

Lemma wp_setTimeout k Q b :
  Q (next_timer b)
    (set_next_timer (S (next_timer b))
       (set_timers (<[next_timer b := k]> (timers b)) b)) ->
  wp (setTimeout k) Q b.
Proof. intros H. eexists _, _. split; [reflexivity | exact H]. Qed.

Lemma wp_clearTimeout_Some id Q b :
  Q tt (set_timers (delete id (timers b)) b) ->
  wp (clearTimeout (Some id)) Q b.
Proof. apply wp_modify. Qed.

Lemma wp_clearTimeout_None Q b : Q tt b -> wp (clearTimeout None) Q b.
Proof. apply wp_ret. Qed.

Lemma wp_update_call id f Q b :
  Q tt (set_calls (alter f id (calls b)) b) -> wp (update_call id f) Q b.
Proof. apply wp_modify. Qed.

Lemma wp_new_call c Q b :
  Q (next_call b)
    (set_next_call (S (next_call b))
       (set_calls (<[next_call b := c]> (calls b)) b)) ->
  wp (new_call c) Q b.
Proof. intros H. eexists _, _. split; [reflexivity | exact H]. Qed.

Lemma wp_on_head f Q b hd rest :
  Status.WINDOW (STATUS b) = hd :: rest ->
  Q tt (set_STATUS (Status.set_WINDOW (f hd :: rest) (STATUS b)) b) ->
  wp (on_status (Status.on_head f)) Q b.
Proof.
  intros Hw H. exists tt. eexists. split; [|exact H].
  unfold on_status, Status.on_head. now rewrite Hw.
Qed.


Ltac proj :=
  unfold closed, halfOpen, opened, stats;
  cbn [options STATE PENDING_CLOSE STATUS RESET_TIMEOUT timers next_timer
       calls next_call log set_STATE set_PENDING_CLOSE set_STATUS
       set_RESET_TIMEOUT set_timers set_next_timer set_calls set_next_call
       set_log Status.WINDOW Status.BUCKETS Status.TIMEOUT
       Status.BUCKET_INTERVAL Status.set_WINDOW
       state_eqb negb andb orb].

Ltac proj_in H :=
  unfold closed, halfOpen, opened, stats in H;
  cbn [options STATE PENDING_CLOSE STATUS RESET_TIMEOUT timers next_timer
       calls next_call log set_STATE set_PENDING_CLOSE set_STATUS
       set_RESET_TIMEOUT set_timers set_next_timer set_calls set_next_call
       set_log Status.WINDOW Status.BUCKETS Status.TIMEOUT
       Status.BUCKET_INTERVAL Status.set_WINDOW
       state_eqb negb andb orb] in H.

Ltac head_of m :=
  lazymatch m with
  | ?f _ => head_of f
  | _ => m
  end.

(** One step of symbolic execution of a method. *)
Ltac wp_step :=
  lazymatch goal with
  | |- wp (bind _ _) _ _ => apply wp_bind
  | |- wp (ret _) _ _ => apply wp_ret
  | |- wp (gets _) _ _ => apply wp_gets
  | |- wp (modify _) _ _ => apply wp_modify
  | |- wp (observe _) _ _ => apply wp_observe
  | |- wp (setTimeout _) _ _ => apply wp_setTimeout
  | |- wp (clearTimeout (Some _)) _ _ => apply wp_clearTimeout_Some
  | |- wp (clearTimeout None) _ _ => apply wp_clearTimeout_None
  | |- wp (clearTimeout ?h) _ _ => destruct h eqn:?
  | |- wp (update_call _ _) _ _ => apply wp_update_call
  | |- wp (resolve _ _) _ _ => apply wp_update_call
  | |- wp (reject _ _) _ _ => apply wp_update_call
  | |- wp (new_call _) _ _ => apply wp_new_call
  | |- wp (on_status (Status.increment _)) _ _ =>
      eapply wp_on_head; [proj; reflexivity|]
  | |- wp (on_status Status.open) _ _ => eapply wp_on_head; [proj; reflexivity|]
  | |- wp (on_status Status.close) _ _ => eapply wp_on_head; [proj; reflexivity|]
  | |- wp (if ?c then _ else _) _ _ =>
      lazymatch c with
      | true => idtac
      | false => idtac
      | negb ?x => destruct x eqn:?
      | _ => destruct c eqn:?
      end
  | |- wp (match ?x with Some _ => _ | None => _ end) _ _ =>
      destruct x eqn:?
  | |- wp ?m _ _ =>
      let h := head_of m in unfold h
  end; cbv beta; proj.

Ltac wp_run := repeat wp_step.

Lemma wp_fmap_elim {A} (m : M A) (P : t -> Prop) b b' :
  wp m (fun _ b1 => P b1) b -> snd <$> m b = Some b' -> P b'.
Proof.
  intros Hwp H. destruct (m b) as [[a b1]|] eqn:E; [|discriminate].
  injection H as <-. exact (wp_elim _ _ _ _ _ Hwp E).
Qed.

(** Turn a goal about the outcome [b'] of running a method, known to
    return by [H], into the symbolic execution of the method. *)
Ltac by_wp H :=
  lazymatch type of H with
  | snd <$> ?m ?b = Some ?b' =>
      pattern b';
      lazymatch goal with
      | |- ?P b' => refine (wp_fmap_elim m P b b' _ H); clear H; cbv beta
      end
  end.

Lemma exec_Settle_inv id s b b' :
  exec (Settle id s) b = Some b' ->
  exists c, calls b !! id = Some c /\ call_awaiting c = true /\
    snd <$> match s with
            | Resolves v => on_fulfilled id c v
            | Rejects e => on_rejected id c e
            end b = Some b'.
Proof.
  unfold exec. destruct (calls b !! id) as [c|]; [|discriminate].
  destruct (call_awaiting c) eqn:E; [|discriminate].
  intros H. exists c. repeat split; try assumption. now destruct s.
Qed.

Lemma exec_Elapse_inv tid b b' :
  exec (Elapse tid) b = Some b' ->
  (exists d, timers b !! tid = Some (ResetTimer d) /\
     snd <$> on_reset (set_timers (delete tid (timers b)) b) = Some b') \/
  (exists id d c, timers b !! tid = Some (CallTimer id d) /\
     calls b !! id = Some c /\
     snd <$> on_timeout id c (set_timers (delete tid (timers b)) b)
       = Some b').
Proof.
  unfold exec. destruct (timers b !! tid) as [[d|id d]|]; [| |discriminate].
  - intros H. left. eauto.
  - cbn [run_timer]. cbn [calls set_timers].
    destruct (calls b !! id) as [c|] eqn:E; [|discriminate].
    intros H. right. eauto 10.
Qed.

End Wp.

(* ===================================================================== *)
(** * Invariants of the breaker                                           *)
(* ===================================================================== *)

Module BreakerInvariants.
Import Js Common Types CircuitBreaker BreakerSpec Wp.

Ltac lookups :=
  repeat match goal with
  | H : _ !! _ = Some _ |- _ =>
      first [ rewrite lookup_insert_Some in H
            | rewrite lookup_delete_Some in H
            | rewrite lookup_alter_Some in H ]
  | H : _ /\ _ |- _ => destruct H
  | H : _ \/ _ |- _ => destruct H
  | H : exists _, _ |- _ => destruct H
  end.

Ltac open_breaker b :=
  let o := fresh "o" in let st := fresh "st" in let pc := fresh "pc" in
  let B := fresh "B" in let T := fresh "T" in let W := fresh "W" in
  let I := fresh "I" in let rt := fresh "rt" in let tm := fresh "tm" in
  let nt := fresh "nt" in let cs := fresh "cs" in let nc := fresh "nc" in
  let lg := fresh "lg" in
  destruct b as [o st pc [B T W I] rt tm nt cs nc lg];
  cbn [options STATE PENDING_CLOSE STATUS RESET_TIMEOUT timers next_timer
       calls next_call log Status.WINDOW] in *.

Lemma new_Inv (o : CircuitBreakerOptions) (b : t) :
  new true o = Some b -> Inv b.
Proof.
  intros [= <-]. split; cbn; try discriminate; try contradiction;
    intros *; rewrite lookup_empty; discriminate.
Qed.

Ltac in_log H :=
  repeat (rewrite in_app_iff in H; cbn in H);
  repeat match type of H with
         | _ \/ _ => destruct H as [H|H]
         end; try discriminate; try contradiction.

Ltac inv_goals :=
  split; cbn;
  [ discriminate
  | intros ?tid ?k ?Hl
  | intros ?id ?c ?Hl
  | intros ?id ?c ?h ?Hl ?Hh
  | intros ?id ?a ?Hin
  | intros ?tid ?id ?d ?Hl ].


Lemma settle_args p c : call_args (settle p c) = call_args c.
Proof. unfold settle. now destruct (call_promise c). Qed.
Lemma settle_timeout p c : call_timeout (settle p c) = call_timeout c.
Proof. unfold settle. now destruct (call_promise c). Qed.
Lemma settle_timeoutError p c :
  call_timeoutError (settle p c) = call_timeoutError c.
Proof. unfold settle. now destruct (call_promise c). Qed.
Lemma settle_awaiting p c : call_awaiting (settle p c) = call_awaiting c.
Proof. unfold settle. now destruct (call_promise c). Qed.
Lemma settle_pending p c :
  call_promise c = Pending -> call_promise (settle p c) = p.
Proof. unfold settle. now intros ->. Qed.
Lemma settle_settled p c :
  call_promise c <> Pending -> settle p c = c.
Proof. unfold settle. now destruct (call_promise c). Qed.

Ltac settle_simpl :=
  rewrite ?settle_args, ?settle_timeout, ?settle_timeoutError,
    ?settle_awaiting in *;
  cbn [call_args call_timeout call_timeoutError call_promise call_awaiting
       detach] in *.

(** Bounds on identifiers from the hypotheses of an invariant. *)
Ltac bounds :=
  repeat match goal with
  | Hf : (forall tid k, ?m !! tid = Some k -> (tid < _)%nat),
    H : ?m !! ?x = Some _ |- _ =>
      lazymatch goal with
      | _ : (x < _)%nat |- _ => fail
      | _ => pose proof (Hf _ _ H)
      end
  end.

Ltac old_timer Hct :=
  match goal with
  | H : _ !! _ = Some (CallTimer _ _) |- _ =>
      let c0 := fresh "c0" in let Hc0 := fresh "Hc0" in
      destruct (Hct _ _ _ H) as (c0 & Hc0 & ? & ? & ? & ?);
      bounds;
      exists c0; split;
      [ rewrite ?lookup_alter_ne, ?lookup_insert_ne by lia; exact Hc0
      | auto ]
  end.

Ltac new_timer :=
  eexists; split;
  [ rewrite ?lookup_alter_eq, ?lookup_insert_eq; cbn; reflexivity
  | cbn; auto ].

Ltac solve_easy Hhf Hif :=
  try (match goal with
       | Hin : In (Invoked _ _) _ |- _ =>
           in_log Hin; simplify_eq; try lia; apply Hif in Hin; lia
       end);
  lookups; simplify_eq; settle_simpl; simplify_eq; bounds; try lia;
  try (match goal with
       | H : call_timeout _ = Some _ |- _ =>
           eapply Hhf in H; [lia | eassumption]
       end).

(** A call timer that is still pending after call [id] was handled belongs
    to another call. *)
Ltac other_call Hct id :=
  match goal with
  | H : _ !! _ = Some (CallTimer ?id0 _) |- _ =>
      let c0 := fresh "c0" in let Hc0 := fresh "Hc0" in
      let Hne := fresh "Hne" in
      destruct (Hct _ _ _ H) as (c0 & Hc0 & ? & ? & ? & ?);
      destruct (decide (id0 = id)) as [->|Hne];
      [ simplify_eq; congruence
      | exists c0; split;
        [ rewrite ?lookup_alter_ne by done; exact Hc0 | auto ] ]
  end.

Ltac inv_leaf Hhf Hif Hct :=
  inv_goals; solve_easy Hhf Hif;
  first [ old_timer Hct | new_timer ].

Lemma exec_Inv (i : Input) (b b' : t) :
  Inv b -> exec i b = Some b' -> Inv b'.
Proof.
  intros [Hw Htf Hcf Hhf Hif Hct] H.
  destruct i as [args action|id s|tid| | |].
  - (* fire *)
    unfold exec in H. open_breaker b.
    destruct W as [|hd rest]; [congruence|]. clear Hw.
    by_wp H. destruct st, action; wp_run.
    all: inv_leaf Hhf Hif Hct.
  - (* an action promise settles *)
    apply exec_Settle_inv in H. destruct H as (c & Hc & Haw & H).
    open_breaker b.
    destruct W as [|hd rest]; [congruence|]. clear Hw.
    by_wp H. destruct st, s; wp_run.
    all: inv_goals; solve_easy Hhf Hif.
    all: other_call Hct id.
  - (* a timer elapses *)
    apply exec_Elapse_inv in H.
    destruct H as [(d & Htid & H)|(id & d & c & Htid & Hc & H)].
    + open_breaker b.
      destruct W as [|hd rest]; [congruence|]. clear Hw.
      by_wp H. wp_run. inv_goals; solve_easy Hhf Hif. old_timer Hct.
    + destruct (Hct _ _ _ Htid) as (c0 & Hc0 & Hh & Hte & Hp & Haw).
      assert (c0 = c) as -> by congruence. clear Hc0.
      open_breaker b.
      destruct W as [|hd rest]; [congruence|]. clear Hw.
      by_wp H. destruct st; wp_run.
      all: inv_goals; solve_easy Hhf Hif.
      all: other_call Hct id.
  - (* the rotation interval ticks *)
    open_breaker b. destruct W as [|hd rest]; [congruence|]. clear Hw.
    cbn in H. injection H as <-.
    inv_goals; solve_easy Hhf Hif. old_timer Hct.
  - (* close() *)
    unfold exec in H. open_breaker b.
    destruct W as [|hd rest]; [congruence|]. clear Hw.
    by_wp H. destruct st; wp_run.
    all: inv_leaf Hhf Hif Hct.
  - (* open() *)
    unfold exec in H. open_breaker b.
    destruct W as [|hd rest]; [congruence|]. clear Hw.
    by_wp H. destruct st; wp_run.
    all: inv_leaf Hhf Hif Hct.
Qed.

Lemma run_Inv (trace : list Input) :
  forall b b', Inv b -> run trace b = Some b' -> Inv b'.
Proof.
  induction trace as [|i trace IH]; intros b b' Hb H; cbn in H.
  - now injection H as <-.
  - destruct (exec i b) as [b1|] eqn:E; [|discriminate].
    eapply IH; [|exact H]. eapply exec_Inv; eassumption.
Qed.

Lemma reachable_Inv (o : CircuitBreakerOptions) (b : t) :
  reachable o b -> Inv b.
Proof.
  intros (b0 & trace & Hnew & Hrun).
  eapply run_Inv; [|exact Hrun]. eapply new_Inv; eassumption.
Qed.

End BreakerInvariants.

(* ===================================================================== *)
(** * How a breaker evolves along a trace                                 *)
(* ===================================================================== *)

Module BreakerTraces.
Import Js Common Types CircuitBreaker BreakerSpec Wp BreakerInvariants.

Lemma evolves_refl b : evolves b b.
Proof. split; eauto. Qed.

Lemma evolves_trans b1 b2 b3 :
  evolves b1 b2 -> evolves b2 b3 -> evolves b1 b3.
Proof.
  intros [Ho Hn Ht Hc] [Ho' Hn' Ht' Hc']. split.
  - congruence.
  - lia.
  - intros tid Hlt Hnone. apply Ht'; [lia|]. now apply Ht.
  - intros id c Hl.
    destruct (Hc _ _ Hl) as (c1 & Hl1 & Ha1 & He1 & Hp1).
    destruct (Hc' _ _ Hl1) as (c2 & Hl2 & Ha2 & He2 & Hp2).
    exists c2. repeat split; try congruence; auto.
    intros Hp. rewrite Hp2; [auto|]. rewrite Hp1; auto.
Qed.

Ltac ev_goals :=
  split; cbn;
  [ reflexivity
  | lia
  | intros ?tid ?Hlt ?Hnone
  | intros ?id0 ?c0 ?Hl ].

Ltac absent :=
  repeat first [ rewrite lookup_insert_ne by lia
               | apply lookup_delete_None; right ];
  assumption.

Ltac present Hcf :=
  match goal with
  | Hl : _ !! ?id0 = Some ?c0 |- exists c', _ !! ?id0 = Some c' /\ _ =>
      pose proof (Hcf _ _ Hl);
      rewrite ?lookup_alter, ?lookup_insert;
      repeat case_decide; subst; try lia;
      rewrite ?Hl; cbn;
      (eexists; split; [reflexivity|]);
      settle_simpl; repeat split; auto; try congruence;
      try (intros ?Hp; rewrite ?settle_settled by assumption; auto)
  end.

Lemma exec_evolves (i : Input) (b b' : t) :
  Inv b -> exec i b = Some b' -> evolves b b'.
Proof.
  intros [Hw Htf Hcf Hhf Hif Hct] H.
  destruct i as [args action|id s|tid| | |].
  - unfold exec in H. open_breaker b.
    destruct W as [|hd rest]; [congruence|]. clear Hw.
    by_wp H. destruct st, action; wp_run.
    all: ev_goals; [absent | present Hcf].
  - apply exec_Settle_inv in H. destruct H as (c & Hc & Haw & H).
    open_breaker b.
    destruct W as [|hd rest]; [congruence|]. clear Hw.
    by_wp H. destruct st, s; wp_run.
    all: ev_goals; [absent | present Hcf].
  - apply exec_Elapse_inv in H.
    destruct H as [(d & Htid & H)|(id & d & c & Htid & Hc & H)].
    + open_breaker b.
      destruct W as [|hd rest]; [congruence|]. clear Hw.
      by_wp H. wp_run. ev_goals; [absent | present Hcf].
    + open_breaker b.
      destruct W as [|hd rest]; [congruence|]. clear Hw.
      by_wp H. destruct st; wp_run.
      all: ev_goals; [absent | present Hcf].
  - open_breaker b. cbn in H. injection H as <-.
    ev_goals; [absent | present Hcf].
  - unfold exec in H. open_breaker b.
    destruct W as [|hd rest]; [congruence|]. clear Hw.
    by_wp H. destruct st; wp_run.
    all: ev_goals; [absent | present Hcf].
  - unfold exec in H. open_breaker b.
    destruct W as [|hd rest]; [congruence|]. clear Hw.
    by_wp H. destruct st; wp_run.
    all: ev_goals; [absent | present Hcf].
Qed.

Lemma run_evolves (trace : list Input) :
  forall b b', Inv b -> run trace b = Some b' -> evolves b b'.
Proof.
  induction trace as [|i trace IH]; intros b b' Hb H; cbn in H.
  - injection H as <-. apply evolves_refl.
  - destruct (exec i b) as [b1|] eqn:E; [|discriminate].
    eapply evolves_trans.
    + eapply exec_evolves; eassumption.
    + eapply IH; [|exact H]. eapply exec_Inv; eassumption.
Qed.


(** ** Breakers whose timeout is disabled *)

Ltac nt_goals :=
  split; cbn;
  [ intros ?tid ?id0 ?d0 ?Hl
  | intros ?e0 ?a0 ?Hin
  | intros ?id0 ?c0 ?Hl ].

Ltac nt_leaf Hjt Hjl Hjc Hcf :=
  nt_goals;
  [ lookups; simplify_eq; eapply Hjt; eassumption
  | match goal with
    | Hin : In _ _ |- _ => in_log Hin; eapply Hjl; eassumption
    end
  | lookups; simplify_eq; settle_simpl;
    try match goal with
        | H : _ !! _ = Some _ |- _ =>
            let H1 := fresh in let H2 := fresh in
            destruct (Hjc _ _ H) as [H1 H2]; rewrite ?H1, ?H2
        end;
    auto ].

Lemma exec_NoTimeouts (i : Input) (b b' : t) :
  Inv b -> timeout_enabled (timeout (options b)) = None ->
  NoTimeouts b -> exec i b = Some b' -> NoTimeouts b'.
Proof.
  intros [Hw Htf Hcf Hhf Hif Hct] Hdis [Hjt Hjl Hjc] H.
  destruct i as [args action|id s|tid| | |].
  - unfold exec in H. open_breaker b.
    destruct W as [|hd rest]; [congruence|]. clear Hw.
    by_wp H. destruct st, action; wp_run.
    all: try congruence.
    all: nt_leaf Hjt Hjl Hjc Hcf.
  - apply exec_Settle_inv in H. destruct H as (c & Hc & Haw & H).
    destruct (Hjc _ _ Hc) as [Hto Hte].
    open_breaker b.
    destruct W as [|hd rest]; [congruence|]. clear Hw.
    by_wp H. destruct st, s; wp_run.
    all: try congruence.
    all: nt_leaf Hjt Hjl Hjc Hcf.
  - apply exec_Elapse_inv in H.
    destruct H as [(d & Htid & H)|(id & d & c & Htid & Hc & H)].
    + open_breaker b.
      destruct W as [|hd rest]; [congruence|]. clear Hw.
      by_wp H. wp_run. nt_leaf Hjt Hjl Hjc Hcf.
    + now apply Hjt in Htid.
  - open_breaker b. cbn in H. injection H as <-.
    nt_leaf Hjt Hjl Hjc Hcf.
  - unfold exec in H. open_breaker b.
    destruct W as [|hd rest]; [congruence|]. clear Hw.
    by_wp H. destruct st; wp_run.
    all: nt_leaf Hjt Hjl Hjc Hcf.
  - unfold exec in H. open_breaker b.
    destruct W as [|hd rest]; [congruence|]. clear Hw.
    by_wp H. destruct st; wp_run.
    all: nt_leaf Hjt Hjl Hjc Hcf.
Qed.


Lemma settle_promise_cases p c :
  (call_promise c = Pending /\ call_promise (settle p c) = p) \/
  (call_promise c <> Pending /\
   call_promise (settle p c) = call_promise c).
Proof.
  unfold settle. destruct (call_promise c) eqn:E; cbn; rewrite ?E; auto;
    right; split; congruence.
Qed.

Ltac outcome_leaf Hif :=
  cbn; intros ?Hin ?Hl ?Hp;
  lookups; simplify_eq; settle_simpl;
  try (match goal with
       | Hin : In (Invoked _ _) _ |- _ =>
           in_log Hin; simplify_eq; apply Hif in Hin; lia
       end);
  try (left; eexists; split; [eassumption|reflexivity]);
  try (match goal with
       | |- context [call_promise (settle ?p ?y)] =>
           destruct (settle_promise_cases p y) as [[? ->]|[? ->]];
           cbn [detach call_promise] in *
       end);
  try congruence;
  try (left; eexists; split; [eassumption|congruence]);
  try (right; left; eexists; split; reflexivity);
  try (right; right; left; eexists; split; reflexivity);
  try (right; right; right; eexists _, _; split; reflexivity).

Lemma exec_outcome (i : Input) (b b' : t) (id : CallId) a (c' : Call) :
  Inv b -> NoTimeouts b -> exec i b = Some b' ->
  In (Invoked id a) (log b') -> calls b' !! id = Some c' ->
  call_promise c' <> Pending -> settled_by_action i id b c'.
Proof.
  intros [Hw Htf Hcf Hhf Hif Hct] [Hjt Hjl Hjc] H.
  unfold settled_by_action.
  destruct i as [args action|id1 s|tid| | |].
  - unfold exec in H. open_breaker b.
    destruct W as [|hd rest]; [congruence|]. clear Hw.
    by_wp H. destruct st, action; wp_run.
    all: outcome_leaf Hif.
  - apply exec_Settle_inv in H. destruct H as (c & Hc & Haw & H).
    destruct (Hjc _ _ Hc) as [Hto Hte].
    open_breaker b.
    destruct W as [|hd rest]; [congruence|]. clear Hw.
    by_wp H. destruct st, s; wp_run.
    all: try congruence.
    all: outcome_leaf Hif.
  - apply exec_Elapse_inv in H.
    destruct H as [(d & Htid & H)|(id0 & d & c & Htid & Hc & H)].
    + open_breaker b.
      destruct W as [|hd rest]; [congruence|]. clear Hw.
      by_wp H. wp_run. outcome_leaf Hif.
    + now apply Hjt in Htid.
  - open_breaker b. cbn in H. injection H as <-.
    outcome_leaf Hif.
  - unfold exec in H. open_breaker b.
    destruct W as [|hd rest]; [congruence|]. clear Hw.
    by_wp H. destruct st; wp_run.
    all: outcome_leaf Hif.
  - unfold exec in H. open_breaker b.
    destruct W as [|hd rest]; [congruence|]. clear Hw.
    by_wp H. destruct st; wp_run.
    all: outcome_leaf Hif.
Qed.

End BreakerTraces.

(* ===================================================================== *)
(** * The statistics window: the [stats] getter and rotation              *)
(* ===================================================================== *)

Module StatsClaims.
Import Status StatusSpec StatusFacts.

Lemma stats_failures s : failures (stats s) = total failures (WINDOW s).
Proof. now apply stats_total. Qed.
Lemma stats_successes s : successes (stats s) = total successes (WINDOW s).
Proof. now apply stats_total. Qed.
Lemma stats_rejects s : rejects (stats s) = total rejects (WINDOW s).
Proof. now apply stats_total. Qed.
Lemma stats_fires s : fires (stats s) = total fires (WINDOW s).
Proof. now apply stats_total. Qed.
Lemma stats_timeouts s : timeouts (stats s) = total timeouts (WINDOW s).
Proof. now apply stats_total. Qed.

End StatsClaims.

(** C6.  Reading [stats] returns, for each of the five counters, the sum of
    that counter over the buckets of the window, and leaves the [Status]
    object as it was.  A rotation drops the oldest (last) bucket and puts a
    fresh zeroed bucket at the head, so the window keeps its length.  After
    at least as many rotations as the window has buckets, whatever else was
    recorded in between, the [Status] is the one that would have been
    obtained from a window holding no counts at all: everything recorded
    before those rotations is excluded. *)
Theorem C6_stats_rolling_window
    (s : Status.t) (front : list Status.StatusBucket)
    (oldest : Status.StatusBucket) (ops : list Status.Op) :
  Status.WINDOW s = front ++ [oldest] ->
  (length (Status.WINDOW s) <= Status.rotations ops)%nat ->
  (Status.failures (Status.stats s)
     = StatusSpec.total Status.failures (Status.WINDOW s) /\
   Status.successes (Status.stats s)
     = StatusSpec.total Status.successes (Status.WINDOW s) /\
   Status.rejects (Status.stats s)
     = StatusSpec.total Status.rejects (Status.WINDOW s) /\
   Status.fires (Status.stats s)
     = StatusSpec.total Status.fires (Status.WINDOW s) /\
   Status.timeouts (Status.stats s)
     = StatusSpec.total Status.timeouts (Status.WINDOW s)) /\
  Status.get_stats s = (Status.stats s, s) /\
  Status.WINDOW (Status.nextBucket s) = Status.bucket :: front /\
  length (Status.WINDOW (Status.nextBucket s)) = length (Status.WINDOW s) /\
  exists s',
    Status.run ops s = Some s' /\
    length (Status.WINDOW s') = length (Status.WINDOW s) /\
    Status.run ops (StatusSpec.forget s) = Some s'.
Proof.
  intros Hw Hrot.
  assert (Hne : Status.WINDOW s <> []).
  { rewrite Hw. intros E. apply app_eq_nil in E. destruct E; discriminate. }
  split; [|split; [|split; [|split]]].
  - repeat split.
    + apply StatsClaims.stats_failures.
    + apply StatsClaims.stats_successes.
    + apply StatsClaims.stats_rejects.
    + apply StatsClaims.stats_fires.
    + apply StatsClaims.stats_timeouts.
  - reflexivity.
  - cbn. rewrite Hw. f_equal. apply StatusFacts.removelast_snoc.
  - now apply StatusFacts.nextBucket_length.
  - destruct (StatusFacts.run_total ops s Hne) as (s' & Hrun & Hlen).
    exists s'. split; [exact Hrun|]. split; [exact Hlen|].
    destruct (StatusFacts.agree_run ops 0 s (StatusSpec.forget s) s'
                (StatusFacts.agree_forget s) Hrun) as (s2 & Hrun2 & Hag).
    rewrite Hrun2. f_equal. symmetry.
    apply (StatusFacts.agree_all _ _ _ Hag). cbn. lia.
Qed.

(* ===================================================================== *)
(** * Construction: the effective options                                 *)
(* ===================================================================== *)

Section OptionClaims.
Import Js Types CircuitBreaker Samples.

(** C8.  For a breaker constructed without a [resetTimeout] option the
    constructor stores 30000, not the documented 10000, and that is the
    delay handed to the reset timer when the breaker opens. *)
Theorem C8_default_resetTimeout_is_30000 :
  resetTimeout (populate no_options) = Some (int 30000) /\
  resetTimeout (populate no_options) <> Some (int 10000) /\
  exists b0 b1,
    new true no_options = Some b0 /\
    exec ManualOpen b0 = Some b1 /\
    timers b1 !! 0%nat = Some (ResetTimer (Some (int 30000))).
Proof.
  split; [reflexivity|]. split.
  - intros H. change (Some (int 30000) = Some (int 10000)) in H.
    assert (E : int 30000 = int 10000) by congruence.
    apply int_inj in E. discriminate.
  - eexists _, _. split; [reflexivity|]. split; [reflexivity|].
    reflexivity.
Qed.

(** C9, as amended.  At construction a [timeout] of 0 (or NaN, or none) is
    replaced by 10000 while [false] and every other number are kept; a
    [resetTimeout] of 0 (or NaN, or none) is replaced by the default of the
    constructor (the 30000 of C8) and every other number is kept; a
    [maxFailures] that is not an integer (or is missing) is replaced by 10
    while every integer, 0 included, is kept. *)
Theorem C9_populate_defaults (o : CircuitBreakerOptions) :
  (timeout o = Some TFalse -> timeout (populate o) = Some TFalse) /\
  (forall n, timeout o = Some (TNumber n) -> truthy n = false ->
             timeout (populate o) = Some (TNumber (int 10000))) /\
  (forall n, timeout o = Some (TNumber n) -> truthy n = true ->
             timeout (populate o) = Some (TNumber n)) /\
  (timeout o = None -> timeout (populate o) = Some (TNumber (int 10000))) /\
  (forall n, resetTimeout o = Some n -> truthy n = false ->
             resetTimeout (populate o) = Some (int 30000)) /\
  (forall n, resetTimeout o = Some n -> truthy n = true ->
             resetTimeout (populate o) = Some n) /\
  (resetTimeout o = None -> resetTimeout (populate o) = Some (int 30000)) /\
  (forall n, maxFailures o = Some n -> Number_isInteger n = false ->
             maxFailures (populate o) = Some (int 10)) /\
  (forall n, maxFailures o = Some n -> Number_isInteger n = true ->
             maxFailures (populate o) = Some n) /\
  (maxFailures o = None -> maxFailures (populate o) = Some (int 10)).
Proof.
  unfold populate. cbn [timeout maxFailures resetTimeout].
  repeat split; intros; repeat match goal with
                               | H : _ = _ |- _ => rewrite H
                               end; reflexivity.
Qed.

(** C9 as stated fails: 0 is a falsy value that is not [false], and as
    [maxFailures] it is kept, not replaced by the default 10. *)
Lemma C9_counterexample :
  ~ (forall o n, maxFailures o = Some n -> truthy n = false ->
                 maxFailures (populate o) = Some (int 10)).
Proof.
  intros H. specialize (H zero_maxFailures (int 0) eq_refl eq_refl).
  change (Some (int 0) = Some (int 10)) in H.
  assert (E : int 0 = int 10) by congruence.
  apply int_inj in E. discriminate.
Qed.

Lemma C9_witness :
  timeout (populate falsy_options) = Some (TNumber (int 10000)) /\
  resetTimeout (populate falsy_options) = Some (int 30000) /\
  maxFailures (populate falsy_options) = Some (int 10) /\
  maxFailures (populate zero_maxFailures) = Some (int 0).
Proof.
  pose proof (C9_populate_defaults falsy_options)
    as (_ & Ht & _ & _ & Hr & _ & _ & Hm & _ & _).
  pose proof (C9_populate_defaults zero_maxFailures)
    as (_ & _ & _ & _ & _ & _ & _ & _ & Hz & _).
  split; [|split; [|split]].
  - apply (Ht (int 0)); reflexivity.
  - apply (Hr (int 0)); reflexivity.
  - apply (Hm (Finite (Q2Qc (3 # 2)))); reflexivity.
  - apply (Hz (int 0)); reflexivity.
Defined.

End OptionClaims.

(* ===================================================================== *)
(** * The breaker: one step at a time                                     *)
(* ===================================================================== *)

Module BreakerSteps.
Import Js Common Types CircuitBreaker BreakerSpec Wp BreakerInvariants.
Import BreakerTraces StatusSpec StatusFacts StatsClaims.

Lemma wp_intro {A} (m : M A) (Q : A -> t -> Prop) b :
  wp m Q b -> exists a b', m b = Some (a, b') /\ Q a b'.
Proof. exact (fun H => H). Qed.

Lemma wp_fmap_intro {A} (m : M A) (P : t -> Prop) b :
  wp m (fun _ b' => P b') b -> exists b', snd <$> m b = Some b' /\ P b'.
Proof. intros (a & b' & E & HP). exists b'. now rewrite E. Qed.

Lemma exec_Settle_eq id s b c :
  calls b !! id = Some c -> call_awaiting c = true ->
  exec (Settle id s) b
  = snd <$> match s with
            | Resolves v => on_fulfilled id c v
            | Rejects e => on_rejected id c e
            end b.
Proof. intros Hc Haw. unfold exec. rewrite Hc, Haw. now destruct s. Qed.

Lemma exec_Elapse_call_eq tid id d b c :
  timers b !! tid = Some (CallTimer id d) -> calls b !! id = Some c ->
  exec (Elapse tid) b
  = snd <$> on_timeout id c (set_timers (delete tid (timers b)) b).
Proof.
  intros Ht Hc. unfold exec. rewrite Ht. cbn [run_timer].
  cbn [calls set_timers]. now rewrite Hc.
Qed.

(** The counters of [stats] in terms of the buckets. *)
Ltac stats_norm :=
  rewrite ?stats_failures, ?stats_successes, ?stats_rejects, ?stats_fires,
    ?stats_timeouts;
  cbn [total foldr Status.WINDOW Status.set_WINDOW Status.bump
       Status.set_flag Status.failures Status.successes Status.rejects
       Status.fires Status.timeouts STATUS set_STATUS].

Ltac stats_norm_in H :=
  rewrite ?stats_failures, ?stats_successes, ?stats_rejects, ?stats_fires,
    ?stats_timeouts in H;
  cbn [total foldr Status.WINDOW Status.set_WINDOW Status.bump
       Status.set_flag Status.failures Status.successes Status.rejects
       Status.fires Status.timeouts STATUS set_STATUS] in H.

(** Start the symbolic execution of a method on a breaker that satisfies
    the invariant: name the fields and the head of the window. *)
Ltac start b Hinv :=
  let Hw := fresh "Hw" in
  pose proof (inv_window _ Hinv) as Hw;
  open_breaker b;
  match goal with
  | W : list Status.StatusBucket |- _ =>
      destruct W as [|?hd ?rest]; [congruence|]
  end;
  clear Hw.

End BreakerSteps.

Section OverrideClaims.
Import Js Common Types CircuitBreaker BreakerSpec Wp BreakerInvariants.
Import BreakerSteps.

(** C5.  [close()] on a closed breaker and [open()] on an open breaker
    return leaving the breaker exactly as it was: no field changes, nothing
    is emitted, no timer is armed or cleared.  In any other state they
    move the breaker to the state named and emit exactly one event, the
    one that names the new state. *)
Theorem C5_manual_overrides (o : CircuitBreakerOptions) (b : t) :
  reachable o b ->
  (STATE b = CLOSED -> close b = Some (tt, b)) /\
  (STATE b = OPEN -> open b = Some (tt, b)) /\
  (STATE b <> CLOSED ->
     exists b', close b = Some (tt, b') /\ STATE b' = CLOSED /\
                log b' = log b ++ [Emitted EvClose]) /\
  (STATE b <> OPEN ->
     exists b', open b = Some (tt, b') /\ STATE b' = OPEN /\
                log b' = log b ++ [Emitted EvOpen]).
Proof.
  intros Hr. pose proof (reachable_Inv _ _ Hr) as Hinv.
  split; [|split; [|split]].
  - intros Hs. unfold close, bind, gets. now rewrite Hs.
  - intros Hs. unfold open, bind, gets. now rewrite Hs.
  - intros Hs.
    cut (wp close (fun _ b' => STATE b' = CLOSED /\
                               log b' = log b ++ [Emitted EvClose]) b).
    { intros (a & b' & E & HQ). destruct a. eauto. }
    start b Hinv. destruct st; [congruence| |]; wp_run; auto.
  - intros Hs.
    cut (wp open (fun _ b' => STATE b' = OPEN /\
                              log b' = log b ++ [Emitted EvOpen]) b).
    { intros (a & b' & E & HQ). destruct a. eauto. }
    start b Hinv. destruct st; [|congruence|]; wp_run; auto.
Qed.

End OverrideClaims.

Section CallClaims.
Import Js Common Types CircuitBreaker BreakerSpec Wp BreakerInvariants.
Import BreakerSteps.

(** C2.  A call fired while the breaker is neither closed nor half open
    emits "fire" and then "reject" and nothing else, returns a promise
    already rejected with the error [buildError] makes of EOPENBREAKER
    (an [Error] named "CircuitBreaker" whose message is "EOPENBREAKER",
    which is also what "reject" is emitted with), never invokes the
    action, and leaves the state, the timers, the options and every
    counter other than [fires] and [rejects] as they were. *)
Theorem C2_open_breaker_rejects
    (o : CircuitBreakerOptions) (b : t) (args : list JsValue)
    (action : Behaviour) :
  reachable o b -> closed b = false -> halfOpen b = false ->
  exists id b',
    call args action b = Some (id, b') /\
    log b' = log b ++ [Emitted (EvFire args);
                       Emitted (EvReject (VError "CircuitBreaker"
                                                 "EOPENBREAKER"))] /\
    calls b' !! id
      = Some (mkCall args None false
                     (Rejected (VError "CircuitBreaker" "EOPENBREAKER"))
                     false) /\
    (forall a, ~ In (Invoked id a) (log b')) /\
    STATE b' = STATE b /\
    timers b' = timers b /\
    Status.failures (stats b') = Status.failures (stats b) /\
    Status.successes (stats b') = Status.successes (stats b) /\
    Status.timeouts (stats b') = Status.timeouts (stats b) /\
    Status.fires (stats b') = Status.fires (stats b) + 1 /\
    Status.rejects (stats b') = Status.rejects (stats b) + 1 /\
    PENDING_CLOSE b' = PENDING_CLOSE b /\
    RESET_TIMEOUT b' = RESET_TIMEOUT b /\
    options b' = options b.
Proof.
  change (VError "CircuitBreaker" "EOPENBREAKER")
    with (buildError EOPENBREAKER).
  intros Hr Hcl Hho. pose proof (reachable_Inv _ _ Hr) as Hinv.
  pose proof (inv_invoked_fresh _ Hinv) as Hif.
  apply wp_intro.
  start b Hinv. unfold closed, halfOpen in Hcl, Hho. cbn [STATE] in *.
  destruct st; try discriminate.
  unfold call. wp_run.
  unfold stats. cbn [STATUS set_STATUS set_calls set_next_call set_log].
  stats_norm.
  repeat split; try lia.
  - now rewrite <- app_assoc.
  - apply lookup_insert_eq.
  - intros a Hin. in_log Hin. apply Hif in Hin. lia.
Qed.

(** C3.  Whatever the options and the counters are, an outcome handled
    while the breaker is half open decides its state: a fulfilled action
    promise closes it; a rejected action promise, an elapsed call timeout
    and an action that throws open it. *)
Theorem C3_half_open_outcome (o : CircuitBreakerOptions) (b : t) :
  reachable o b -> STATE b = HALF_OPEN ->
  (forall id c v,
      calls b !! id = Some c -> call_awaiting c = true ->
      call_timeoutError c = false ->
      exists b', exec (Settle id (Resolves v)) b = Some b' /\
                 STATE b' = CLOSED) /\
  (forall id c e,
      calls b !! id = Some c -> call_awaiting c = true ->
      call_timeoutError c = false ->
      exists b', exec (Settle id (Rejects e)) b = Some b' /\
                 STATE b' = OPEN) /\
  (forall tid id d,
      timers b !! tid = Some (CallTimer id d) ->
      exists b', exec (Elapse tid) b = Some b' /\ STATE b' = OPEN) /\
  (forall args e,
      exists b', exec (Fire args (Throws e)) b = Some b' /\
                 STATE b' = OPEN).
Proof.
  intros Hr Hs. pose proof (reachable_Inv _ _ Hr) as Hinv.
  split; [|split; [|split]].
  - intros id c v Hc Haw Hte.
    rewrite (exec_Settle_eq _ _ _ _ Hc Haw). apply wp_fmap_intro.
    start b Hinv. subst st. unfold on_fulfilled. rewrite Hte.
    cbn [negb]. wp_run; reflexivity.
  - intros id c e Hc Haw Hte.
    rewrite (exec_Settle_eq _ _ _ _ Hc Haw). apply wp_fmap_intro.
    start b Hinv. subst st. unfold on_rejected. rewrite Hte.
    cbn [negb]. wp_run; try reflexivity.
    all: rewrite orb_true_r in *; discriminate.
  - intros tid id d Htid.
    destruct (inv_call_timer _ Hinv _ _ _ Htid) as (c & Hc & _).
    rewrite (exec_Elapse_call_eq _ _ _ _ _ Htid Hc). apply wp_fmap_intro.
    start b Hinv. subst st. wp_run; try reflexivity.
    all: rewrite orb_true_r in *; discriminate.
  - intros args e. unfold exec. apply wp_fmap_intro.
    start b Hinv. subst st. wp_run; try reflexivity.
    all: rewrite orb_true_r in *; discriminate.
Qed.

End CallClaims.

Section FailureClaims.
Import Js Common Types CircuitBreaker BreakerSpec Wp BreakerInvariants.
Import BreakerSteps.







End FailureClaims.

(* ===================================================================== *)
(** * Concrete runs                                                       *)
(* ===================================================================== *)

Section Runs.
Import Js Common Types CircuitBreaker BreakerSpec Samples.

Lemma boot_reachable o trace b : boot o trace = Some b -> reachable o b.
Proof.
  unfold boot, reachable. destruct (new true o) as [b0|] eqn:E;
    [|discriminate].
  intros H. eauto.
Qed.

End Runs.

Section FailureCounterexample.
Import Js Common Types CircuitBreaker BreakerSpec Samples.


(** The same through the public interface: on the breaker that has closed
    again, one call whose action fails opens it. *)
Example reclosed_breaker_reopens :
  STATE <$> boot two_failures (reclosing ++ [Fire [] (Throws boom)])
  = Some OPEN.
Proof. vm_compute. reflexivity. Qed.

End FailureCounterexample.

Section ThrowClaims.
Import Js Common Types CircuitBreaker BreakerSpec Wp BreakerInvariants.
Import BreakerSteps.

Lemma wp_result {A} (m : M A) (x : A) (R : t -> Prop) b :
  wp m (fun a b1 => a = x /\ R b1) b ->
  exists b1, m b = Some (x, b1) /\ R b1.
Proof. intros (a & b1 & E & -> & HR). eauto. Qed.

Lemma wp_fmap_eq {A} (m : M A) b b' :
  wp m (fun _ b1 => b1 = b') b -> snd <$> m b = Some b'.
Proof. intros (a & b1 & E & ->). now rewrite E. Qed.

(** C10.  When the action throws as it is invoked, the call is handled
    like a rejection of the action's promise: no timeout of the call stays
    pending, "failure" is emitted after "fire" and recorded, the rule of
    [fail] decides whether the breaker opens, the promise returned is
    rejected with the value thrown, and the breaker ends exactly as if the
    action had returned a promise that was rejected with that value
    before anything else happened. *)
Theorem C10_synchronous_throw
    (o : CircuitBreakerOptions) (b : t) (args : list JsValue)
    (error : JsValue) :
  reachable o b -> opened b = false ->
  exists id b',
    call args (Throws error) b = Some (id, b') /\
    (forall tid d, timers b' !! tid <> Some (CallTimer id d)) /\
    log b' = log b ++ Emitted (EvFire args) :: Invoked id args
                   :: Emitted (EvFailure error args)
                   :: (if trips b then [Emitted EvOpen] else []) /\
    Status.failures (stats b') = Status.failures (stats b) + 1 /\
    STATE b' = (if trips b then OPEN else STATE b) /\
    (exists c, calls b' !! id = Some c /\
               call_promise c = Rejected error) /\
    (exists b1, call args ReturnsPromise b = Some (id, b1) /\
                exec (Settle id (Rejects error)) b1 = Some b').
Proof.
  intros Hr Hop. pose proof (reachable_Inv _ _ Hr) as Hinv.
  pose proof (inv_timers_fresh _ Hinv) as Htf.
  pose proof (inv_call_timer _ Hinv) as Hct.
  pose proof (inv_calls_fresh _ Hinv) as Hcf.
  apply wp_intro.
  start b Hinv. unfold opened in Hop. cbn [STATE] in Hop.
  unfold trips, stats, halfOpen. cbn [STATUS STATE options].
  destruct st; try discriminate; unfold call; wp_run.
  all: refine (conj _ (conj _ (conj _ (conj _ (conj _ _))))).
  all: try (apply wp_result; unfold call; wp_run; try congruence;
            split; [reflexivity|];
            erewrite exec_Settle_eq;
            [ | cbn [calls set_calls set_next_call set_timers set_log
                      set_next_timer set_PENDING_CLOSE set_STATUS];
                rewrite !lookup_alter_eq, lookup_insert_eq; reflexivity
              | reflexivity ];
            apply wp_fmap_eq; unfold on_rejected;
            cbn [call_timeoutError call_timeout call_args negb];
            wp_run; try congruence;
            simplify_eq;
            cbv beta iota delta
                [options STATE PENDING_CLOSE STATUS RESET_TIMEOUT timers
                 next_timer calls next_call log set_STATE
                 set_PENDING_CLOSE set_STATUS set_RESET_TIMEOUT set_timers
                 set_next_timer set_calls set_next_call set_log
                 Status.set_WINDOW Status.WINDOW Status.BUCKETS
                 Status.TIMEOUT Status.BUCKET_INTERVAL];
            rewrite ?alter_insert_eq;
            cbn [settle detach call_args call_timeout call_timeoutError
                 call_promise call_awaiting];
            reflexivity).
  all: try (eexists; split;
            [ rewrite !lookup_alter_eq, lookup_insert_eq; reflexivity
            | reflexivity ]).
  all: try (intros tid d Hl; lookups; simplify_eq;
            match goal with
            | H : _ !! _ = Some (CallTimer _ _) |- _ =>
                destruct (Hct _ _ _ H) as (c0 & Hc0 & _);
                apply Hcf in Hc0; lia
            end).
  all: unfold stats; cbn [STATUS set_STATUS set_log set_STATE set_calls
                           set_PENDING_CLOSE set_RESET_TIMEOUT
                           set_next_timer set_timers set_next_call].
  all: repeat match goal with
              | H : context [Status.stats] |- _ => stats_norm_in H
              end; stats_norm.
  all: try lia.
  all: repeat match goal with
              | H : context [int ?x] |- context [int ?y] =>
                  progress (replace y with x by lia)
              end.
  all: repeat match goal with
              | H : ?x = _ |- context [?x] => rewrite H
              end.
  all: rewrite <- ?app_assoc; try reflexivity.
  all: rewrite ?orb_true_r in *; try discriminate; try reflexivity.
Qed.

End ThrowClaims.

Section TimeoutClaims.
Import Js Common Types CircuitBreaker BreakerSpec Wp BreakerInvariants.
Import BreakerTraces BreakerSteps.

(** Once the timeout of a call has fired, the handlers of the action's
    promise do nothing but detach. *)
Lemma settle_suppressed id s b c :
  calls b !! id = Some c -> call_timeoutError c = true ->
  exec (Settle id s) b
  = if call_awaiting c
    then Some (set_calls (alter detach id (calls b)) b)
    else None.
Proof.
  intros Hc Hte. unfold exec. rewrite Hc.
  destruct (call_awaiting c); [|reflexivity].
  destruct s; unfold on_fulfilled, on_rejected; rewrite Hte; reflexivity.
Qed.

(** Settling the action's promise while the timeout of the call is pending
    clears that timeout. *)
Lemma settle_clears_timer tid id d s b :
  Inv b -> timers b !! tid = Some (CallTimer id d) ->
  exists b1, exec (Settle id s) b = Some b1 /\ timers b1 !! tid = None.
Proof.
  intros Hinv Htid.
  destruct (inv_call_timer _ Hinv _ _ _ Htid)
    as (c & Hc & Hto & Hte & Hp & Haw).
  pose proof (inv_timers_fresh _ Hinv _ _ Htid) as Hlt.
  rewrite (exec_Settle_eq _ _ _ _ Hc Haw). apply wp_fmap_intro.
  start b Hinv.
  destruct st, s; unfold on_fulfilled, on_rejected; rewrite Hte, Hto;
    cbn [negb]; wp_run.
  all: repeat first [ rewrite lookup_insert_ne by lia
                    | apply lookup_delete_eq
                    | apply lookup_delete_None; right ].
Qed.

Lemma exec_Elapse_None (tid : TimerId) (b : t) :
  timers b !! tid = None -> exec (Elapse tid) b = None.
Proof. intros H. unfold exec. now rewrite H. Qed.

(** C4.  When the timeout of a call elapses while the action's promise is
    still unsettled, "timeout" and then "failure" are emitted and counted
    (one increment of [timeouts], one of [failures]), the rule of [fail]
    decides whether the breaker opens, and the promise returned to the
    caller is rejected with the error [buildError] makes of ETIMEDOUT (an
    [Error] named "CircuitBreaker" whose message is "ETIMEDOUT", which
    is also what both events are emitted with).  Whenever the action's
    promise settles afterwards, with whatever outcome, nothing is emitted
    or counted and the caller's promise stays as it is.  Conversely, if
    the action's promise settles first, the timeout is cleared and never
    elapses. *)
Theorem C4_timeout_race
    (o : CircuitBreakerOptions) (b : t) (tid : TimerId) (id : CallId)
    (d : JsNumber) :
  reachable o b -> timers b !! tid = Some (CallTimer id d) ->
  exists c b',
    calls b !! id = Some c /\ call_awaiting c = true /\
    call_promise c = Pending /\
    exec (Elapse tid) b = Some b' /\
    log b' = log b
             ++ Emitted (EvTimeout (VError "CircuitBreaker" "ETIMEDOUT")
                                   (call_args c))
             :: Emitted (EvFailure (VError "CircuitBreaker" "ETIMEDOUT")
                                   (call_args c))
             :: (if trips b && negb (opened b)
                 then [Emitted EvOpen] else []) /\
    Status.timeouts (stats b') = Status.timeouts (stats b) + 1 /\
    Status.failures (stats b') = Status.failures (stats b) + 1 /\
    STATE b' = (if trips b then OPEN else STATE b) /\
    (exists c', calls b' !! id = Some c' /\
                call_promise c'
                = Rejected (VError "CircuitBreaker" "ETIMEDOUT")) /\
    (forall trace b'' s,
        run trace b' = Some b'' ->
        exists c'',
          calls b'' !! id = Some c'' /\
          call_promise c''
          = Rejected (VError "CircuitBreaker" "ETIMEDOUT") /\
          exec (Settle id s) b''
          = if call_awaiting c''
            then Some (set_calls (alter detach id (calls b'')) b'')
            else None) /\
    (forall s,
        exists b1,
          exec (Settle id s) b = Some b1 /\
          forall trace b2, run trace b1 = Some b2 ->
                           exec (Elapse tid) b2 = None).
Proof.
  change (VError "CircuitBreaker" "ETIMEDOUT") with (buildError ETIMEDOUT).
  intros Hr Htid. pose proof (reachable_Inv _ _ Hr) as Hinv.
  destruct (inv_call_timer _ Hinv _ _ _ Htid)
    as (c & Hc & Hto & Hte & Hp & Haw).
  pose proof (inv_timers_fresh _ Hinv _ _ Htid) as Hlt.
  assert (Hstep : exists b',
    exec (Elapse tid) b = Some b' /\
    log b' = log b
             ++ Emitted (EvTimeout (buildError ETIMEDOUT) (call_args c))
             :: Emitted (EvFailure (buildError ETIMEDOUT) (call_args c))
             :: (if trips b && negb (opened b)
                 then [Emitted EvOpen] else []) /\
    Status.timeouts (stats b') = Status.timeouts (stats b) + 1 /\
    Status.failures (stats b') = Status.failures (stats b) + 1 /\
    STATE b' = (if trips b then OPEN else STATE b) /\
    (exists c', calls b' !! id = Some c' /\
                call_promise c' = Rejected (buildError ETIMEDOUT) /\
                call_timeoutError c' = true)).
  { rewrite (exec_Elapse_call_eq _ _ _ _ _ Htid Hc). apply wp_fmap_intro.
    clear Hr. start b Hinv.
    unfold trips, stats, halfOpen, opened. cbn [STATUS STATE options].
    destruct st; unfold on_timeout; rewrite Hto; wp_run.
    all: refine (conj _ (conj _ (conj _ (conj _ _)))).
    all: try (eexists; split;
              [ rewrite !lookup_alter_eq, Hc; reflexivity
              | cbn [fmap option_fmap option_map];
                rewrite settle_timeoutError;
                split; [apply settle_pending; exact Hp | reflexivity] ]).
    all: unfold stats; cbn [STATUS set_STATUS set_log set_STATE set_calls
                             set_PENDING_CLOSE set_RESET_TIMEOUT
                             set_next_timer set_timers set_next_call].
    all: repeat match goal with
                | H : context [Status.stats] |- _ => stats_norm_in H
                end; stats_norm.
    all: try lia.
    all: repeat match goal with
                | H : context [int ?x] |- context [int ?y] =>
                    progress (replace y with x by lia)
                end.
    all: repeat match goal with
                | H : ?x = _ |- context [?x] => rewrite H
                end.
    all: cbn [andb negb state_eqb].
    all: rewrite <- ?app_assoc; try reflexivity.
    all: rewrite ?orb_true_r in *; try discriminate; try reflexivity. }
  destruct Hstep as (b' & Hexec & Hlog & Htmo & Hfail & Hstate
                        & c' & Hc' & Hp' & Hte').
  exists c, b'. repeat (split; [assumption|]).
  split; [eauto|]. split.
  - intros trace b'' s Hrun.
    pose proof (exec_Inv _ _ _ Hinv Hexec) as Hinv'.
    destruct (ev_calls _ _ (run_evolves trace _ _ Hinv' Hrun) _ _ Hc')
      as (c'' & Hc'' & _ & Hte'' & Hp'').
    exists c''. split; [exact Hc''|]. split.
    + rewrite Hp''; [exact Hp'|]. rewrite Hp'. discriminate.
    + apply settle_suppressed; auto.
  - intros s.
    destruct (settle_clears_timer tid id d s b Hinv Htid)
      as (b1 & Hsettle & Hnone).
    exists b1. split; [exact Hsettle|].
    intros trace b2 Hrun.
    pose proof (exec_Inv _ _ _ Hinv Hsettle) as Hinv1.
    pose proof (ev_next_timer _ _ (exec_evolves _ _ _ Hinv Hsettle)) as Hn.
    pose proof (ev_timers _ _ (run_evolves trace _ _ Hinv1 Hrun) tid
                  ltac:(lia) Hnone) as Hnone2.
    apply exec_Elapse_None, Hnone2.
Qed.

End TimeoutClaims.

Section DisabledTimeoutClaims.
Import Js Common Types CircuitBreaker BreakerSpec Wp BreakerInvariants.
Import BreakerTraces.

Lemma run_NoTimeouts (trace : list Input) :
  forall b b',
    Inv b -> timeout_enabled (timeout (options b)) = None ->
    NoTimeouts b -> run trace b = Some b' -> NoTimeouts b'.
Proof.
  induction trace as [|i trace IH]; intros b b' Hinv Hdis Hnt H; cbn in H.
  - now injection H as <-.
  - destruct (exec i b) as [b1|] eqn:E; [|discriminate].
    apply (IH b1 b'); [| | |exact H].
    + eapply exec_Inv; eassumption.
    + now rewrite (ev_options _ _ (exec_evolves _ _ _ Hinv E)).
    + eapply exec_NoTimeouts; eassumption.
Qed.

Lemma new_NoTimeouts (o : CircuitBreakerOptions) (b : t) :
  new true o = Some b -> NoTimeouts b.
Proof.
  intros [= <-]. split; cbn.
  - intros tid id d. rewrite lookup_empty. discriminate.
  - intros e a [].
  - intros id c. rewrite lookup_empty. discriminate.
Qed.

(** C7.  In every state of a breaker constructed with [timeout: false]
    no call timeout is pending, no call has a timeout handle or has been
    marked as timed out, and no "timeout" event has been emitted; and
    whenever a step settles the promise of a call whose action was
    invoked, that step is the action's promise being fulfilled or
    rejected, or the action throwing, and the promise takes that value or
    error. *)
Theorem C7_timeout_disabled (o : CircuitBreakerOptions) (b : t) :
  timeout o = Some TFalse -> reachable o b ->
  (forall tid id d, timers b !! tid <> Some (CallTimer id d)) /\
  (forall id c, calls b !! id = Some c ->
                call_timeout c = None /\ call_timeoutError c = false) /\
  (forall e a, ~ In (Emitted (EvTimeout e a)) (log b)) /\
  (forall i b' id a c',
      exec i b = Some b' ->
      In (Invoked id a) (log b') ->
      calls b' !! id = Some c' ->
      call_promise c' <> Pending ->
      (exists c, calls b !! id = Some c /\
                 call_promise c = call_promise c') \/
      (exists v, i = Settle id (Resolves v) /\
                 call_promise c' = Fulfilled v) \/
      (exists e, i = Settle id (Rejects e) /\
                 call_promise c' = Rejected e) \/
      (exists args e, i = Fire args (Throws e) /\
                      call_promise c' = Rejected e)).
Proof.
  intros Hto Hr. pose proof (reachable_Inv _ _ Hr) as Hinv.
  assert (Hnt : NoTimeouts b).
  { destruct Hr as (b0 & trace & Hnew & Hrun).
    apply (run_NoTimeouts trace b0 b); try assumption.
    - eapply new_Inv; eassumption.
    - injection Hnew as <-. cbn [options]. unfold populate.
      cbn [timeout]. now rewrite Hto.
    - eapply new_NoTimeouts; eassumption. }
  destruct Hnt as [Hjt Hjl Hjc].
  split; [exact Hjt|]. split; [exact Hjc|]. split; [exact Hjl|].
  intros i b' id a c' Hexec Hin Hc' Hp.
  exact (exec_outcome i b b' id a c' Hinv (mkNoTimeouts _ Hjt Hjl Hjc)
           Hexec Hin Hc' Hp).
Qed.

End DisabledTimeoutClaims.

(* ===================================================================== *)
(** * The theorems at concrete breakers                                   *)
(* ===================================================================== *)

Section Witnesses.
Import Js Common Types CircuitBreaker BreakerSpec Samples.

Lemma C6_witness :
  Status.failures (Status.stats busy_status) = 3 /\
  exists s', Status.run ten_rotations busy_status = Some s' /\
             Status.run ten_rotations Status.new = Some s' /\
             Status.failures (Status.stats s') = 10.
Proof.
  destruct (C6_stats_rolling_window busy_status
              (Status.mkBucket 3 1 0 4 0 (Status.FBool false)
                 :: repeat Status.bucket 8)
              Status.bucket ten_rotations eq_refl)
    as ((Hf & _) & _ & _ & _ & s' & Hrun & _ & Hforget).
  { vm_compute. lia. }
  split; [rewrite Hf; reflexivity|].
  exists s'. split; [exact Hrun|]. split; [exact Hforget|].
  vm_compute in Hrun. injection Hrun as <-. reflexivity.
Defined.

Lemma C5_witness :
  exists b0 b1,
    boot no_options [] = Some b0 /\
    boot no_options [ManualOpen] = Some b1 /\
    close b0 = Some (tt, b0) /\
    open b1 = Some (tt, b1) /\
    (exists b', open b0 = Some (tt, b') /\ STATE b' = OPEN /\
                log b' = log b0 ++ [Emitted EvOpen]) /\
    (exists b', close b1 = Some (tt, b') /\ STATE b' = CLOSED /\
                log b' = log b1 ++ [Emitted EvClose]).
Proof.
  eexists _, _. split; [vm_compute; reflexivity|].
  split; [vm_compute; reflexivity|].
  match goal with
  | |- close ?b0 = _ /\ open ?b1 = _ /\ _ =>
      destruct (C5_manual_overrides no_options b0
                  (boot_reachable no_options [] b0 eq_refl))
        as (Hc0 & _ & _ & Ho0);
      destruct (C5_manual_overrides no_options b1
                  (boot_reachable no_options [ManualOpen] b1 eq_refl))
        as (_ & Ho1 & Hc1 & _)
  end.
  split; [apply Hc0; reflexivity|].
  split; [apply Ho1; reflexivity|].
  split; [apply Ho0; discriminate|apply Hc1; discriminate].
Defined.


Lemma C2_witness :
  exists b id b',
    boot two_failures [Fire [] (Throws boom); Fire [] (Throws boom)]
      = Some b /\
    STATE b = OPEN /\
    call [VString "RESOLVE"] ReturnsPromise b = Some (id, b') /\
    log b' = log b ++ [Emitted (EvFire [VString "RESOLVE"]);
                       Emitted (EvReject (VError "CircuitBreaker"
                                                 "EOPENBREAKER"))] /\
    STATE b' = OPEN /\
    Status.failures (stats b') = 2.
Proof.
  eexists.
  match goal with
  | |- exists id b', boot ?o ?tr = Some ?b /\ _ =>
      assert (Hb : boot o tr = Some b) by (vm_compute; reflexivity);
      destruct (C2_open_breaker_rejects o b [VString "RESOLVE"]
                  ReturnsPromise (boot_reachable o tr b Hb)
                  eq_refl eq_refl)
        as (id & b' & Hcall & Hlog & _ & _ & Hst & _ & Hf & _);
      exists id, b'
  end.
  split; [exact Hb|]. split; [reflexivity|]. split; [exact Hcall|].
  split; [exact Hlog|]. split; [rewrite Hst; reflexivity|].
  rewrite Hf. reflexivity.
Defined.

Lemma C3_witness :
  exists b,
    boot two_failures_timed probing = Some b /\
    STATE b = HALF_OPEN /\
    (exists b', exec (Settle 2%nat (Resolves (VString "RESOLVE"))) b
                = Some b' /\ STATE b' = CLOSED) /\
    (exists b', exec (Settle 2%nat (Rejects boom)) b = Some b' /\
                STATE b' = OPEN) /\
    (exists b', exec (Elapse 3%nat) b = Some b' /\ STATE b' = OPEN) /\
    (exists b', exec (Fire [] (Throws boom)) b = Some b' /\
                STATE b' = OPEN).
Proof.
  eexists. split; [vm_compute; reflexivity|]. split; [reflexivity|].
  match goal with
  | |- (exists b', exec _ ?b = _ /\ _) /\ _ =>
      destruct (C3_half_open_outcome two_failures_timed b
                  (boot_reachable two_failures_timed probing b eq_refl)
                  eq_refl)
        as (Hok & Hko & Htmo & Hthrow)
  end.
  split; [|split; [|split]].
  - eapply Hok; reflexivity.
  - eapply Hko; reflexivity.
  - eapply Htmo; reflexivity.
  - apply Hthrow.
Defined.

Lemma C4_witness :
  exists b b',
    boot no_options [Fire [VString "RESOLVE"] ReturnsPromise] = Some b /\
    timers b !! 0%nat = Some (CallTimer 0%nat (int 10000)) /\
    exec (Elapse 0%nat) b = Some b' /\
    log b' = log b
             ++ [Emitted (EvTimeout (VError "CircuitBreaker" "ETIMEDOUT")
                                    [VString "RESOLVE"]);
                 Emitted (EvFailure (VError "CircuitBreaker" "ETIMEDOUT")
                                    [VString "RESOLVE"])] /\
    (exists b'',
        exec (Settle 0%nat (Resolves (VString "RESOLVE"))) b' = Some b'' /\
        log b'' = log b') /\
    (exists b1,
        exec (Settle 0%nat (Resolves (VString "RESOLVE"))) b = Some b1 /\
        exec (Elapse 0%nat) b1 = None).
Proof.
  eexists.
  match goal with
  | |- exists b', boot ?o ?tr = Some ?b /\ _ =>
      assert (Hb : boot o tr = Some b) by (vm_compute; reflexivity);
      destruct (C4_timeout_race o b 0%nat 0%nat (int 10000)
                  (boot_reachable o tr b Hb) eq_refl)
        as (c & b' & Hc & Haw & Hp & Hexec & Hlog & _ & _ & _ & _
              & Hlate & Hfirst);
      exists b'
  end.
  split; [exact Hb|]. split; [reflexivity|]. split; [exact Hexec|].
  assert (Hc0 : c = mkCall [VString "RESOLVE"] (Some 0%nat) false Pending
                       true).
  { vm_compute in Hc. injection Hc as <-. reflexivity. }
  split; [|split].
  - rewrite Hlog, Hc0. reflexivity.
  - destruct (Hlate [] b' (Resolves (VString "RESOLVE")) eq_refl)
      as (c'' & Hc'' & _ & Hsettle).
    vm_compute in Hexec. injection Hexec as <-.
    vm_compute in Hc''. injection Hc'' as <-.
    rewrite Hsettle. eexists. split; reflexivity.
  - destruct (Hfirst (Resolves (VString "RESOLVE")))
      as (b1 & Hsettle & Hnever).
    exists b1. split; [exact Hsettle|]. exact (Hnever [] b1 eq_refl).
Defined.

Lemma C7_witness :
  exists b,
    boot two_failures [Fire [] ReturnsPromise] = Some b /\
    timers b = ∅ /\
    (forall d, timers b !! 0%nat <> Some (CallTimer 0%nat d)) /\
    (forall e a, ~ In (Emitted (EvTimeout e a)) (log b)) /\
    (forall b' c',
        exec (Settle 0%nat (Rejects boom)) b = Some b' ->
        calls b' !! 0%nat = Some c' ->
        call_promise c' = Rejected boom).
Proof.
  eexists. split; [vm_compute; reflexivity|]. split; [reflexivity|].
  match goal with
  | |- (forall d, timers ?b !! _ <> _) /\ _ =>
      destruct (C7_timeout_disabled two_failures b eq_refl
                  (boot_reachable two_failures [Fire [] ReturnsPromise]
                     b eq_refl))
        as (Htimers & _ & Hlog & Hsettled)
  end.
  split; [intros d; apply Htimers|]. split; [exact Hlog|].
  intros b' c' Hexec Hc'.
  assert (Hp : call_promise c' <> Pending).
  { vm_compute in Hexec. injection Hexec as <-.
    vm_compute in Hc'. injection Hc' as <-. discriminate. }
  assert (Hin : In (Invoked 0%nat []) (log b')).
  { vm_compute in Hexec. injection Hexec as <-. cbn. auto. }
  destruct (Hsettled _ b' 0%nat [] c' Hexec Hin Hc' Hp) as [H|[H|[H|H]]].
  - destruct H as (c & Hc & Hpc). vm_compute in Hc.
    injection Hc as <-. cbn in Hpc. congruence.
  - destruct H as (v & Hi & _). discriminate.
  - destruct H as (e & Hi & Hpe). injection Hi as <-. exact Hpe.
  - destruct H as (args & e & Hi & _). discriminate.
Defined.

Lemma C10_witness :
  exists b id b',
    boot no_options [] = Some b /\
    call [] (Throws boom) b = Some (id, b') /\
    timers b' = ∅ /\
    log b' = [Emitted (EvFire []); Invoked id [];
              Emitted (EvFailure boom [])] /\
    STATE b' = CLOSED /\
    (exists c, calls b' !! id = Some c /\ call_promise c = Rejected boom) /\
    (exists b1, call [] ReturnsPromise b = Some (id, b1) /\
                exec (Settle id (Rejects boom)) b1 = Some b').
Proof.
  eexists.
  match goal with
  | |- exists id b', boot ?o ?tr = Some ?b /\ _ =>
      assert (Hb : boot o tr = Some b) by (vm_compute; reflexivity);
      destruct (C10_synchronous_throw o b [] boom
                  (boot_reachable o tr b Hb) eq_refl)
        as (id & b' & Hcall & _ & Hlog & _ & Hst & Hrej & Hsame);
      exists id, b'
  end.
  split; [exact Hb|]. split; [exact Hcall|].
  split; [|split; [|split; [|split]]]; try assumption.
  vm_compute in Hcall. injection Hcall as <- <-. reflexivity.
Defined.

End Witnesses.


(* ===================================================================== *)
(** * More about the statistics window                                    *)
(* ===================================================================== *)

Module StatusWindow.
Import Status StatusSpec StatusFacts StatusShape.

Lemma counter_stats p s :
  counter p (stats s) = total (counter p) (WINDOW s).
Proof. apply stats_total; now destruct p. Qed.

Lemma total_nonneg f (w : list StatusBucket) :
  Forall (fun bk => 0 <= f bk) w -> 0 <= total f w.
Proof. unfold total. induction 1; cbn [foldr]; lia. Qed.

Lemma total_le f g (w : list StatusBucket) :
  Forall (fun bk => f bk <= g bk) w -> total f w <= total g w.
Proof. unfold total. induction 1; cbn [foldr]; lia. Qed.

Lemma total_app f (l m : list StatusBucket) :
  total f (l ++ m) = total f l + total f m.
Proof. unfold total. induction l; cbn; lia. Qed.

Lemma total_removelast f (l : list StatusBucket) :
  Forall (fun bk => 0 <= f bk) l -> total f (removelast l) <= total f l.
Proof.
  induction 1 as [|x l Hx Hl IH]; [reflexivity|].
  cbn [removelast]. destruct l as [|y l].
  - unfold total. cbn. lia.
  - unfold total in *. cbn [foldr] in *. lia.
Qed.

Lemma Forall_removelast {A} (P : A -> Prop) (l : list A) :
  Forall P l -> Forall P (removelast l).
Proof.
  induction 1 as [|x l Hx Hl IH]; [constructor|].
  cbn [removelast]. destruct l; [constructor|]. constructor; assumption.
Qed.

Lemma bump_wf p bk : bucket_wf bk -> bucket_wf (bump p bk).
Proof.
  intros [(H1 & H2 & H3 & H4 & H5) Hv].
  split; [|destruct p; exact Hv].
  destruct p; cbn; repeat split; lia.
Qed.

Lemma set_flag_wf v bk : bucket_wf bk -> bucket_wf (set_flag v bk).
Proof. intros [Hc _]. split; [exact Hc|]. now exists v. Qed.

Lemma bucket_wf_fresh : bucket_wf bucket.
Proof. split; [cbn; lia|now exists false]. Qed.

Lemma run_op_wf (o : Op) (s s' : t) :
  length (WINDOW s) = BUCKETS s -> BUCKETS s <> 0%nat ->
  Forall bucket_wf (WINDOW s) ->
  run_op o s = Some s' ->
  length (WINDOW s') = BUCKETS s' /\ BUCKETS s' = BUCKETS s /\
  TIMEOUT s' = TIMEOUT s /\ BUCKET_INTERVAL s' = BUCKET_INTERVAL s /\
  Forall bucket_wf (WINDOW s').
Proof.
  intros Hlen Hnz Hwf H.
  assert (Hhead : forall f, (forall bk, bucket_wf bk -> bucket_wf (f bk)) ->
            on_head f s = Some s' ->
            length (WINDOW s') = BUCKETS s' /\ BUCKETS s' = BUCKETS s /\
            TIMEOUT s' = TIMEOUT s /\
            BUCKET_INTERVAL s' = BUCKET_INTERVAL s /\
            Forall bucket_wf (WINDOW s')).
  { intros f Hf Hon. unfold on_head in Hon.
    destruct (WINDOW s) as [|hd rest] eqn:E; [discriminate|].
    injection Hon as <-. cbn. repeat split; try assumption.
    inversion Hwf; subst. constructor; auto. }
  destruct o; cbn [run_op] in H.
  - apply (Hhead _ (bump_wf p) H).
  - apply (Hhead _ (set_flag_wf true) H).
  - apply (Hhead _ (set_flag_wf false) H).
  - injection H as <-. cbn. repeat split.
    + rewrite removelast_firstn_len, length_take. lia.
    + constructor; [apply bucket_wf_fresh|]. now apply Forall_removelast.
Qed.

Lemma run_wf (ops : list Op) :
  forall s s',
    length (WINDOW s) = BUCKETS s -> BUCKETS s <> 0%nat ->
    Forall bucket_wf (WINDOW s) ->
    run ops s = Some s' ->
    length (WINDOW s') = BUCKETS s' /\ BUCKETS s' = BUCKETS s /\
    TIMEOUT s' = TIMEOUT s /\ BUCKET_INTERVAL s' = BUCKET_INTERVAL s /\
    Forall bucket_wf (WINDOW s').
Proof.
  induction ops as [|o ops IH]; intros s s' Hlen Hnz Hwf H; cbn in H.
  - injection H as <-. auto.
  - destruct (run_op o s) as [s1|] eqn:E; [|discriminate].
    destruct (run_op_wf o s s1 Hlen Hnz Hwf E) as (H1 & H2 & H3 & H4 & H5).
    destruct (IH s1 s' H1 ltac:(congruence) H5 H) as (G1 & G2 & G3 & G4 & G5).
    repeat split; try assumption; congruence.
Qed.

Lemma new_wf : Forall bucket_wf (WINDOW new).
Proof. cbn. repeat constructor; try (cbn; lia); now exists false. Qed.

Lemma accumulate_bump p a v :
  accumulate (bump p a) v = bump p (accumulate a v).
Proof. destruct p; unfold accumulate, bump; cbn; f_equal; lia. Qed.

Lemma accumulate_bump_r p a v :
  accumulate a (bump p v) = bump p (accumulate a v).
Proof. destruct p; unfold accumulate, bump; cbn; f_equal; lia. Qed.

Lemma fold_accumulate_bump p w :
  forall a, fold_left accumulate w (bump p a)
            = bump p (fold_left accumulate w a).
Proof.
  induction w as [|v w IH]; intros a; cbn [fold_left]; [reflexivity|].
  now rewrite accumulate_bump, IH.
Qed.

(** In the sum that [stats] makes, the flags of the buckets are counted. *)
Lemma flag_count (w : list StatusBucket) :
  Forall (fun bk => exists v, isCircuitBreakerOpen bk = FBool v) w ->
  w <> [] ->
  forall acc,
    isCircuitBreakerOpen (fold_left accumulate w acc)
    = FNum (flag_to_number (isCircuitBreakerOpen acc) + count_flagged w).
Proof.
  induction 1 as [|v w [fv Hv] Hw IH]; [congruence|]. intros _ acc.
  cbn [fold_left].
  assert (Hone : count_flagged (v :: w)
                 = flag_to_number (isCircuitBreakerOpen v) + count_flagged w).
  { unfold count_flagged. cbn [List.filter]. unfold flagged at 1.
    rewrite Hv. cbv beta iota.
    destruct fv; cbn [length flag_to_number]; lia. }
  destruct w as [|v' w].
  - cbn [fold_left accumulate isCircuitBreakerOpen]. unfold flag_add.
    rewrite Hone. f_equal. unfold count_flagged.
    cbn [List.filter length]. lia.
  - rewrite IH by discriminate.
    cbn [accumulate isCircuitBreakerOpen]. unfold flag_add.
    cbn [flag_to_number]. rewrite Hone. f_equal. lia.
Qed.

End StatusWindow.

Section StatusTheorems.
Import Status StatusSpec StatusFacts StatusShape StatusWindow.

(** X2.  Whatever sequence of [increment], [open], [close] and
    [nextBucket] is applied to a freshly constructed [Status], none of
    them throws, and the window still has its ten buckets, rotated every
    1000 ms of a 10000 ms window; in every bucket the five counters are
    not negative and [isCircuitBreakerOpen] is a boolean. *)
Theorem X2_status_keeps_its_shape (ops : list Op) :
  exists s',
    run ops new = Some s' /\
    length (WINDOW s') = 10%nat /\
    BUCKETS s' = 10%nat /\ TIMEOUT s' = 10000 /\ BUCKET_INTERVAL s' = 1000 /\
    forall bk, In bk (WINDOW s') ->
      (0 <= failures bk /\ 0 <= successes bk /\ 0 <= rejects bk /\
       0 <= fires bk /\ 0 <= timeouts bk) /\
      exists v, isCircuitBreakerOpen bk = FBool v.
Proof.
  destruct (run_total ops new) as (s' & Hrun & Hlen); [discriminate|].
  exists s'. split; [exact Hrun|].
  destruct (run_wf ops new s') as (H1 & H2 & H3 & H4 & H5);
    try reflexivity; try discriminate; try exact Hrun.
  { apply new_wf. }
  split; [exact Hlen|]. split; [exact H2|]. split; [exact H3|].
  split; [exact H4|].
  intros bk Hin. rewrite Forall_forall in H5. apply H5.
  now apply list_elem_of_In.
Qed.

(** X3.  [increment(p)] on an empty window throws.  On any other window
    it adds one to counter [p] of the newest bucket and touches nothing
    else, so that [stats] afterwards is [stats] before with counter [p]
    one higher and the other four counters unchanged. *)
Theorem X3_increment_adds_one (p : Property) (s : t) :
  match WINDOW s with
  | [] => increment p s = None
  | hd :: rest =>
      exists s',
        increment p s = Some s' /\
        WINDOW s' = bump p hd :: rest /\
        stats s' = bump p (stats s) /\
        counter p (stats s') = counter p (stats s) + 1 /\
        forall q, q <> p -> counter q (stats s') = counter q (stats s)
  end.
Proof.
  unfold increment, on_head.
  destruct (WINDOW s) as [|hd rest] eqn:E; [reflexivity|].
  eexists. split; [reflexivity|]. split; [reflexivity|].
  assert (Hs : stats (set_WINDOW (bump p hd :: rest) s) = bump p (stats s)).
  { unfold stats. cbn [WINDOW set_WINDOW]. rewrite E. cbn [fold_left].
    now rewrite accumulate_bump_r, fold_accumulate_bump. }
  rewrite Hs. split; [reflexivity|]. split.
  - destruct p; cbn; lia.
  - intros q Hq. destruct p, q; try congruence; reflexivity.
Qed.

(** X4.  A rotation of a window whose oldest bucket is [oldest] lowers
    every counter of [stats] by exactly what [oldest] had counted: the
    fresh bucket adds nothing and the buckets in between are kept. *)
Theorem X4_rotation_drops_oldest
    (s : t) (front : list StatusBucket) (oldest : StatusBucket) :
  WINDOW s = front ++ [oldest] ->
  WINDOW (nextBucket s) = bucket :: front /\
  forall p, counter p (stats (nextBucket s))
            = counter p (stats s) - counter p oldest.
Proof.
  intros Hw. assert (Hn : WINDOW (nextBucket s) = bucket :: front).
  { cbn. rewrite Hw. f_equal. apply removelast_last. }
  split; [exact Hn|]. intros p.
  rewrite !counter_stats.
  rewrite Hn, Hw. rewrite total_app.
  unfold total. cbn [foldr]. destruct p; cbn; lia.
Qed.

(** X5.  In the object that [stats] returns, [isCircuitBreakerOpen] is
    not a boolean but a number: the number of buckets of the window in
    which the flag is set, between 0 and 10. *)
Theorem X5_open_flag_is_a_count (ops : list Op) (s : t) :
  run ops new = Some s ->
  isCircuitBreakerOpen (stats s)
  = FNum (Z.of_nat (length (List.filter flagged (WINDOW s)))) /\
  0 <= Z.of_nat (length (List.filter flagged (WINDOW s))) <= 10.
Proof.
  intros Hrun.
  destruct (run_wf ops new s) as (H1 & H2 & _ & _ & H5);
    try reflexivity; try discriminate; try exact Hrun.
  { apply new_wf. }
  split.
  - unfold stats. rewrite flag_count.
    + reflexivity.
    + eapply Forall_impl; [exact H5|]. now intros bk [_ Hv].
    + intros E. rewrite E in H1. rewrite H2 in H1. discriminate.
  - split; [lia|].
    pose proof (List.filter_length_le flagged (WINDOW s)) as Hle.
    rewrite H1, H2 in Hle. cbn in Hle. lia.
Qed.

End StatusTheorems.

(* ===================================================================== *)
(** * What a step makes of the log, the state and the window             *)
(* ===================================================================== *)

Module StepEffect.
Import Js Common Types CircuitBreaker BreakerSpec Wp BreakerInvariants.
Import BreakerTraces BreakerSteps StatusSpec StatusShape StatusWindow.
Import BreakerEvents.

Ltac paired_leaf :=
  unfold paired, occurrences; cbn [List.filter counts length app]; lia.

Ltac effect_leaf :=
  first
    [ exists []; split; [symmetry; apply app_nil_r|];
      split; [reflexivity|]; split; [reflexivity|]; paired_leaf
    | eexists; split; [rewrite <- ?app_assoc; cbn [app]; reflexivity|];
      split; [reflexivity|]; split; [reflexivity|]; paired_leaf ].

(** Every step but a rotation appends what it emits to the log, moves the
    state as the events say, and records the events in the newest
    bucket. *)
Lemma exec_effect (i : Input) (b b' : t) :
  Inv b -> exec i b = Some b' -> i <> Rotate ->
  exists obs,
    log b' = log b ++ obs /\
    STATE b' = track obs (STATE b) /\
    Status.WINDOW (STATUS b') = replay obs (Status.WINDOW (STATUS b)) /\
    paired obs.
Proof.
  intros Hinv H Hi.
  destruct i as [args action|id s|tid| | |]; [| | |congruence| |].
  - unfold exec in H. start b Hinv.
    by_wp H. destruct st, action; wp_run.
    all: effect_leaf.
  - apply exec_Settle_inv in H. destruct H as (c & Hc & Haw & H).
    start b Hinv.
    by_wp H. destruct st, s; wp_run.
    all: effect_leaf.
  - apply exec_Elapse_inv in H.
    destruct H as [(d & Htid & H)|(id & d & c & Htid & Hc & H)].
    + start b Hinv. by_wp H. wp_run. effect_leaf.
    + start b Hinv. by_wp H. destruct st; wp_run.
      all: effect_leaf.
  - unfold exec in H. start b Hinv.
    by_wp H. destruct st; wp_run.
    all: effect_leaf.
  - unfold exec in H. start b Hinv.
    by_wp H. destruct st; wp_run.
    all: effect_leaf.
Qed.

Lemma occurrences_app p l m :
  occurrences p (l ++ m) = occurrences p l + occurrences p m.
Proof.
  unfold occurrences. rewrite List.filter_app, length_app. lia.
Qed.

Lemma occurrences_nonneg p l : 0 <= occurrences p l.
Proof. unfold occurrences. lia. Qed.

Lemma counter_record p obs :
  forall hd, counter p (fold_left record obs hd)
             = counter p hd + occurrences p obs.
Proof.
  induction obs as [|o obs IH]; intros hd; cbn [fold_left].
  - unfold occurrences. cbn [List.filter length]. lia.
  - rewrite IH. change (o :: obs) with ([o] ++ obs).
    rewrite occurrences_app.
    assert (counter p (record hd o) = counter p hd + occurrences p [o]);
      [|lia].
    unfold occurrences.
    destruct o as [[]|]; destruct p;
      cbn [record counter counts List.filter length Status.bump
           Status.set_flag Status.failures Status.successes Status.rejects
           Status.fires Status.timeouts]; lia.
Qed.

Lemma flag_record obs :
  forall hd, (exists v, Status.isCircuitBreakerOpen hd = Status.FBool v) ->
    exists v, Status.isCircuitBreakerOpen (fold_left record obs hd)
              = Status.FBool v.
Proof.
  induction obs as [|o obs IH]; intros hd Hv; cbn [fold_left].
  - exact Hv.
  - apply IH. destruct o as [[]|]; cbn; eauto.
Qed.

Lemma record_ok obs hd :
  paired obs -> bucket_ok hd -> bucket_ok (fold_left record obs hd).
Proof.
  intros [Ht Hr] [Hc Hto Hrj Hf]. split.
  - intros p. rewrite counter_record.
    pose proof (Hc p). pose proof (occurrences_nonneg p obs). lia.
  - change (counter Status.Ptimeouts (fold_left record obs hd)
            <= counter Status.Pfailures (fold_left record obs hd)).
    rewrite !counter_record. cbn [counter]. lia.
  - change (counter Status.Prejects (fold_left record obs hd)
            <= counter Status.Pfires (fold_left record obs hd)).
    rewrite !counter_record. cbn [counter]. lia.
  - now apply flag_record.
Qed.

Lemma bucket_ok_fresh : bucket_ok Status.bucket.
Proof. split; [intros []; cbn; lia|cbn; lia|cbn; lia|now exists false]. Qed.

Lemma rotate_or_not (i : Input) : i = Rotate \/ i <> Rotate.
Proof. destruct i; auto; right; discriminate. Qed.

Lemma exec_Tally (i : Input) (b b' : t) :
  Inv b -> Tally b -> exec i b = Some b' -> Tally b'.
Proof.
  intros Hinv [Hlen Hok] H.
  destruct (rotate_or_not i) as [->|Hi].
  - cbn in H. injection H as <-. cbn. split.
    + cbn. rewrite removelast_firstn_len, length_take. lia.
    + constructor; [apply bucket_ok_fresh|]. now apply Forall_removelast.
  - destruct (exec_effect i b b' Hinv H Hi) as (obs & _ & _ & Hw & Hp).
    split; rewrite Hw; destruct (Status.WINDOW (STATUS b)) as [|hd rest];
      try discriminate; cbn [replay length]; try assumption.
    inversion Hok; subst. constructor; [|assumption].
    now apply record_ok.
Qed.

Lemma new_Tally (o : CircuitBreakerOptions) (b : t) :
  new true o = Some b -> Tally b.
Proof.
  intros [= <-]. split; [reflexivity|].
  cbn. repeat constructor; try (intros []; cbn; lia); try (cbn; lia);
    now exists false.
Qed.

Lemma run_Tally (trace : list Input) :
  forall b b', Inv b -> Tally b -> run trace b = Some b' -> Tally b'.
Proof.
  induction trace as [|i trace IH]; intros b b' Hb Ht H; cbn in H.
  - now injection H as <-.
  - destruct (exec i b) as [b1|] eqn:E; [|discriminate].
    eapply (IH b1); [| |exact H].
    + eapply exec_Inv; eassumption.
    + eapply exec_Tally; eassumption.
Qed.

Lemma reachable_Tally (o : CircuitBreakerOptions) (b : t) :
  reachable o b -> Tally b.
Proof.
  intros (b0 & trace & Hnew & Hrun).
  eapply run_Tally; [| |exact Hrun].
  - eapply new_Inv; eassumption.
  - eapply new_Tally; eassumption.
Qed.

Lemma track_app l m st : track (l ++ m) st = track m (track l st).
Proof. unfold track. apply fold_left_app. Qed.

Lemma replay_app l m w : replay (l ++ m) w = replay m (replay l w).
Proof. destruct w; [reflexivity|]. cbn. now rewrite fold_left_app. Qed.

Lemma total_replay p obs w :
  w <> [] ->
  total (counter p) (replay obs w) = total (counter p) w + occurrences p obs.
Proof.
  destruct w as [|hd rest]; [congruence|]. intros _.
  unfold total. cbn [replay foldr]. rewrite counter_record. lia.
Qed.

(** What a run makes of the log, the state and the counters. *)
Lemma run_effect (trace : list Input) :
  forall b b',
    Inv b -> Tally b -> run trace b = Some b' ->
    exists obs,
      log b' = log b ++ obs /\
      STATE b' = track obs (STATE b) /\
      (forall p, total (counter p) (Status.WINDOW (STATUS b'))
                 <= total (counter p) (Status.WINDOW (STATUS b))
                    + occurrences p obs) /\
      (forallb (fun i => negb (is_rotate i)) trace = true ->
       Status.WINDOW (STATUS b')
       = replay obs (Status.WINDOW (STATUS b))).
Proof.
  induction trace as [|i trace IH]; intros b b' Hinv Ht H; cbn in H.
  - injection H as <-. exists []. rewrite app_nil_r.
    split; [reflexivity|]. split; [reflexivity|]. split.
    + intros p. unfold occurrences. cbn [List.filter length]. lia.
    + intros _. now destruct (Status.WINDOW (STATUS b)).
  - destruct (exec i b) as [b1|] eqn:E; [|discriminate].
    pose proof (exec_Inv _ _ _ Hinv E) as Hinv1.
    pose proof (exec_Tally _ _ _ Hinv Ht E) as Ht1.
    destruct (IH b1 b' Hinv1 Ht1 H) as (obs2 & Hlog2 & Hst2 & Hle2 & Heq2).
    destruct (rotate_or_not i) as [->|Hi].
    + cbn in E. injection E as <-. exists obs2.
      split; [exact Hlog2|]. split; [exact Hst2|]. split.
      * intros p. specialize (Hle2 p).
        unfold Status.nextBucket in Hle2.
        cbn [STATUS set_STATUS Status.WINDOW Status.set_WINDOW] in Hle2.
        enough (total (counter p)
                  (Status.bucket :: removelast (Status.WINDOW (STATUS b)))
                <= total (counter p) (Status.WINDOW (STATUS b))) by lia.
        change (total (counter p)
                  (Status.bucket :: removelast (Status.WINDOW (STATUS b))))
          with (counter p Status.bucket
                + total (counter p)
                    (removelast (Status.WINDOW (STATUS b)))).
        assert (counter p Status.bucket = 0) as -> by now destruct p.
        rewrite Z.add_0_l. apply total_removelast.
        eapply Forall_impl; [apply (tally_buckets _ Ht)|].
        intros bk Hbk. apply (ok_counters _ Hbk).
      * cbn [forallb is_rotate negb andb]. discriminate.
    + destruct (exec_effect i b b1 Hinv E Hi)
        as (obs1 & Hlog1 & Hst1 & Hw1 & _).
      exists (obs1 ++ obs2). split; [|split; [|split]].
      * rewrite Hlog2, Hlog1. now rewrite app_assoc.
      * rewrite Hst2, Hst1. now rewrite track_app.
      * intros p. specialize (Hle2 p). rewrite Hw1 in Hle2.
        rewrite total_replay in Hle2 by apply (inv_window _ Hinv).
        rewrite occurrences_app. lia.
      * intros Hall. cbn [forallb] in Hall.
        apply andb_prop in Hall as [_ Hall].
        rewrite (Heq2 Hall), Hw1. now rewrite replay_app.
Qed.

End StepEffect.


(* ===================================================================== *)
(** * The state, the timers and the calls                                 *)
(* ===================================================================== *)

Module WiringProofs.
Import Js Common Types CircuitBreaker BreakerSpec Wp BreakerInvariants.
Import BreakerTraces BreakerSteps BreakerWiring.

Ltac wr_goals :=
  split; proj;
  [ intros ?Hst
  | intros ?tid ?d ?Hl
  | intros ?tid ?Hrt
  | intros ?Hpc
  | intros ?id ?c ?Hl ?Hp
  | intros ?id ?c ?Hl ?Haw ?Hte ].

Lemma settle_not_pending p c :
  p <> Pending -> call_promise (settle p c) <> Pending.
Proof.
  intros Hp. unfold settle.
  destruct (call_promise c) eqn:E; cbn [call_promise]; congruence.
Qed.

Ltac map_neq :=
  let E := fresh in
  intros E; subst;
  first [ lia
        | congruence
        | match goal with
          | Hn : forall id d, _ !! _ <> Some (CallTimer id d) |- _ =>
              eapply Hn; eassumption
          end ].

Ltac map_goal :=
  repeat first
    [ apply lookup_insert_eq
    | rewrite lookup_insert_ne by map_neq
    | rewrite lookup_delete_ne by map_neq ];
  try eassumption.

Ltac settled_absurd :=
  match goal with
  | H : call_promise (settle ?p ?c) = Pending |- _ =>
      exfalso; revert H; apply settle_not_pending; discriminate
  end.

(** What the invariant says of the calls at hand. *)
Ltac learn_pending Hpd Haw :=
  repeat match goal with
  | H : ?cs !! ?id = Some ?c, Ha : call_awaiting ?c = true,
    Ht : call_timeoutError ?c = false |- _ =>
      lazymatch goal with
      | _ : call_promise c = Pending |- _ => fail
      | _ => pose proof (Haw _ _ H Ha Ht)
      end
  end;
  repeat match goal with
  | H : ?cs !! ?id = Some ?c, Hp : call_promise ?c = Pending |- _ =>
      lazymatch goal with
      | _ : call_awaiting c = true /\ _ |- _ => fail
      | _ => pose proof (Hpd _ _ H Hp)
      end
  end.

Ltac handle_goal Hhd :=
  split;
  [ try lia; destruct (Hhd _ eq_refl); lia
  | let Hx := fresh "Hx" in
    intros ?id ?d Hx; lookups; simplify_eq; try lia;
    try (destruct (Hhd _ eq_refl) as [? ?Hn]; try lia;
         eapply Hn; eassumption) ].

Ltac timeout_cases :=
  try match goal with
      | H : timeout_enabled _ = _ |- _ => rewrite H in *
      end;
  try match goal with
      | |- context [match timeout_enabled ?x with _ => _ end] =>
          let E := fresh "Hto" in
          destruct (timeout_enabled x) eqn:E; rewrite ?E in *
      | H : context [match timeout_enabled ?x with _ => _ end] |- _ =>
          let E := fresh "Hto" in
          destruct (timeout_enabled x) eqn:E; rewrite ?E in *
      end;
  cbv beta iota in *.

Ltac unpack :=
  repeat match goal with
         | H : _ /\ _ |- _ => destruct H
         | H : exists _, _ |- _ => destruct H
         end.

Ltac pending_goal :=
  split; [first [assumption|reflexivity]|];
  split; [first [assumption|reflexivity]|];
  first [ assumption
        | reflexivity
        | eexists; split; [first [eassumption|reflexivity]|];
          solve [map_goal] ].

Ltac reset_goal Hrs :=
  match goal with
  | H : _ !! _ = Some (ResetTimer _) |- _ => idtac
  end;
  repeat match goal with
         | H : _ !! _ = Some (ResetTimer _) |- _ =>
             apply Hrs in H; destruct H
         end;
  solve [split; congruence | congruence].

Ltac open_goal :=
  first [ eexists; split; [reflexivity|]; solve [map_goal]
        | eexists; split; [eassumption|]; solve [map_goal] ].

Ltac wr_leaf Hop Hrs Hhd Hpc Hpd Haw :=
  wr_goals; lookups; simplify_eq; settle_simpl;
  try congruence; try solve [eauto]; try lia; try settled_absurd;
  learn_pending Hpd Haw;
  try pose proof (Hop eq_refl);
  try pose proof (Hhd _ eq_refl);
  timeout_cases; unpack; try congruence;
  bounds;
  try first [ reset_goal Hrs
            | solve [open_goal]
            | solve [handle_goal Hhd]
            | solve [pending_goal] ].

Lemma exec_Wiring (i : Input) (b b' : t) :
  Inv b -> Wiring b -> exec i b = Some b' -> Wiring b'.
Proof.
  intros Hinv [Hop Hrs Hhd Hpc Hpd Haw] H.
  pose proof (inv_timers_fresh _ Hinv) as Htf.
  pose proof (inv_calls_fresh _ Hinv) as Hcf.
  pose proof (inv_handles_fresh _ Hinv) as Hhf.
  pose proof (inv_call_timer _ Hinv) as Hct.
  destruct i as [args action|id s|tid| | |].
  - unfold exec in H. start b Hinv.
    by_wp H. destruct st, action; wp_run.
    all: wr_leaf Hop Hrs Hhd Hpc Hpd Haw.
  - apply exec_Settle_inv in H. destruct H as (c & Hc & Hcaw & H).
    start b Hinv.
    by_wp H. destruct st, s; wp_run.
    all: wr_leaf Hop Hrs Hhd Hpc Hpd Haw.
  - apply exec_Elapse_inv in H.
    destruct H as [(d & Htid & H)|(id & d & c & Htid & Hc & H)].
    + start b Hinv.
      by_wp H. wp_run. wr_leaf Hop Hrs Hhd Hpc Hpd Haw.
    + destruct (Hct _ _ _ Htid) as (c0 & Hc0 & Hh & Hte & Hp & Hcaw).
      assert (c0 = c) as -> by congruence. clear Hc0.
      start b Hinv.
      by_wp H. destruct st; wp_run.
      all: wr_leaf Hop Hrs Hhd Hpc Hpd Haw.
  - start b Hinv.
    cbn in H. injection H as <-.
    wr_leaf Hop Hrs Hhd Hpc Hpd Haw.
  - unfold exec in H. start b Hinv.
    by_wp H. destruct st; wp_run.
    all: wr_leaf Hop Hrs Hhd Hpc Hpd Haw.
  - unfold exec in H. start b Hinv.
    by_wp H. destruct st; wp_run.
    all: wr_leaf Hop Hrs Hhd Hpc Hpd Haw.
Qed.

Lemma new_Wiring (o : CircuitBreakerOptions) (b : t) :
  new true o = Some b -> Wiring b.
Proof.
  intros [= <-]. split; cbn; try discriminate;
    intros *; rewrite lookup_empty; discriminate.
Qed.

Lemma run_Wiring (trace : list Input) :
  forall b b', Inv b -> Wiring b -> run trace b = Some b' -> Wiring b'.
Proof.
  induction trace as [|i trace IH]; intros b b' Hb Hwr H; cbn in H.
  - now injection H as <-.
  - destruct (exec i b) as [b1|] eqn:E; [|discriminate].
    eapply (IH b1); [| |exact H].
    + eapply exec_Inv; eassumption.
    + eapply exec_Wiring; eassumption.
Qed.

Lemma reachable_Wiring (o : CircuitBreakerOptions) (b : t) :
  reachable o b -> Wiring b.
Proof.
  intros (b0 & trace & Hnew & Hrun).
  eapply run_Wiring; [| |exact Hrun].
  - eapply new_Inv; eassumption.
  - eapply new_Wiring; eassumption.
Qed.

(** The options of a breaker in use are those the constructor stored. *)
Lemma reachable_options (o : CircuitBreakerOptions) (b : t) :
  reachable o b -> options b = populate o.
Proof.
  intros (b0 & trace & Hnew & Hrun).
  rewrite (ev_options _ _ (run_evolves trace b0 b (new_Inv _ _ Hnew) Hrun)).
  now injection Hnew as <-.
Qed.

End WiringProofs.

Section OptionTheorems.
Import Js Common Types CircuitBreaker BreakerSpec BreakerInvariants.
Import BreakerTraces WiringProofs.

Lemma populate_idempotent (o : CircuitBreakerOptions) :
  populate (populate o) = populate o.
Proof.
  unfold populate. cbn [timeout maxFailures resetTimeout debug].
  f_equal.
  - destruct (timeout o) as [[|n]|]; try reflexivity.
    destruct (truthy n) eqn:E; [now rewrite E|reflexivity].
  - destruct (maxFailures o) as [n|]; try reflexivity.
    destruct (Number_isInteger n) eqn:E; [now rewrite E|reflexivity].
  - destruct (resetTimeout o) as [n|]; try reflexivity.
    destruct (truthy n) eqn:E; [now rewrite E|reflexivity].
Qed.

(** X1.  The options a breaker works with are, for as long as it is
    used, the ones its constructor stored: all four are defined,
    [timeout] is [false] or a truthy number, [maxFailures] is an integer,
    [resetTimeout] is a truthy number and [debug] is a boolean.
    Populating them again changes nothing, so an options object that a
    constructor has filled in gives the same breaker when it is passed to
    a constructor once more. *)
Theorem X1_options_are_populated (o : CircuitBreakerOptions) (b : t) :
  reachable o b ->
  options b = populate o /\
  populate (options b) = options b /\
  (timeout (options b) = Some TFalse \/
   exists n, timeout (options b) = Some (TNumber n) /\ truthy n = true) /\
  (exists m, maxFailures (options b) = Some (int m)) /\
  (exists n, resetTimeout (options b) = Some n /\ truthy n = true) /\
  (exists d, debug (options b) = Some d).
Proof.
  intros Hr. rewrite (reachable_options _ _ Hr).
  split; [reflexivity|]. split; [apply populate_idempotent|].
  unfold populate. cbn [timeout maxFailures resetTimeout debug].
  split; [|split; [|split]].
  - destruct (timeout o) as [[|n]|];
      [now left| |right; eexists; split; reflexivity].
    right. destruct (truthy n) eqn:E; eexists; split; try reflexivity.
    exact E.
  - destruct (maxFailures o) as [n|]; [|eauto].
    destruct (Number_isInteger n) eqn:E; [|eauto].
    destruct (isInteger_int n E) as (z & ->). eauto.
  - destruct (resetTimeout o) as [n|]; [|eexists; split; reflexivity].
    destruct (truthy n) eqn:E; eexists; split; try reflexivity. exact E.
  - eauto.
Qed.

End OptionTheorems.

Section EventTheorems.
Import Js Common Types CircuitBreaker BreakerSpec Wp BreakerInvariants.
Import BreakerTraces BreakerSteps StatusSpec StatusFacts StatusShape.
Import StatusWindow BreakerEvents StepEffect.

(** X6.  The state of a breaker is always the one named by the last
    "open", "close" or "halfOpen" event it has emitted, and closed when it
    has emitted none: no state change goes unannounced, and none of the
    three events is emitted without the change. *)
Theorem X6_state_follows_events (o : CircuitBreakerOptions) (b : t) :
  reachable o b -> STATE b = track (log b) CLOSED.
Proof.
  intros (b0 & trace & Hnew & Hrun).
  destruct (run_effect trace b0 b (new_Inv _ _ Hnew) (new_Tally _ _ Hnew)
              Hrun) as (obs & Hlog & Hst & _).
  injection Hnew as <-. cbn [log STATE app] in *. rewrite Hlog. exact Hst.
Qed.

(** X7.  Every counter of [stats] is at least 0 and at most the number of
    times the breaker has emitted the event that the counter's listener
    is registered for; as long as the window has not been rotated the
    counter is exactly that number. *)
Theorem X7_stats_count_events
    (o : CircuitBreakerOptions) (trace : list Input) (b : t) :
  boot o trace = Some b ->
  (forall p, 0 <= counter p (stats b) <= occurrences p (log b)) /\
  (forallb (fun i => negb (is_rotate i)) trace = true ->
   forall p, counter p (stats b) = occurrences p (log b)).
Proof.
  unfold boot. destruct (new true o) as [b0|] eqn:Hnew; [|discriminate].
  intros Hrun.
  pose proof (new_Inv _ _ Hnew) as Hinv0.
  pose proof (new_Tally _ _ Hnew) as Ht0.
  destruct (run_effect trace b0 b Hinv0 Ht0 Hrun)
    as (obs & Hlog & _ & Hle & Heq).
  pose proof (run_Tally trace b0 b Hinv0 Ht0 Hrun) as Ht.
  injection Hnew as <-. cbn [log STATUS app] in *. rewrite Hlog.
  unfold stats. split.
  - intros p. rewrite counter_stats. split.
    + apply total_nonneg. eapply Forall_impl; [apply (tally_buckets _ Ht)|].
      intros bk Hbk. apply (ok_counters _ Hbk).
    + specialize (Hle p).
      assert (total (counter p) (Status.WINDOW Status.new) = 0)
        by now destruct p.
      lia.
  - intros Hall p. rewrite counter_stats, (Heq Hall).
    rewrite total_replay by discriminate.
    assert (total (counter p) (Status.WINDOW Status.new) = 0)
      by now destruct p.
    lia.
Qed.

(** X8.  The window of a breaker always has ten buckets.  In every
    bucket the counters are not negative, there are at most as many
    timeouts as failures (a timeout is always counted as a failure too)
    and at most as many rejects as fires (a rejected call was fired), and
    so it is in [stats]. *)
Theorem X8_window_buckets (o : CircuitBreakerOptions) (b : t) :
  reachable o b ->
  length (Status.WINDOW (STATUS b)) = 10%nat /\
  (forall bk, In bk (Status.WINDOW (STATUS b)) ->
     (forall p, 0 <= counter p bk) /\
     Status.timeouts bk <= Status.failures bk /\
     Status.rejects bk <= Status.fires bk) /\
  Status.timeouts (stats b) <= Status.failures (stats b) /\
  Status.rejects (stats b) <= Status.fires (stats b).
Proof.
  intros Hr. destruct (reachable_Tally _ _ Hr) as [Hlen Hok].
  split; [exact Hlen|]. split; [|split].
  - intros bk Hin. rewrite Forall_forall in Hok.
    destruct (Hok bk) as [Hc Ht Hj _]; [now apply list_elem_of_In|]. auto.
  - unfold stats.
    change (counter Status.Ptimeouts (Status.stats (STATUS b))
            <= counter Status.Pfailures (Status.stats (STATUS b))).
    rewrite !counter_stats. apply total_le.
    eapply Forall_impl; [exact Hok|]. intros bk Hbk.
    apply (ok_timeouts _ Hbk).
  - unfold stats.
    change (counter Status.Prejects (Status.stats (STATUS b))
            <= counter Status.Pfires (Status.stats (STATUS b))).
    rewrite !counter_stats. apply total_le.
    eapply Forall_impl; [exact Hok|]. intros bk Hbk.
    apply (ok_rejects _ Hbk).
Qed.

End EventTheorems.

Section ResetTimerTheorems.
Import Js Common Types CircuitBreaker BreakerSpec Wp BreakerInvariants.
Import BreakerTraces BreakerSteps BreakerWiring WiringProofs.

(** X9.  A reset timer is pending exactly while the breaker is open.
    There is never more than one; it is the one [this[RESET_TIMEOUT]]
    refers to, and its delay is the populated [resetTimeout] option.  In
    particular [close()] on an open breaker leaves no reset timer behind,
    and a breaker that is closed or half open never becomes half open by
    a timer. *)
Theorem X9_reset_timer_iff_open (o : CircuitBreakerOptions) (b : t) :
  reachable o b ->
  (STATE b = OPEN ->
   exists tid, RESET_TIMEOUT b = Some tid /\
     timers b !! tid = Some (ResetTimer (resetTimeout (populate o)))) /\
  (forall tid d, timers b !! tid = Some (ResetTimer d) ->
     STATE b = OPEN /\ RESET_TIMEOUT b = Some tid /\
     d = resetTimeout (populate o)) /\
  (forall tid tid' d d',
     timers b !! tid = Some (ResetTimer d) ->
     timers b !! tid' = Some (ResetTimer d') -> tid = tid') /\
  (PENDING_CLOSE b = true -> STATE b = HALF_OPEN).
Proof.
  intros Hr. destruct (reachable_Wiring _ _ Hr) as [Hop Hrs _ Hpc _ _].
  rewrite <- (reachable_options _ _ Hr).
  split; [exact Hop|]. split; [|split; [|exact Hpc]].
  - intros tid d Ht. destruct (Hrs _ _ Ht) as [Hst Hrt].
    split; [exact Hst|]. split; [exact Hrt|].
    destruct (Hop Hst) as (tid0 & Hrt0 & Ht0). congruence.
  - intros tid tid' d d' Ht Ht'.
    destruct (Hrs _ _ Ht) as [_ Hrt]. destruct (Hrs _ _ Ht') as [_ Hrt'].
    congruence.
Qed.

(** X10.  When the reset timer elapses the breaker is open; it becomes
    half open with [PENDING_CLOSE] set and emits "halfOpen" with the
    populated [resetTimeout] as its only event.  Nothing is counted, no
    call is touched, and no reset timer is pending afterwards. *)
Theorem X10_reset_timer_half_opens
    (o : CircuitBreakerOptions) (b : t) (tid : TimerId)
    (d : option JsNumber) :
  reachable o b -> timers b !! tid = Some (ResetTimer d) ->
  STATE b = OPEN /\
  exists b',
    exec (Elapse tid) b = Some b' /\
    STATE b' = HALF_OPEN /\
    PENDING_CLOSE b' = true /\
    log b' = log b ++ [Emitted (EvHalfOpen (resetTimeout (populate o)))] /\
    STATUS b' = STATUS b /\
    calls b' = calls b /\
    timers b' = delete tid (timers b) /\
    (forall tid' d', timers b' !! tid' <> Some (ResetTimer d')).
Proof.
  intros Hr Ht. destruct (reachable_Wiring _ _ Hr) as [Hop Hrs _ _ _ _].
  rewrite <- (reachable_options _ _ Hr).
  destruct (Hrs _ _ Ht) as [Hst Hrt]. split; [exact Hst|].
  eexists. split.
  { unfold exec. rewrite Ht. reflexivity. }
  cbn. repeat split.
  intros tid' d' Ht'. apply lookup_delete_Some in Ht' as [Hne Ht'].
  destruct (Hrs _ _ Ht') as [_ Hrt']. congruence.
Qed.

(** X11.  A promise handed out by [fire] is pending exactly while the
    handlers of the action's promise are attached and the timeout of the
    call has not fired.  While it is pending and timeouts are enabled,
    the timeout of the call is armed, with the populated [timeout] option
    as its delay; with timeouts disabled the call has no timeout.
    Conversely every pending call timeout belongs to a call whose promise
    is still pending: no timeout outlives its call. *)
Theorem X11_pending_calls_have_deadlines
    (o : CircuitBreakerOptions) (b : t) :
  reachable o b ->
  (forall id c, calls b !! id = Some c ->
     (call_promise c = Pending <->
      call_awaiting c = true /\ call_timeoutError c = false) /\
     (call_promise c = Pending ->
      match timeout_enabled (timeout (populate o)) with
      | Some d => exists h, call_timeout c = Some h /\
                            timers b !! h = Some (CallTimer id d)
      | None => call_timeout c = None
      end)) /\
  (forall tid id d, timers b !! tid = Some (CallTimer id d) ->
     timeout_enabled (timeout (populate o)) = Some d /\
     exists c, calls b !! id = Some c /\ call_timeout c = Some tid /\
               call_promise c = Pending).
Proof.
  intros Hr. pose proof (reachable_Inv _ _ Hr) as Hinv.
  destruct (reachable_Wiring _ _ Hr) as [_ _ _ _ Hpd Haw].
  rewrite <- (reachable_options _ _ Hr).
  split.
  - intros id c Hc. split; [split|].
    + intros Hp. destruct (Hpd _ _ Hc Hp) as (? & ? & _). auto.
    + intros [Ha Hte]. eapply Haw; eassumption.
    + intros Hp. destruct (Hpd _ _ Hc Hp) as (_ & _ & Hm). exact Hm.
  - intros tid id d Ht.
    destruct (inv_call_timer _ Hinv _ _ _ Ht)
      as (c & Hc & Hh & Hte & Hp & Ha).
    destruct (Hpd _ _ Hc Hp) as (_ & _ & Hm).
    split; [|eauto].
    destruct (timeout_enabled (timeout (options b))) as [d'|].
    + destruct Hm as (h & Hh' & Ht'). congruence.
    + congruence.
Qed.

(** X12.  Only [close()] and the reset timer take a breaker out of the
    open state.  Whatever else happens to an open breaker (calls fired,
    outcomes and timeouts of calls let through earlier, rotations,
    [open()]), it stays open, none of "open", "close" and "halfOpen" is
    emitted, and the reset timer that is pending stays the same: late
    failures do not postpone the half-open probe. *)
Theorem X12_open_is_stable
    (o : CircuitBreakerOptions) (b b' : t) (i : Input) :
  reachable o b -> STATE b = OPEN -> exec i b = Some b' ->
  i <> ManualClose ->
  (forall tid, i = Elapse tid -> RESET_TIMEOUT b <> Some tid) ->
  STATE b' = OPEN /\
  RESET_TIMEOUT b' = RESET_TIMEOUT b /\
  (forall tid, RESET_TIMEOUT b = Some tid ->
     timers b' !! tid = timers b !! tid) /\
  (forall obs, log b' = log b ++ obs ->
     ~ In (Emitted EvOpen) obs /\ ~ In (Emitted EvClose) obs /\
     forall d, ~ In (Emitted (EvHalfOpen d)) obs).
Proof.
  intros Hr Hst H Hmc Hel. pose proof (reachable_Inv _ _ Hr) as Hinv.
  pose proof (reachable_Wiring _ _ Hr) as Hwr.
  assert (Hwr' : Wiring b') by (eapply exec_Wiring; eassumption).
  pose proof (ev_options _ _ (exec_evolves _ _ _ Hinv H)) as Hopt.
  enough (Hmain : STATE b' = OPEN /\ RESET_TIMEOUT b' = RESET_TIMEOUT b /\
            forall obs, log b' = log b ++ obs ->
              ~ In (Emitted EvOpen) obs /\ ~ In (Emitted EvClose) obs /\
              forall d, ~ In (Emitted (EvHalfOpen d)) obs).
  { destruct Hmain as (Hst' & Hrt' & Hlog). repeat split; try assumption.
    - intros tid Hrt.
      destruct (wr_open _ Hwr Hst) as (t0 & Ht0 & Hl0).
      destruct (wr_open _ Hwr' Hst') as (t1 & Ht1 & Hl1).
      assert (t0 = tid) as -> by congruence.
      assert (t1 = tid) as -> by congruence.
      rewrite Hl0, Hl1. now rewrite Hopt.
    - apply Hlog. assumption.
    - apply Hlog. assumption.
    - apply Hlog. assumption. }
  clear Hwr' Hopt.
  assert (Hleaf : forall (lg obs0 obs : list Obs),
            lg ++ obs0 = lg ++ obs ->
            (~ In (Emitted EvOpen) obs0 /\ ~ In (Emitted EvClose) obs0 /\
             forall d, ~ In (Emitted (EvHalfOpen d)) obs0) ->
            ~ In (Emitted EvOpen) obs /\ ~ In (Emitted EvClose) obs /\
            forall d, ~ In (Emitted (EvHalfOpen d)) obs).
  { intros lg obs0 obs E. apply app_inv_head in E. now subst. }
  destruct i as [args action|id s|tid| | |]; [| | | |congruence|].
  - unfold exec in H. start b Hinv. subst st.
    by_wp H. destruct action; wp_run.
    all: split; [reflexivity|]; split; [reflexivity|].
    all: intros obs Hobs; rewrite <- ?app_assoc in Hobs;
      apply (Hleaf _ _ _ Hobs); cbn; intuition discriminate.
  - apply exec_Settle_inv in H. destruct H as (c & Hc & Haw & H).
    start b Hinv. subst st.
    by_wp H. destruct s; wp_run.
    all: split; [reflexivity|]; split; [reflexivity|].
    all: intros obs Hobs; rewrite <- ?app_assoc in Hobs;
      lazymatch type of Hobs with
      | ?l = ?l ++ _ => rewrite <- (app_nil_r l) in Hobs at 1
      | _ => idtac
      end;
      apply (Hleaf _ _ _ Hobs); cbn; intuition discriminate.
  - apply exec_Elapse_inv in H.
    destruct H as [(d & Htid & H)|(id & d & c & Htid & Hc & H)].
    + destruct (wr_reset _ Hwr _ _ Htid) as [_ Hrt].
      now destruct (Hel tid eq_refl).
    + start b Hinv. subst st.
      by_wp H. wp_run.
      all: split; [reflexivity|]; split; [reflexivity|].
      all: intros obs Hobs; rewrite <- ?app_assoc in Hobs;
        apply (Hleaf _ _ _ Hobs); cbn; intuition discriminate.
  - cbn in H. injection H as <-. cbn [STATE RESET_TIMEOUT log set_STATUS].
    split; [exact Hst|]. split; [reflexivity|].
    intros obs Hobs. rewrite <- (app_nil_r (log b)) in Hobs at 1.
    apply (Hleaf _ _ _ Hobs). cbn. intuition.
  - unfold exec in H. start b Hinv. subst st.
    by_wp H. wp_run.
    split; [reflexivity|]; split; [reflexivity|].
    intros obs Hobs. rewrite <- (app_nil_r lg) in Hobs at 1.
    apply (Hleaf _ _ _ Hobs). cbn. intuition.
Qed.

End ResetTimerTheorems.


(* ===================================================================== *)
(** * Calls and their outcomes                                            *)
(* ===================================================================== *)

Module CallSteps.
Import Js Common Types CircuitBreaker BreakerSpec Wp BreakerInvariants.
Import BreakerTraces BreakerSteps BreakerWiring WiringProofs Admission.

Ltac stats_goal :=
  unfold stats; cbn [STATUS set_STATUS set_log set_STATE set_calls
                     set_PENDING_CLOSE set_RESET_TIMEOUT
                     set_next_timer set_timers set_next_call];
  repeat match goal with
         | H : context [Status.stats] |- _ => stats_norm_in H
         end; stats_norm.

Ltac timer_gone Hlt :=
  let h := fresh "h" in let Hh := fresh "Hh" in
  intros h Hh; pose proof (Hlt _ Hh); simplify_eq;
  repeat first [ apply lookup_delete_eq
               | rewrite lookup_insert_ne by lia
               | apply lookup_delete_None; right ].

Ltac trips_goal :=
  repeat match goal with
         | H : context [int ?x] |- context [int ?y] =>
             progress (replace y with x by lia)
         end;
  repeat match goal with
         | H : ?x = _ |- context [?x] => rewrite H
         end;
  cbn [andb negb state_eqb orb];
  rewrite <- ?app_assoc; try reflexivity;
  rewrite ?orb_true_r in *; try discriminate; try reflexivity.

(** A call fired on a breaker that is not open, with an action that
    returns a promise. *)
Lemma call_let_through (b : t) (args : list JsValue) :
  Inv b -> opened b = false ->
  exists b',
    call args ReturnsPromise b = Some (next_call b, b') /\
    log b' = log b ++ [Emitted (EvFire args); Invoked (next_call b) args] /\
    STATE b' = STATE b /\
    PENDING_CLOSE b' = false /\
    Status.fires (stats b') = Status.fires (stats b) + 1 /\
    Status.failures (stats b') = Status.failures (stats b) /\
    Status.successes (stats b') = Status.successes (stats b) /\
    Status.timeouts (stats b') = Status.timeouts (stats b) /\
    Status.rejects (stats b') = Status.rejects (stats b) /\
    (forall id, id <> next_call b -> calls b' !! id = calls b !! id) /\
    match timeout_enabled (timeout (options b)) with
    | Some d =>
        calls b' !! next_call b
          = Some (mkCall args (Some (next_timer b)) false Pending true) /\
        timers b' = <[next_timer b := CallTimer (next_call b) d]> (timers b)
    | None =>
        calls b' !! next_call b = Some (mkCall args None false Pending true) /\
        timers b' = timers b
    end.
Proof.
  intros Hinv Hop. apply wp_result.
  start b Hinv. unfold opened in Hop. cbn [STATE] in Hop.
  destruct st; try discriminate; unfold call; wp_run.
  all: split; [reflexivity|].
  all: refine (conj _ (conj _ (conj _ (conj _ (conj _ (conj _ (conj _
                 (conj _ (conj _ _))))))))).
  all: try (rewrite <- ?app_assoc; reflexivity).
  all: try (stats_goal; lia).
  all: try (intros id Hne; rewrite ?lookup_alter_ne, ?lookup_insert_ne by done;
            reflexivity).
  all: split; [rewrite ?lookup_alter_eq, lookup_insert_eq; reflexivity
              |reflexivity].
Qed.

Lemma invocations_app l m :
  invocations (l ++ m) = invocations l ++ invocations m.
Proof. unfold invocations. apply omap_app. Qed.

End CallSteps.

Section CallTheorems.
Import Js Common Types CircuitBreaker BreakerSpec Wp BreakerInvariants.
Import BreakerTraces BreakerSteps BreakerWiring WiringProofs.
Import Provenance Admission Progress CallSteps.

(** X13.  A call fired while the breaker is closed or half open, with an
    action that returns a promise, emits "fire" and invokes the action
    once, with the arguments given.  It counts one fire and nothing else,
    clears [PENDING_CLOSE] and leaves the state as it is.  The promise
    returned is pending; when timeouts are enabled one new timer is
    armed for it, with the populated [timeout] as its delay, and when
    they are disabled no timer is armed.  No other call is touched. *)
Theorem X13_call_let_through
    (o : CircuitBreakerOptions) (b : t) (args : list JsValue) :
  reachable o b -> opened b = false ->
  exists b',
    call args ReturnsPromise b = Some (next_call b, b') /\
    log b' = log b ++ [Emitted (EvFire args); Invoked (next_call b) args] /\
    STATE b' = STATE b /\
    PENDING_CLOSE b' = false /\
    Status.fires (stats b') = Status.fires (stats b) + 1 /\
    Status.failures (stats b') = Status.failures (stats b) /\
    Status.successes (stats b') = Status.successes (stats b) /\
    Status.timeouts (stats b') = Status.timeouts (stats b) /\
    Status.rejects (stats b') = Status.rejects (stats b) /\
    (forall id, id <> next_call b -> calls b' !! id = calls b !! id) /\
    match timeout_enabled (timeout (populate o)) with
    | Some d =>
        calls b' !! next_call b
          = Some (mkCall args (Some (next_timer b)) false Pending true) /\
        timers b' = <[next_timer b := CallTimer (next_call b) d]> (timers b)
    | None =>
        calls b' !! next_call b = Some (mkCall args None false Pending true) /\
        timers b' = timers b
    end.
Proof.
  intros Hr Hop. rewrite <- (reachable_options _ _ Hr).
  apply call_let_through; [|exact Hop].
  exact (reachable_Inv _ _ Hr).
Qed.

(** X14.  While the breaker is not open every call is let through: any
    number of calls fired one after the other, before any of them has an
    outcome, all invoke the action, in order, and none is rejected.  This
    holds in the half-open state as in the closed one: half open does not
    limit the number of probes. *)
Theorem X14_calls_pass_unless_open
    (o : CircuitBreakerOptions) (b : t) (argss : list (list JsValue)) :
  reachable o b -> opened b = false ->
  exists b',
    run (fire_all argss) b = Some b' /\
    STATE b' = STATE b /\
    invocations (log b') = invocations (log b) ++ argss /\
    Status.fires (stats b') = Status.fires (stats b)
                              + Z.of_nat (length argss) /\
    Status.rejects (stats b') = Status.rejects (stats b) /\
    (argss <> [] -> PENDING_CLOSE b' = false).
Proof.
  intros Hr Hop. pose proof (reachable_Inv _ _ Hr) as Hinv. clear Hr.
  revert b Hinv Hop.
  induction argss as [|args argss IH]; intros b Hinv Hop.
  - exists b. cbn [fire_all map run length]. rewrite app_nil_r.
    repeat split; try lia. congruence.
  - destruct (call_let_through b args Hinv Hop)
      as (b1 & Hcall & Hlog & Hst & Hpc & Hf & _ & _ & _ & Hrj & _).
    assert (Hexec : exec (Fire args ReturnsPromise) b = Some b1).
    { unfold exec. now rewrite Hcall. }
    assert (Hop1 : opened b1 = false).
    { unfold opened in *. now rewrite Hst. }
    destruct (IH b1 (exec_Inv _ _ _ Hinv Hexec) Hop1)
      as (b' & Hrun & Hst' & Hinv' & Hf' & Hrj' & Hpc').
    exists b'. cbn [fire_all map run]. rewrite Hexec.
    split; [exact Hrun|]. split; [congruence|]. split; [|split; [|split]].
    + rewrite Hinv', Hlog, invocations_app. cbn. now rewrite <- app_assoc.
    + rewrite Hf', Hf. cbn [length]. lia.
    + congruence.
    + intros _. destruct argss as [|a argss].
      * cbn in Hrun. injection Hrun as <-. exact Hpc.
      * apply Hpc'. discriminate.
Qed.

(** X15.  When the action's promise is fulfilled before the timeout of
    the call has fired, "success" is emitted and counted, the promise
    returned by [fire] is fulfilled with the action's value, and the
    timeout of the call is cleared.  No other counter moves: in
    particular a success never lowers the failure count.  The state
    changes only if the breaker was half open, in which case it closes
    and emits "close". *)
Theorem X15_success_is_counted
    (o : CircuitBreakerOptions) (b : t) (id : CallId) (c : Call)
    (v : JsValue) :
  reachable o b -> calls b !! id = Some c ->
  call_awaiting c = true -> call_timeoutError c = false ->
  exists b',
    exec (Settle id (Resolves v)) b = Some b' /\
    log b' = log b ++ Emitted EvSuccess
                   :: (if halfOpen b then [Emitted EvClose] else []) /\
    STATE b' = (if halfOpen b then CLOSED else STATE b) /\
    Status.successes (stats b') = Status.successes (stats b) + 1 /\
    Status.failures (stats b') = Status.failures (stats b) /\
    Status.timeouts (stats b') = Status.timeouts (stats b) /\
    Status.fires (stats b') = Status.fires (stats b) /\
    Status.rejects (stats b') = Status.rejects (stats b) /\
    calls b' !! id
      = Some (mkCall (call_args c) (call_timeout c) false (Fulfilled v)
                     false) /\
    (forall h, call_timeout c = Some h -> timers b' !! h = None).
Proof.
  intros Hr Hc Haw Hte. pose proof (reachable_Inv _ _ Hr) as Hinv.
  pose proof (wr_awaiting _ (reachable_Wiring _ _ Hr) _ _ Hc Haw Hte) as Hp.
  pose proof (fun h => inv_handles_fresh _ Hinv _ _ h Hc) as Hlt.
  rewrite (exec_Settle_eq _ _ _ _ Hc Haw). apply wp_fmap_intro.
  clear Hr. start b Hinv.
  unfold halfOpen. cbn [STATE].
  destruct c as [cargs cto cte cp caw]. cbn in Haw, Hte, Hp, Hlt. subst.
  destruct st; unfold on_fulfilled; cbn [call_timeoutError call_timeout negb];
    wp_run.
  all: refine (conj _ (conj _ (conj _ (conj _ (conj _ (conj _ (conj _
                 (conj _ _)))))))).
  all: try (rewrite <- ?app_assoc; reflexivity).
  all: try (stats_goal; lia).
  all: try (rewrite !lookup_alter_eq, Hc; reflexivity).
  all: try (timer_gone Hlt).
  all: try discriminate.
Qed.

(** X16.  When the action's promise is rejected before the timeout of the
    call has fired, "failure" is emitted with the action's error and the
    arguments of the call and is counted, the rule of [fail] decides
    whether the breaker opens, the promise returned by [fire] is rejected
    with the very error of the action, and the timeout of the call is
    cleared.  No other counter moves. *)
Theorem X16_rejection_is_a_failure
    (o : CircuitBreakerOptions) (b : t) (id : CallId) (c : Call)
    (e : JsValue) :
  reachable o b -> calls b !! id = Some c ->
  call_awaiting c = true -> call_timeoutError c = false ->
  exists b',
    exec (Settle id (Rejects e)) b = Some b' /\
    log b' = log b ++ Emitted (EvFailure e (call_args c))
                   :: (if trips b && negb (opened b)
                       then [Emitted EvOpen] else []) /\
    STATE b' = (if trips b then OPEN else STATE b) /\
    Status.failures (stats b') = Status.failures (stats b) + 1 /\
    Status.successes (stats b') = Status.successes (stats b) /\
    Status.timeouts (stats b') = Status.timeouts (stats b) /\
    Status.fires (stats b') = Status.fires (stats b) /\
    Status.rejects (stats b') = Status.rejects (stats b) /\
    calls b' !! id
      = Some (mkCall (call_args c) (call_timeout c) false (Rejected e)
                     false) /\
    (forall h, call_timeout c = Some h -> timers b' !! h = None).
Proof.
  intros Hr Hc Haw Hte. pose proof (reachable_Inv _ _ Hr) as Hinv.
  pose proof (wr_awaiting _ (reachable_Wiring _ _ Hr) _ _ Hc Haw Hte) as Hp.
  pose proof (fun h => inv_handles_fresh _ Hinv _ _ h Hc) as Hlt.
  rewrite (exec_Settle_eq _ _ _ _ Hc Haw). apply wp_fmap_intro.
  clear Hr. start b Hinv.
  unfold trips, stats, halfOpen, opened. cbn [STATUS STATE options].
  destruct c as [cargs cto cte cp caw]. cbn in Haw, Hte, Hp, Hlt. subst.
  destruct st; unfold on_rejected;
    cbn [call_timeoutError call_timeout call_args negb]; wp_run.
  all: refine (conj _ (conj _ (conj _ (conj _ (conj _ (conj _ (conj _
                 (conj _ _)))))))).
  all: try (rewrite !lookup_alter_eq, Hc; reflexivity).
  all: try (timer_gone Hlt).
  all: stats_goal.
  all: try lia.
  all: trips_goal.
Qed.

Ltac prov_leaf Hcf :=
  cbn [calls timers next_call STATE]; intros ?Hl ?Hp;
  lookups; simplify_eq; settle_simpl;
  try (match goal with
       | H : _ !! ?x = Some _ |- _ => apply Hcf in H; lia
       end);
  try congruence;
  try (match goal with
       | |- context [call_promise (settle ?p ?y)] =>
           destruct (settle_promise_cases p y) as [[? ->]|[? ->]];
           cbn [detach call_promise] in *
       end);
  try congruence;
  first
    [ left; eexists; split; [eassumption|]; split; [assumption|reflexivity]
    | left; eexists; split; [eassumption|]; split; congruence
    | right; left; eexists; split; reflexivity
    | right; right; left; eexists; split; reflexivity
    | right; right; right; left; eexists _, _; repeat split; reflexivity
    | right; right; right; right; left; eexists _, _; repeat split;
      reflexivity
    | right; right; right; right; right; eexists _, _; split; [reflexivity|];
      split; [eassumption|reflexivity] ].

(** X17.  A promise handed out by [fire] is settled once and only by its
    own call.  Whenever a call's promise is settled after a step, it was
    either settled before the step, with the same outcome, or the step
    is one of: the action's promise fulfilled (the promise takes the
    action's value), the action's promise rejected or the action throwing
    (it takes the action's error, unchanged), the call's own timeout
    elapsing (it takes the [Error] named "CircuitBreaker" whose message
    is "ETIMEDOUT"), or the call being fired on an open breaker (it takes
    the [Error] named "CircuitBreaker" whose message is "EOPENBREAKER").
    The two errors differ, and they differ from whatever the action
    fulfils or rejects with only by their value: the breaker adds no
    other mark. *)
Theorem X17_promise_provenance
    (o : CircuitBreakerOptions) (b b' : t) (i : Input) (id : CallId)
    (c' : Call) :
  reachable o b -> exec i b = Some b' ->
  calls b' !! id = Some c' -> call_promise c' <> Pending ->
  settled_by i id b c'.
Proof.
  intros Hr H. pose proof (reachable_Inv _ _ Hr) as Hinv.
  pose proof (inv_calls_fresh _ Hinv) as Hcf.
  unfold settled_by, opened.
  destruct i as [args action|id1 s|tid| | |].
  - unfold exec in H. start b Hinv.
    by_wp H. destruct st, action; wp_run.
    all: prov_leaf Hcf.
  - apply exec_Settle_inv in H. destruct H as (c & Hc & Haw & H).
    start b Hinv.
    by_wp H. destruct st, s; wp_run.
    all: prov_leaf Hcf.
  - apply exec_Elapse_inv in H.
    destruct H as [(d & Htid & H)|(id0 & d & c & Htid & Hc & H)].
    + start b Hinv. by_wp H. wp_run. prov_leaf Hcf.
    + start b Hinv. by_wp H. destruct st; wp_run.
      all: prov_leaf Hcf.
  - start b Hinv. cbn in H. injection H as <-. prov_leaf Hcf.
  - unfold exec in H. start b Hinv.
    by_wp H. destruct st; wp_run.
    all: prov_leaf Hcf.
  - unfold exec in H. start b Hinv.
    by_wp H. destruct st; wp_run.
    all: prov_leaf Hcf.
Qed.

(** X18.  On a breaker in use nothing throws: [fire] and [call] always
    return a promise, whatever the action does; [open()] and [close()]
    always return; and every handler the breaker has attached to an
    action's promise and every callback it has handed to [setTimeout]
    runs to its end when the host calls it.  The TypeError that
    [this[WINDOW][0]] would raise on an empty window never occurs. *)
Theorem X18_methods_never_throw
    (o : CircuitBreakerOptions) (b : t) (i : Input) :
  reachable o b ->
  (enabled i b <-> exists b', exec i b = Some b') /\
  (exists r, close b = Some r) /\
  (exists r, open b = Some r) /\
  (forall args action, exists r, call args action b = Some r).
Proof.
  intros Hr. pose proof (reachable_Inv _ _ Hr) as Hinv.
  assert (Hcall : forall args action,
            wp (call args action) (fun _ _ => True) b).
  { intros args action. clear Hr. start b Hinv.
    destruct st, action; unfold call; wp_run; constructor. }
  assert (Hclose : wp close (fun _ _ => True) b).
  { clear Hr Hcall. start b Hinv. destruct st; wp_run; constructor. }
  assert (Hopen : wp open (fun _ _ => True) b).
  { clear Hr Hcall Hclose. start b Hinv. destruct st; wp_run; constructor. }
  split; [|split; [|split]].
  - split.
    + intros Hen. destruct i as [args action|id s|tid| | |]; cbn in Hen.
      * unfold exec. destruct (Hcall args action) as (a & b' & E & _).
        rewrite E. eauto.
      * destruct Hen as (c & Hc & Haw).
        rewrite (exec_Settle_eq _ _ _ _ Hc Haw).
        enough (exists b', snd <$> match s with
                                   | Resolves v => on_fulfilled id c v
                                   | Rejects e => on_rejected id c e
                                   end b = Some b' /\ True)
          as (b' & E & _) by eauto.
        apply wp_fmap_intro. clear Hr Hcall Hclose Hopen. start b Hinv.
        destruct st, s; wp_run; constructor.
      * destruct Hen as ([d|id d] & Ht).
        -- unfold exec. rewrite Ht. cbn. eauto.
        -- destruct (inv_call_timer _ Hinv _ _ _ Ht) as (c & Hc & _).
           rewrite (exec_Elapse_call_eq _ _ _ _ _ Ht Hc).
           enough (exists b', snd <$> on_timeout id c
                     (set_timers (delete tid (timers b)) b) = Some b'
                     /\ True) as (b' & E & _) by eauto.
           apply wp_fmap_intro. clear Hr Hcall Hclose Hopen. start b Hinv.
           destruct st; wp_run; constructor.
      * cbn. eauto.
      * unfold exec. destruct Hclose as (a & b' & E & _). rewrite E. eauto.
      * unfold exec. destruct Hopen as (a & b' & E & _). rewrite E. eauto.
    + intros (b' & E). destruct i as [args action|id s|tid| | |]; cbn;
        try exact I.
      * apply exec_Settle_inv in E as (c & Hc & Haw & _). eauto.
      * unfold exec in E. destruct (timers b !! tid); [eauto|discriminate].
  - destruct Hclose as (a & b' & E & _). eauto.
  - destruct Hopen as (a & b' & E & _). eauto.
  - intros args action. destruct (Hcall args action) as (a & b' & E & _).
    eauto.
Qed.

End CallTheorems.

Section SerialisationTheorems.
Import Js Common Types CircuitBreaker BreakerSpec BreakerInvariants.
Import BreakerTraces BreakerWiring WiringProofs BreakerEvents StepEffect.
Import Serialisation StatusShape StatusWindow.

(** X19.  [toJSON] reports exactly one of [closed], [open] and
    [halfOpen] as true, the one of the breaker's state; [open] is true
    exactly while a reset timer is pending.  Its [stats] are those of the
    [stats] getter: counters that are not negative and, for
    [isCircuitBreakerOpen], the number of buckets of the window in which
    the flag is set. *)
Theorem X19_toJSON (o : CircuitBreakerOptions) (b : t) :
  reachable o b ->
  json_state (toJSON b)
  = match STATE b with
    | CLOSED => mkStateJSON true false false
    | OPEN => mkStateJSON false true false
    | HALF_OPEN => mkStateJSON false false true
    end /\
  (json_open (json_state (toJSON b)) = true <->
   exists tid d, timers b !! tid = Some (ResetTimer d)) /\
  json_stats (toJSON b) = stats b /\
  (forall p, 0 <= counter p (json_stats (toJSON b))) /\
  Status.isCircuitBreakerOpen (json_stats (toJSON b))
  = Status.FNum (Z.of_nat (length (List.filter flagged
                                     (Status.WINDOW (STATUS b))))).
Proof.
  intros Hr. destruct (reachable_Tally _ _ Hr) as [Hlen Hok].
  destruct (reachable_Wiring _ _ Hr) as [Hop Hrs _ _ _ _].
  unfold toJSON. cbn [json_state json_stats json_open].
  split; [|split; [|split; [|split]]].
  - unfold closed, opened, halfOpen. now destruct (STATE b).
  - unfold opened. split.
    + intros Ho. destruct (STATE b) eqn:E; try discriminate.
      destruct (Hop eq_refl) as (tid & _ & Ht). eauto.
    + intros (tid & d & Ht). destruct (Hrs _ _ Ht) as [-> _]. reflexivity.
  - reflexivity.
  - intros p. unfold stats. rewrite counter_stats.
    apply total_nonneg. eapply Forall_impl; [exact Hok|].
    intros bk Hbk. apply (ok_counters _ Hbk).
  - unfold stats, Status.stats. rewrite flag_count.
    + reflexivity.
    + eapply Forall_impl; [exact Hok|]. intros bk Hbk. apply (ok_flag _ Hbk).
    + intros E. rewrite E in Hlen. discriminate.
Qed.

End SerialisationTheorems.

(* ===================================================================== *)
(** * Every call is counted once                                          *)
(* ===================================================================== *)

Module LedgerProofs.
Import Js Common Types CircuitBreaker BreakerSpec Wp BreakerInvariants.
Import BreakerTraces BreakerSteps BreakerWiring WiringProofs.
Import BreakerEvents StepEffect Accounting.

Lemma tally_ext P (m m' : gmap CallId Call) n :
  (forall id, (id < n)%nat -> m !! id = m' !! id) ->
  tally_calls P m n = tally_calls P m' n.
Proof.
  induction n as [|k IH]; intros H; cbn [tally_calls]; [reflexivity|].
  rewrite IH by (intros; apply H; lia). rewrite (H k) by lia. reflexivity.
Qed.

Lemma tally_insert P (m : gmap CallId Call) n c :
  tally_calls P (<[n:=c]> m) (S n)
  = tally_calls P m n + (if P c then 1 else 0).
Proof.
  cbn [tally_calls]. rewrite lookup_insert_eq. f_equal.
  apply tally_ext. intros id Hid. apply lookup_insert_ne. lia.
Qed.

Lemma tally_alter P (m : gmap CallId Call) n id c f :
  (id < n)%nat -> m !! id = Some c ->
  tally_calls P (alter f id m) n
  = tally_calls P m n - (if P c then 1 else 0) + (if P (f c) then 1 else 0).
Proof.
  intros Hid Hc. induction n as [|k IH]; [lia|]. cbn [tally_calls].
  destruct (decide (k = id)) as [->|Hne].
  - rewrite lookup_alter_eq, Hc. cbn [fmap option_fmap option_map].
    rewrite (tally_ext P (alter f id m) m).
    + lia.
    + intros j Hj. apply lookup_alter_ne. lia.
  - rewrite lookup_alter_ne by congruence. rewrite IH by lia. lia.
Qed.

Ltac occ_norm :=
  rewrite ?occurrences_app; unfold occurrences;
  cbn [List.filter counts length app].

Ltac ledger_leaf Hcf :=
  split; unfold count_calls;
  cbn [calls next_call log set_calls set_next_call set_log set_timers
       set_next_timer set_STATE set_STATUS set_PENDING_CLOSE
       set_RESET_TIMEOUT];
  rewrite ?alter_alter_eq, ?alter_insert_eq;
  try rewrite tally_insert;
  try (erewrite tally_alter; [|eapply Hcf; eassumption|eassumption]);
  unfold compose, settle, detach;
  cbn [is_fulfilled is_rejected is_pending call_promise call_args call_timeout
       call_timeoutError call_awaiting];
  rewrite <- ?app_assoc; occ_norm;
  repeat match goal with
         | |- context [match ?p with Pending => _ | _ => _ end] =>
             destruct p
         end;
  unfold count_calls, occurrences in *; cbn [calls next_call log] in *; lia.

Lemma exec_Ledger (i : Input) (b b' : t) :
  Inv b -> Wiring b -> Ledger b -> exec i b = Some b' -> Ledger b'.
Proof.
  intros Hinv Hwr [H1 H2 H3 H4] H.
  pose proof (inv_calls_fresh _ Hinv) as Hcf.
  destruct i as [args action|id s|tid| | |].
  - unfold exec in H. start b Hinv.
    by_wp H. destruct st, action; wp_run.
    all: ledger_leaf Hcf.
  - apply exec_Settle_inv in H. destruct H as (c & Hc & Haw & H).
    pose proof (wr_awaiting _ Hwr _ _ Hc Haw) as Hp.
    start b Hinv.
    destruct c as [cargs cto cte cp caw]. cbn in Haw, Hp. subst.
    destruct cte; [destruct cp|specialize (Hp eq_refl); subst cp].
    all: by_wp H; destruct st, s; wp_run.
    all: try match goal with
             | H : call_timeoutError _ = _ |- _ => cbn in H; discriminate
             end.
    all: ledger_leaf Hcf.
  - apply exec_Elapse_inv in H.
    destruct H as [(d & Htid & H)|(id & d & c & Htid & Hc & H)].
    + start b Hinv. by_wp H. wp_run. ledger_leaf Hcf.
    + destruct (inv_call_timer _ Hinv _ _ _ Htid)
        as (c0 & Hc0 & Hh & Hte & Hp & Haw).
      assert (c0 = c) as -> by congruence. clear Hc0.
      start b Hinv.
      destruct c as [cargs cto cte cp caw]. cbn in Hh, Hte, Hp, Haw. subst.
      by_wp H. destruct st; wp_run.
      all: ledger_leaf Hcf.
  - start b Hinv. cbn in H. injection H as <-. ledger_leaf Hcf.
  - unfold exec in H. start b Hinv.
    by_wp H. destruct st; wp_run.
    all: ledger_leaf Hcf.
  - unfold exec in H. start b Hinv.
    by_wp H. destruct st; wp_run.
    all: ledger_leaf Hcf.
Qed.

Lemma new_Ledger (o : CircuitBreakerOptions) (b : t) :
  new true o = Some b -> Ledger b.
Proof. intros [= <-]. split; reflexivity. Qed.

Lemma reachable_Ledger (o : CircuitBreakerOptions) (b : t) :
  reachable o b -> Ledger b.
Proof.
  intros (b0 & trace & Hnew & Hrun).
  pose proof (new_Inv _ _ Hnew) as Hinv.
  pose proof (new_Wiring _ _ Hnew) as Hwr.
  pose proof (new_Ledger _ _ Hnew) as Hld.
  clear Hnew. revert b0 Hinv Hwr Hld Hrun.
  induction trace as [|i trace IH]; intros b0 Hinv Hwr Hld Hrun;
    cbn in Hrun.
  - now injection Hrun as <-.
  - destruct (exec i b0) as [b1|] eqn:E; [|discriminate].
    apply (IH b1); try assumption.
    + eapply exec_Inv; eassumption.
    + eapply exec_Wiring; eassumption.
    + eapply exec_Ledger; eassumption.
Qed.

End LedgerProofs.

Section LedgerTheorems.
Import Js Common Types CircuitBreaker BreakerSpec BreakerEvents Accounting.
Import LedgerProofs.

(** X20.  Every call is counted once.  The number of promises handed out
    is the number of "fire" events; the number of them that are fulfilled
    is the number of "success" events; the number that are rejected is
    the number of "failure" events plus the number of "reject" events;
    and the number still pending is what remains.  A timeout followed by
    the late outcome of the action counts as one failure, not two
    outcomes. *)
Theorem X20_calls_are_counted_once (o : CircuitBreakerOptions) (b : t) :
  reachable o b ->
  Z.of_nat (next_call b) = occurrences Status.Pfires (log b) /\
  count_calls is_fulfilled b = occurrences Status.Psuccesses (log b) /\
  count_calls is_rejected b
  = occurrences Status.Pfailures (log b)
    + occurrences Status.Prejects (log b) /\
  count_calls is_pending b
  = occurrences Status.Pfires (log b)
    - occurrences Status.Psuccesses (log b)
    - occurrences Status.Pfailures (log b)
    - occurrences Status.Prejects (log b).
Proof.
  intros Hr. destruct (reachable_Ledger _ _ Hr) as [H1 H2 H3 H4].
  split; [exact H1|]. split; [exact H2|]. split; [exact H3|exact H4].
Qed.

End LedgerTheorems.

(* ===================================================================== *)
(** * The logger and the Status that logs                                 *)
(* ===================================================================== *)

Section LoggerTheorems.
Import Logger LoggerSpec.

Lemma write_all_app l es1 es2 c :
  write_all l (es1 ++ es2) c = write_all l es2 (write_all l es1 c).
Proof. unfold write_all. apply fold_left_app. Qed.

(** X21.  What a [Logger] writes.  Constructed without a level it is
    at level 1: [error] writes a line with [console.error], the module
    name and [::error] between brackets, a colon, a space and the
    message, and [debug] writes nothing.  At level 2 both write, [debug]
    with [console.debug] and no colon; the lines appear in the order of
    the calls and nothing already on the console is changed.  Below
    level 1 nothing is written. *)
Theorem X21_logger_levels (m : string) (es : list Entry) (c : Console) :
  write_all (new m None) es c
  = c ++ map (fun msg =>
                (ConsoleError,
                 String.append "["
                   (String.append m (String.append "::error]: " msg))))
             (errors es) /\
  write_all (new m (Some 2)) es c
  = c ++ map (fun e =>
                match e with
                | (ConsoleDebug, msg) =>
                    (ConsoleDebug,
                     String.append "["
                       (String.append m (String.append "::debug] " msg)))
                | (ConsoleError, msg) =>
                    (ConsoleError,
                     String.append "["
                       (String.append m (String.append "::error]: " msg)))
                end) (messages es) /\
  (forall l, level l < 1 -> write_all l es c = c).
Proof.
  split; [|split].
  - revert c. induction es as [|e es IH]; intros c.
    + cbn. now rewrite app_nil_r.
    + unfold write_all in *. cbn [fold_left]. rewrite IH.
      destruct e as [msg|msg]; cbn.
      * reflexivity.
      * now rewrite <- app_assoc.
  - revert c. induction es as [|e es IH]; intros c.
    + cbn. now rewrite app_nil_r.
    + unfold write_all in *. cbn [fold_left]. rewrite IH.
      destruct e as [msg|msg]; cbn; now rewrite <- app_assoc.
  - intros l Hl. revert c. induction es as [|e es IH]; intros c.
    + reflexivity.
    + unfold write_all in *. cbn [fold_left]. rewrite <- (IH c) at 2.
      f_equal. destruct e as [msg|msg]; unfold write, debug, error.
      * destruct (Z.leb_spec 2 (level l)); [lia|reflexivity].
      * destruct (Z.leb_spec 1 (level l)); [lia|reflexivity].
Qed.

End LoggerTheorems.

Section LoggedStatusTheorems.
Import Logger LoggedStatus LoggedStatusSpec.

Lemma debug_quiet msg l (c : Console) : level l = 1 -> debug msg l c = c.
Proof. intros H. unfold debug. now rewrite H. Qed.

Lemma debug_loud msg l (c : Console) :
  level l = 2 -> module l = "Status"%string ->
  exists txt, debug msg l c = c ++ [(ConsoleDebug, txt)] /\
              String.prefix "[Status::debug] " txt = true.
Proof.
  intros H Hm. unfold debug. rewrite H, Hm. eexists. split; [reflexivity|].
  cbn. repeat (rewrite Ascii.eqb_refl; cbn). destruct msg; reflexivity.
Qed.

(** What the operations keep: three buckets and the logger. *)
Lemma run_op_keeps o s c :
  length (WINDOW s) = 3%nat ->
  exists s', fst (run_op o s c) = Some s' /\
             length (WINDOW s') = 3%nat /\ LOGGER s' = LOGGER s /\
             BUCKETS s' = BUCKETS s /\ TIMEOUT s' = TIMEOUT s /\
             BUCKET_INTERVAL s' = BUCKET_INTERVAL s /\
             WINDOW s' = step_window (WINDOW s) o /\
             (level (LOGGER s) = 1 -> snd (run_op o s c) = c) /\
             (level (LOGGER s) = 2 -> module (LOGGER s) = "Status"%string ->
              exists ln, snd (run_op o s c) = c ++ [ln] /\ debug_line ln).
Proof.
  intros Hlen. destruct o as [p|]; cbn [run_op].
  - unfold increment.
    destruct (WINDOW s) as [|b rest] eqn:E; [discriminate|].
    eexists. split; [reflexivity|]. cbn [fst snd step_window].
    split; [exact Hlen|]. do 4 (split; [reflexivity|]).
    split; [reflexivity|]. split.
    + intros Hq. now apply debug_quiet.
    + intros Hl Hm. destruct (debug_loud
        (String.concat EmptyString
           ["Incrementing the '"; property_name p;
            "' count of the first bucket"]%string) _ c Hl Hm)
        as (txt & -> & Hpre).
      eexists. split; [reflexivity|]. split; [reflexivity|exact Hpre].
  - unfold nextBucket. cbn [LOGGER set_WINDOW WINDOW].
    eexists. split; [reflexivity|]. cbn [fst snd step_window].
    split; [cbn; rewrite removelast_firstn_len, length_take; lia|].
    do 4 (split; [reflexivity|]). split; [reflexivity|]. split.
    + intros Hq. now apply debug_quiet.
    + intros Hl Hm.
      destruct (debug_loud
        (String.append "Window After rotation "
           (stringify (bucket :: removelast (WINDOW s)))) _ c Hl Hm)
        as (txt & -> & Hpre).
      eexists. split; [reflexivity|]. split; [reflexivity|exact Hpre].
Qed.

Lemma run_keeps ops :
  forall s c,
    length (WINDOW s) = 3%nat ->
    exists s', fst (run ops s c) = Some s' /\
               length (WINDOW s') = 3%nat /\ LOGGER s' = LOGGER s /\
               BUCKETS s' = BUCKETS s /\ TIMEOUT s' = TIMEOUT s /\
               BUCKET_INTERVAL s' = BUCKET_INTERVAL s /\
               WINDOW s' = window_after ops (WINDOW s) /\
               (level (LOGGER s) = 1 -> snd (run ops s c) = c) /\
               (level (LOGGER s) = 2 ->
                module (LOGGER s) = "Status"%string ->
                exists lines, snd (run ops s c) = c ++ lines /\
                              length lines = length ops /\
                              Forall debug_line lines).
Proof.
  induction ops as [|o ops IH]; intros s c Hlen.
  - exists s. cbn [run fst snd window_after fold_left length].
    repeat split; try assumption.
    intros _ _. exists []. now rewrite app_nil_r.
  - destruct (run_op_keeps o s c Hlen)
      as (s1 & Hs1 & Hlen1 & Hlog1 & Hb1 & Ht1 & Hi1 & Hw1 & Hq1 & Hl1).
    cbn [run]. destruct (run_op o s c) as [[s1'|] c1] eqn:E;
      cbn [fst snd] in *; [|discriminate].
    injection Hs1 as ->.
    destruct (IH s1 c1 Hlen1)
      as (s' & Hs' & Hlen' & Hlog' & Hb' & Ht' & Hi' & Hw' & Hq' & Hl').
    exists s'. split; [exact Hs'|]. split; [exact Hlen'|].
    split; [congruence|]. split; [congruence|]. split; [congruence|].
    split; [congruence|]. split.
    { rewrite Hw', Hw1. reflexivity. }
    split.
    + intros Hq. rewrite Hq' by congruence. now apply Hq1.
    + intros Hl Hm.
      destruct (Hl1 Hl Hm) as (ln & -> & Hln).
      destruct Hl' as (lines & -> & Hlen2 & Hall); [congruence..|].
      exists (ln :: lines). split; [now rewrite <- app_assoc|].
      split; [cbn; lia|]. now constructor.
Qed.

(** X22.  The logging [Status] writes to the console only when it is
    constructed with [debug] true: one line on construction and one line
    for every [increment] and every rotation, each written with
    [console.debug] and starting with the module name [Status] and
    [::debug] between brackets.  Without [debug], or with [debug] false,
    the console is left as it was.  The counting does not depend on
    [debug]: either way the object has three buckets, the timeout given
    and a third of it, rounded down, as its rotation interval. *)
Theorem X22_status_logs_only_when_debugging
    (resetTimeout : Z) (ops : list Op) (c : Console) :
  (forall d, d <> Some true -> snd (session resetTimeout d ops c) = c) /\
  (exists lines,
      snd (session resetTimeout (Some true) ops c) = c ++ lines /\
      length lines = S (length ops) /\ Forall debug_line lines) /\
  (forall d,
      exists s, fst (session resetTimeout d ops c) = Some s /\
                WINDOW s = window_after ops (repeat bucket 3) /\
                BUCKETS s = 3%nat /\ TIMEOUT s = resetTimeout /\
                BUCKET_INTERVAL s = resetTimeout / 3).
Proof.
  split; [|split].
  - intros d Hd. unfold session, new.
    assert (Hq : (if match d with Some d0 => d0 | None => false end
                  then 2 else 1) = 1).
    { destruct d as [[|]|]; congruence. }
    rewrite Hq.
    match goal with
    | |- snd (run ops ?s ?c1) = _ =>
        destruct (run_keeps ops s c1 eq_refl)
          as (s' & _ & _ & _ & _ & _ & _ & _ & Hquiet & _)
    end.
    rewrite Hquiet by reflexivity. reflexivity.
  - unfold session, new.
    match goal with
    | |- exists lines, snd (run ops ?s ?c1) = _ /\ _ =>
        destruct (run_keeps ops s c1 eq_refl)
          as (s' & _ & _ & _ & _ & _ & _ & _ & _ & Hloud)
    end.
    destruct (Hloud eq_refl eq_refl) as (lines & -> & Hlen & Hall).
    eexists (_ :: lines). split; [cbn; rewrite <- app_assoc; reflexivity|].
    split; [cbn; lia|]. constructor; [|exact Hall].
    split; reflexivity.
  - intros d. unfold session, new.
    match goal with
    | |- exists s, fst (run ops ?s0 ?c1) = _ /\ _ =>
        destruct (run_keeps ops s0 c1 eq_refl)
          as (s' & Hs' & _ & _ & Hb & Ht & Hi & Hw & _)
    end.
    exists s'. split; [exact Hs'|]. cbn in Hb, Ht, Hi, Hw. auto.
Qed.

Lemma counter_accumulate p w :
  forall acc, counter p (fold_left accumulate w acc)
              = counter p acc + total p w.
Proof.
  induction w as [|b w IH]; intros acc; cbn [fold_left total fold_right].
  - lia.
  - rewrite IH. fold (total p w). destruct p; cbn; lia.
Qed.

Lemma counter_stats_logged p s : counter p (stats s) = total p (WINDOW s).
Proof.
  unfold stats. rewrite counter_accumulate. now destruct p.
Qed.

Lemma total_removelast_logged p w :
  Forall nonneg w -> total p (removelast w) <= total p w.
Proof.
  induction 1 as [|x l Hx Hl IH]; [reflexivity|].
  cbn [removelast]. destruct l as [|y l].
  - unfold total. cbn [fold_right].
    assert (0 <= counter p x)
      by (destruct Hx as (?&?&?&?&?); destruct p; cbn [counter]; lia).
    lia.
  - unfold total in *. cbn [fold_right] in *. lia.
Qed.

Lemma total_nonneg_logged p w : Forall nonneg w -> 0 <= total p w.
Proof.
  induction 1 as [|x l Hx Hl IH]; [reflexivity|].
  unfold total in *. cbn [fold_right].
  assert (0 <= counter p x)
    by (destruct Hx as (?&?&?&?&?); destruct p; cbn [counter]; lia).
  lia.
Qed.

Lemma step_window_counts p o w :
  w <> [] -> Forall nonneg w ->
  step_window w o <> [] /\ Forall nonneg (step_window w o) /\
  total p (step_window w o) <= total p w + increments p [o] /\
  (is_rotation o = false ->
   total p (step_window w o) = total p w + increments p [o]).
Proof.
  intros Hne Hnn. destruct o as [q|]; cbn [step_window is_rotation].
  - destruct w as [|b rest]; [congruence|].
    inversion Hnn as [|? ? Hb Hrest]; subst.
    split; [discriminate|]. split.
    + constructor; [|assumption].
      destruct Hb as (?&?&?&?&?). unfold nonneg.
      destruct q; cbn [bump failures successes rejects fires timeouts];
        repeat split; lia.
    + assert (total p (bump q b :: rest)
              = total p (b :: rest) + increments p [Increment q]).
      { unfold increments, total. cbn [fold_right List.filter].
        destruct p, q;
          cbn [same_property length counter bump failures successes rejects
               fires timeouts]; lia. }
      split; [lia|auto].
  - split; [discriminate|]. split.
    + constructor; [unfold nonneg; cbn; repeat split; lia|].
      clear Hne. induction Hnn as [|x l Hx Hl IH]; [constructor|].
      cbn [removelast]. destruct l; [constructor|].
      constructor; assumption.
    + split; [|discriminate].
      unfold increments. cbn [List.filter length].
      pose proof (total_removelast_logged p w Hnn) as Hrl.
      unfold total in *. cbn [fold_right].
      assert (counter p bucket = 0) as -> by now destruct p. lia.
Qed.

Lemma increments_cons p o ops :
  increments p (o :: ops) = increments p [o] + increments p ops.
Proof.
  unfold increments. cbn [List.filter].
  destruct o as [q|]; [destruct (same_property p q)|]; cbn [length]; lia.
Qed.

Lemma window_after_counts p ops :
  forall w,
    w <> [] -> Forall nonneg w ->
    0 <= total p (window_after ops w) <= total p w + increments p ops /\
    (forallb (fun o => negb (is_rotation o)) ops = true ->
     total p (window_after ops w) = total p w + increments p ops).
Proof.
  induction ops as [|o ops IH]; intros w Hne Hnn.
  - cbn [window_after fold_left forallb]. unfold increments.
    cbn [List.filter length].
    pose proof (total_nonneg_logged p w Hnn). lia.
  - destruct (step_window_counts p o w Hne Hnn) as (Hne1 & Hnn1 & Hle & Heq).
    destruct (IH (step_window w o) Hne1 Hnn1) as [Hb Hall].
    unfold window_after in *. cbn [fold_left forallb].
    rewrite increments_cons. split; [lia|].
    intros Hf. apply andb_prop in Hf as [Ho Hf].
    rewrite (Hall Hf), Heq; [lia|].
    now destruct (is_rotation o).
Qed.

(** X23.  The logging [Status] constructed and then used never throws
    and keeps three buckets.  Each counter of [stats] is the sum of that
    counter over the window; it is never negative and never more than
    the number of increments of that counter; it is exactly that number
    if no rotation happened.  Three rotations in a row bring every
    counter of [stats] back to zero. *)
Theorem X23_logged_status_counts
    (resetTimeout : Z) (debug : option bool) (ops : list Op) (c : Console) :
  exists s,
    fst (session resetTimeout debug ops c) = Some s /\
    length (WINDOW s) = 3%nat /\
    (forall p, counter p (stats s) = total p (WINDOW s)) /\
    (forall p, 0 <= counter p (stats s) <= increments p ops) /\
    (forallb (fun o => negb (is_rotation o)) ops = true ->
     forall p, counter p (stats s) = increments p ops) /\
    (forall s3,
        fst (session resetTimeout debug
               (ops ++ [NextBucket; NextBucket; NextBucket]) c) = Some s3 ->
        stats s3 = bucket).
Proof.
  unfold session, new.
  match goal with
  | |- exists s, fst (run ops ?s0 ?c1) = _ /\ _ =>
      destruct (run_keeps ops s0 c1 eq_refl)
        as (s & Hs & Hlen & _ & _ & _ & _ & Hw & _);
      pose proof (fun tail => run_keeps (ops ++ tail) s0 c1 eq_refl) as Htail
  end.
  cbn [WINDOW] in Hw.
  exists s. split; [exact Hs|]. split; [exact Hlen|].
  assert (Hnn : Forall nonneg (repeat bucket 3)).
  { repeat constructor; cbn; lia. }
  split; [intros p; apply counter_stats_logged|]. split; [|split].
  - intros p. rewrite counter_stats_logged, Hw.
    destruct (window_after_counts p ops (repeat bucket 3)) as [Hb _];
      [discriminate|exact Hnn|].
    assert (total p (repeat bucket 3) = 0) by now destruct p.
    lia.
  - intros Hall p. rewrite counter_stats_logged, Hw.
    destruct (window_after_counts p ops (repeat bucket 3)) as [_ He];
      [discriminate|exact Hnn|].
    rewrite (He Hall).
    assert (total p (repeat bucket 3) = 0) by now destruct p.
    lia.
  - intros s3 Hs3.
    destruct (Htail [NextBucket; NextBucket; NextBucket])
      as (s3' & Hs3' & _ & _ & _ & _ & _ & Hw3 & _).
    assert (s3' = s3) as -> by congruence.
    cbn [WINDOW] in Hw3. unfold window_after in Hw3.
    rewrite fold_left_app in Hw3. fold (window_after ops (repeat bucket 3))
      in Hw3. rewrite <- Hw in Hw3.
    destruct (WINDOW s) as [|b1 [|b2 [|b3 [|b4 w]]]]; try discriminate.
    cbn in Hw3. unfold stats. rewrite Hw3. reflexivity.
Qed.

End LoggedStatusTheorems.

(* ===================================================================== *)
(** * The further theorems at concrete breakers                           *)
(* ===================================================================== *)

Section FurtherWitnesses.
Import Js Common Types CircuitBreaker BreakerSpec Samples Scenarios.
Import StatusShape BreakerEvents Provenance Admission Progress.
Import Serialisation Accounting.

Lemma X1_witness :
  exists b,
    boot falsy_options [] = Some b /\
    options b = populate falsy_options /\
    timeout (options b) = Some (TNumber (int 10000)) /\
    maxFailures (options b) = Some (int 10) /\
    resetTimeout (options b) = Some (int 30000) /\
    debug (options b) = Some false /\
    populate (options b) = options b.
Proof.
  eexists.
  match goal with
  | |- boot ?o ?tr = Some ?b /\ _ =>
      assert (Hb : boot o tr = Some b) by (vm_compute; reflexivity);
      destruct (X1_options_are_populated o b (boot_reachable o tr b Hb))
        as (Hopt & Hidem & _)
  end.
  split; [exact Hb|]. split; [exact Hopt|].
  split; [reflexivity|]. split; [reflexivity|]. split; [reflexivity|].
  split; [reflexivity|exact Hidem].
Defined.

Lemma X4_witness :
  Status.WINDOW (Status.nextBucket aged_status) = repeat Status.bucket 10 /\
  Status.failures (Status.stats aged_status) = 3 /\
  Status.failures (Status.stats (Status.nextBucket aged_status)) = 0.
Proof.
  destruct (X4_rotation_drops_oldest aged_status (repeat Status.bucket 9)
              (Status.mkBucket 3 1 0 4 0 (Status.FBool false)) eq_refl)
    as [Hw Hc].
  split; [rewrite Hw; reflexivity|]. split; [reflexivity|].
  specialize (Hc Status.Pfailures). cbn [counter] in Hc. rewrite Hc.
  reflexivity.
Defined.

Lemma X5_witness :
  exists s,
    Status.run flagging Status.new = Some s /\
    Status.isCircuitBreakerOpen (Status.stats s) = Status.FNum 2.
Proof.
  eexists.
  match goal with
  | |- Status.run ?ops _ = Some ?s /\ _ =>
      assert (Hs : Status.run ops Status.new = Some s)
        by (vm_compute; reflexivity);
      destruct (X5_open_flag_is_a_count ops s Hs) as [Hflag _]
  end.
  split; [exact Hs|]. rewrite Hflag. reflexivity.
Defined.

Lemma X6_witness :
  exists b,
    boot two_failures_timed probing = Some b /\
    STATE b = HALF_OPEN /\
    track (log b) CLOSED = HALF_OPEN.
Proof.
  eexists.
  match goal with
  | |- boot ?o ?tr = Some ?b /\ _ =>
      assert (Hb : boot o tr = Some b) by (vm_compute; reflexivity);
      pose proof (X6_state_follows_events o b (boot_reachable o tr b Hb))
        as Htrack
  end.
  split; [exact Hb|]. split; [reflexivity|].
  rewrite <- Htrack. reflexivity.
Defined.

Lemma X7_witness :
  exists b,
    boot two_failures tripping = Some b /\
    occurrences Status.Pfailures (log b) = 2 /\
    Status.failures (stats b) = 2 /\
    Status.fires (stats b) = 2.
Proof.
  eexists.
  match goal with
  | |- boot ?o ?tr = Some ?b /\ _ =>
      assert (Hb : boot o tr = Some b) by (vm_compute; reflexivity);
      destruct (X7_stats_count_events o tr b Hb) as [_ Hexact]
  end.
  split; [exact Hb|]. split; [reflexivity|].
  pose proof (Hexact eq_refl Status.Pfailures) as Hf.
  pose proof (Hexact eq_refl Status.Pfires) as Hq.
  cbn [counter] in Hf, Hq. rewrite Hf, Hq. split; reflexivity.
Defined.

Lemma X8_witness :
  exists b,
    boot two_failures tripping = Some b /\
    length (Status.WINDOW (STATUS b)) = 10%nat /\
    Status.timeouts (stats b) <= Status.failures (stats b) /\
    Status.rejects (stats b) <= Status.fires (stats b).
Proof.
  eexists.
  match goal with
  | |- boot ?o ?tr = Some ?b /\ _ =>
      assert (Hb : boot o tr = Some b) by (vm_compute; reflexivity);
      destruct (X8_window_buckets o b (boot_reachable o tr b Hb))
        as (Hlen & _ & Hto & Hrj)
  end.
  split; [exact Hb|]. split; [exact Hlen|]. split; [exact Hto|exact Hrj].
Defined.

Lemma X9_witness :
  exists b tid,
    boot two_failures tripping = Some b /\
    STATE b = OPEN /\
    RESET_TIMEOUT b = Some tid /\
    timers b !! tid = Some (ResetTimer (Some (int 200))).
Proof.
  eexists.
  match goal with
  | |- exists tid, boot ?o ?tr = Some ?b /\ _ =>
      assert (Hb : boot o tr = Some b) by (vm_compute; reflexivity);
      destruct (X9_reset_timer_iff_open o b (boot_reachable o tr b Hb))
        as (Hopen & _);
      destruct (Hopen eq_refl) as (tid & Hrt & Htimer);
      exists tid
  end.
  split; [exact Hb|]. split; [reflexivity|]. split; [exact Hrt|].
  exact Htimer.
Defined.

Lemma X10_witness :
  exists b b',
    boot two_failures tripping = Some b /\
    STATE b = OPEN /\
    exec (Elapse 0%nat) b = Some b' /\
    STATE b' = HALF_OPEN /\
    PENDING_CLOSE b' = true /\
    log b' = log b ++ [Emitted (EvHalfOpen (Some (int 200)))].
Proof.
  eexists.
  match goal with
  | |- exists b', boot ?o ?tr = Some ?b /\ _ =>
      assert (Hb : boot o tr = Some b) by (vm_compute; reflexivity);
      destruct (X10_reset_timer_half_opens o b 0%nat (Some (int 200))
                  (boot_reachable o tr b Hb) eq_refl)
        as (Hst & b' & Hexec & Hst' & Hpc & Hlog & _);
      exists b'
  end.
  split; [exact Hb|]. split; [exact Hst|]. split; [exact Hexec|].
  split; [exact Hst'|]. split; [exact Hpc|exact Hlog].
Defined.

Lemma X11_witness :
  exists b c h,
    boot no_options in_flight = Some b /\
    calls b !! 0%nat = Some c /\
    call_promise c = Pending /\
    call_awaiting c = true /\
    call_timeout c = Some h /\
    timers b !! h = Some (CallTimer 0%nat (int 10000)).
Proof.
  eexists. eexists.
  match goal with
  | |- exists h, boot ?o ?tr = Some ?b /\ calls _ !! _ = Some ?c /\ _ =>
      assert (Hb : boot o tr = Some b) by (vm_compute; reflexivity);
      assert (Hc : calls b !! 0%nat = Some c) by (vm_compute; reflexivity);
      destruct (X11_pending_calls_have_deadlines o b
                  (boot_reachable o tr b Hb)) as [Hcalls _];
      destruct (Hcalls _ _ Hc) as [Hiff Hdeadline];
      assert (Hen : timeout_enabled (timeout (populate o))
                    = Some (int 10000)) by (vm_compute; reflexivity);
      rewrite Hen in Hdeadline;
      destruct (Hdeadline eq_refl) as (h & Hh & Htimer);
      exists h
  end.
  split; [exact Hb|]. split; [exact Hc|]. split; [reflexivity|].
  split; [apply Hiff; reflexivity|]. split; [exact Hh|exact Htimer].
Defined.

Lemma X12_witness :
  exists b b',
    boot two_failures tripping = Some b /\
    STATE b = OPEN /\
    exec (Fire [] ReturnsPromise) b = Some b' /\
    STATE b' = OPEN /\
    RESET_TIMEOUT b' = RESET_TIMEOUT b.
Proof.
  eexists. eexists.
  match goal with
  | |- boot ?o ?tr = Some ?b /\ _ /\ exec ?i _ = Some ?b' /\ _ =>
      assert (Hb : boot o tr = Some b) by (vm_compute; reflexivity);
      assert (Hexec : exec i b = Some b') by (vm_compute; reflexivity);
      destruct (X12_open_is_stable o b b' i (boot_reachable o tr b Hb)
                  eq_refl Hexec ltac:(discriminate) ltac:(discriminate))
        as (Hst' & Hrt & _)
  end.
  split; [exact Hb|]. split; [reflexivity|]. split; [exact Hexec|].
  split; [exact Hst'|exact Hrt].
Defined.

Lemma X13_witness :
  exists b b',
    boot no_options [] = Some b /\
    call [VString "RESOLVE"] ReturnsPromise b = Some (0%nat, b') /\
    log b' = [Emitted (EvFire [VString "RESOLVE"]);
              Invoked 0%nat [VString "RESOLVE"]] /\
    Status.fires (stats b') = 1 /\
    calls b' !! 0%nat
      = Some (mkCall [VString "RESOLVE"] (Some 0%nat) false Pending true) /\
    timers b' = <[0%nat := CallTimer 0%nat (int 10000)]> ∅.
Proof.
  eexists.
  match goal with
  | |- exists b', boot ?o ?tr = Some ?b /\ _ =>
      assert (Hb : boot o tr = Some b) by (vm_compute; reflexivity);
      destruct (X13_call_let_through o b [VString "RESOLVE"]
                  (boot_reachable o tr b Hb) eq_refl)
        as (b' & Hcall & Hlog & _ & _ & Hf & _ & _ & _ & _ & _ & Hto);
      assert (Hen : timeout_enabled (timeout (populate o))
                    = Some (int 10000)) by (vm_compute; reflexivity);
      rewrite Hen in Hto; destruct Hto as [Hc Htimers];
      exists b'
  end.
  split; [exact Hb|]. split; [exact Hcall|]. split; [exact Hlog|].
  split; [rewrite Hf; reflexivity|]. split; [exact Hc|exact Htimers].
Defined.

Lemma X14_witness :
  exists b b',
    boot two_failures_timed probing = Some b /\
    STATE b = HALF_OPEN /\
    run (fire_all [[VString "a"]; [VString "b"]]) b = Some b' /\
    STATE b' = HALF_OPEN /\
    invocations (log b')
      = invocations (log b) ++ [[VString "a"]; [VString "b"]] /\
    Status.rejects (stats b') = Status.rejects (stats b).
Proof.
  eexists.
  match goal with
  | |- exists b', boot ?o ?tr = Some ?b /\ _ =>
      assert (Hb : boot o tr = Some b) by (vm_compute; reflexivity);
      destruct (X14_calls_pass_unless_open o b
                  [[VString "a"]; [VString "b"]]
                  (boot_reachable o tr b Hb) eq_refl)
        as (b' & Hrun & Hst & Hinv & _ & Hrj & _);
      exists b'
  end.
  split; [exact Hb|]. split; [reflexivity|]. split; [exact Hrun|].
  split; [rewrite Hst; reflexivity|]. split; [exact Hinv|exact Hrj].
Defined.

Lemma X15_witness :
  exists b b',
    boot no_options in_flight = Some b /\
    exec (Settle 0%nat (Resolves (VString "RESOLVE"))) b = Some b' /\
    log b' = log b ++ [Emitted EvSuccess] /\
    STATE b' = CLOSED /\
    Status.successes (stats b') = 1 /\
    calls b' !! 0%nat
      = Some (mkCall [VString "RESOLVE"] (Some 0%nat) false
                     (Fulfilled (VString "RESOLVE")) false) /\
    timers b' !! 0%nat = None.
Proof.
  eexists.
  match goal with
  | |- exists b', boot ?o ?tr = Some ?b /\ _ =>
      assert (Hb : boot o tr = Some b) by (vm_compute; reflexivity);
      destruct (X15_success_is_counted o b 0%nat
                  (mkCall [VString "RESOLVE"] (Some 0%nat) false Pending
                          true)
                  (VString "RESOLVE") (boot_reachable o tr b Hb)
                  eq_refl eq_refl eq_refl)
        as (b' & Hexec & Hlog & Hst & Hs & _ & _ & _ & _ & Hc & Htimer);
      exists b'
  end.
  split; [exact Hb|]. split; [exact Hexec|]. split; [exact Hlog|].
  split; [exact Hst|]. split; [rewrite Hs; reflexivity|].
  split; [exact Hc|]. apply Htimer. reflexivity.
Defined.

Lemma X16_witness :
  exists b b',
    boot no_options in_flight = Some b /\
    exec (Settle 0%nat (Rejects boom)) b = Some b' /\
    log b' = log b ++ [Emitted (EvFailure boom [VString "RESOLVE"])] /\
    STATE b' = CLOSED /\
    Status.failures (stats b') = 1 /\
    calls b' !! 0%nat
      = Some (mkCall [VString "RESOLVE"] (Some 0%nat) false
                     (Rejected boom) false) /\
    timers b' !! 0%nat = None.
Proof.
  eexists.
  match goal with
  | |- exists b', boot ?o ?tr = Some ?b /\ _ =>
      assert (Hb : boot o tr = Some b) by (vm_compute; reflexivity);
      destruct (X16_rejection_is_a_failure o b 0%nat
                  (mkCall [VString "RESOLVE"] (Some 0%nat) false Pending
                          true)
                  boom (boot_reachable o tr b Hb) eq_refl eq_refl eq_refl)
        as (b' & Hexec & Hlog & Hst & Hf & _ & _ & _ & _ & Hc & Htimer);
      exists b'
  end.
  split; [exact Hb|]. split; [exact Hexec|]. split; [exact Hlog|].
  split; [exact Hst|]. split; [rewrite Hf; reflexivity|].
  split; [exact Hc|]. apply Htimer. reflexivity.
Defined.

Lemma X17_witness :
  exists b b' c',
    boot no_options in_flight = Some b /\
    exec (Elapse 0%nat) b = Some b' /\
    calls b' !! 0%nat = Some c' /\
    settled_by (Elapse 0%nat) 0%nat b c' /\
    call_promise c' = Rejected (VError "CircuitBreaker" "ETIMEDOUT").
Proof.
  eexists. eexists. eexists.
  match goal with
  | |- boot ?o ?tr = Some ?b /\ exec ?i _ = Some ?b' /\
       calls _ !! ?id = Some ?c' /\ _ =>
      assert (Hb : boot o tr = Some b) by (vm_compute; reflexivity);
      assert (Hexec : exec i b = Some b') by (vm_compute; reflexivity);
      assert (Hc : calls b' !! id = Some c') by (vm_compute; reflexivity);
      pose proof (X17_promise_provenance o b b' i id c'
                    (boot_reachable o tr b Hb) Hexec Hc
                    ltac:(discriminate)) as Hprov
  end.
  split; [exact Hb|]. split; [exact Hexec|]. split; [exact Hc|].
  split; [exact Hprov|].
  destruct Hprov
    as [(c & Hc0 & Hnp & _)
       |[(v & Hi & _)
        |[(e & Hi & _)
         |[(a & e & Hi & _)
          |[(a & act & Hi & _)
           |(tid & d & _ & _ & Hp)]]]]]; try discriminate.
  - vm_compute in Hc0. injection Hc0 as <-. now destruct Hnp.
  - exact Hp.
Defined.

Lemma X18_witness :
  exists b,
    boot no_options in_flight = Some b /\
    (exists b', exec (Settle 0%nat (Rejects boom)) b = Some b') /\
    (exists b', exec (Elapse 0%nat) b = Some b') /\
    exec (Elapse 1%nat) b = None /\
    (exists r, call [] (Throws boom) b = Some r).
Proof.
  eexists.
  match goal with
  | |- boot ?o ?tr = Some ?b /\ _ =>
      assert (Hb : boot o tr = Some b) by (vm_compute; reflexivity);
      destruct (X18_methods_never_throw o b (Settle 0%nat (Rejects boom))
                  (boot_reachable o tr b Hb)) as ([Hsettle _] & _ & _ & Hcall);
      destruct (X18_methods_never_throw o b (Elapse 0%nat)
                  (boot_reachable o tr b Hb)) as ([Helapse _] & _)
  end.
  split; [exact Hb|]. split; [|split; [|split]].
  - apply Hsettle. eexists. split; reflexivity.
  - apply Helapse. eexists. reflexivity.
  - reflexivity.
  - apply Hcall.
Defined.

Lemma X19_witness :
  exists b,
    boot two_failures tripping = Some b /\
    json_state (toJSON b) = mkStateJSON false true false /\
    json_stats (toJSON b) = stats b /\
    Status.isCircuitBreakerOpen (json_stats (toJSON b)) = Status.FNum 1.
Proof.
  eexists.
  match goal with
  | |- boot ?o ?tr = Some ?b /\ _ =>
      assert (Hb : boot o tr = Some b) by (vm_compute; reflexivity);
      destruct (X19_toJSON o b (boot_reachable o tr b Hb))
        as (Hstate & _ & Hstats & _ & Hflag)
  end.
  split; [exact Hb|]. split; [exact Hstate|]. split; [exact Hstats|].
  rewrite Hflag. reflexivity.
Defined.

Lemma X20_witness :
  exists b,
    boot two_failures one_failed_one_pending = Some b /\
    next_call b = 2%nat /\
    count_calls is_fulfilled b = 0 /\
    count_calls is_rejected b = 1 /\
    count_calls is_pending b = 1.
Proof.
  eexists.
  match goal with
  | |- boot ?o ?tr = Some ?b /\ _ =>
      assert (Hb : boot o tr = Some b) by (vm_compute; reflexivity);
      destruct (X20_calls_are_counted_once o b (boot_reachable o tr b Hb))
        as (_ & Hful & Hrej & Hpen)
  end.
  split; [exact Hb|]. split; [reflexivity|].
  split; [rewrite Hful; reflexivity|].
  split; [rewrite Hrej; reflexivity|rewrite Hpen; reflexivity].
Defined.

End FurtherWitnesses.
